(** * MFKDF: multi-factor key derivation, setup and derive

    A shallow embedding of the key setup (src/setup/key.js), the key
    derivation (src/derive/key.js) and the hmacsha1 / qrcode factors, together
    with the byte-level primitives they call (base64 and hex codecs,
    buffer-xor, SHA-1, SHA-512, HMAC, HKDF, PBKDF2).

    Layout: Part I holds the definitions, Part II the lemmas and theorems. *)

From Stdlib Require Import ZArith List String Ascii Lia.
From Stdlib.Strings Require Import Byte.
From Stdlib Require Import Uint63.
From stdpp Require Import base option gmap strings list sorting.

Open Scope Z_scope.
#[global] Set Warnings "-register-all".

(* ===================================================================== *)
(** * Part I. Definitions *)
(* ===================================================================== *)

(** ** Buffers

    A Node [Buffer] is a list of bytes. *)

Abbreviation bytes := (list byte).

Definition byte_to_Z (b : byte) : Z := Z.of_N (Byte.to_N b).

Definition byte_of_Z (z : Z) : byte :=
  match Byte.of_N (Z.to_N (Z.land z 255)) with
  | Some b => b
  | None => x00
  end.

(** [Buffer.from(str)]: the bytes of a string (strings are kept UTF-8 encoded). *)
Definition bytes_of_string (s : string) : bytes := list_byte_of_string s.

(** [Buffer.alloc(n)]: [n] zero bytes. *)
Definition alloc (n : nat) : bytes := repeat x00 n.

(** Big-endian integers, as the hash functions read and write them. *)
Definition be_decode (bs : bytes) : Z :=
  fold_left (fun acc b => Z.lor (Z.shiftl acc 8) (byte_to_Z b)) bs 0.

Fixpoint be_encode (n : nat) (x : Z) : bytes :=
  match n with
  | O => []
  | S k => byte_of_Z (Z.shiftr x (8 * Z.of_nat k)) :: be_encode k x
  end.

(** The [^] of two bytes. *)
Definition bxor (a b : byte) : byte :=
  byte_of_Z (Z.lxor (byte_to_Z a) (byte_to_Z b)).

(** The [buffer-xor] package:
<<
    var length = Math.max(a.length, b.length)
    for (var i = 0; i < length; ++i) buffer[i] = a[i] ^ b[i]
>>
    Past the end of the shorter buffer [a[i]] is [undefined], and
    [undefined ^ x] is [x]. *)
Fixpoint xor (a b : bytes) : bytes :=
  match a, b with
  | [], _ => b
  | _, [] => a
  | x :: a', y :: b' => bxor x y :: xor a' b'
  end.

(** ** Hexadecimal: [buf.toString('hex')] and [Buffer.from(s, 'hex')] *)

Definition hex_digit (n : Z) : ascii :=
  ascii_of_nat (Z.to_nat (if n <? 10 then 48 + n else 87 + n)).

Definition hex_value (c : ascii) : option Z :=
  let n := Z.of_nat (nat_of_ascii c) in
  if (48 <=? n) && (n <=? 57) then Some (n - 48)
  else if (97 <=? n) && (n <=? 102) then Some (n - 87)
  else if (65 <=? n) && (n <=? 70) then Some (n - 55)
  else None.

Fixpoint hex (bs : bytes) : string :=
  match bs with
  | [] => EmptyString
  | b :: r =>
      String (hex_digit (byte_to_Z b / 16))
        (String (hex_digit (byte_to_Z b mod 16)) (hex r))
  end.

(** Decoding stops at the first pair that is not two hex digits. *)
Fixpoint unhex (s : string) : bytes :=
  match s with
  | String c1 (String c2 r) =>
      match hex_value c1, hex_value c2 with
      | Some h, Some l => byte_of_Z (16 * h + l) :: unhex r
      | _, _ => []
      end
  | _ => []
  end.

(** ** Base64: [buf.toString('base64')] and [Buffer.from(s, 'base64')] *)

Definition b64_char (n : Z) : ascii :=
  ascii_of_nat (Z.to_nat (
    if n <? 26 then 65 + n
    else if n <? 52 then 71 + n
    else if n <? 62 then n - 4
    else if n =? 62 then 43 else 47)).

Definition b64_value (c : ascii) : option Z :=
  let n := Z.of_nat (nat_of_ascii c) in
  if (65 <=? n) && (n <=? 90) then Some (n - 65)
  else if (97 <=? n) && (n <=? 122) then Some (n - 71)
  else if (48 <=? n) && (n <=? 57) then Some (n + 4)
  else if n =? 43 then Some 62
  else if n =? 47 then Some 63
  else None.

(** Three bytes make four 6-bit digits; a tail of two bytes makes three,
    a tail of one byte makes two. *)
Fixpoint sextets (bs : bytes) : list Z :=
  match bs with
  | a :: b :: c :: r =>
      let x := 65536 * byte_to_Z a + 256 * byte_to_Z b + byte_to_Z c in
      x / 262144 :: (x / 4096) mod 64 :: (x / 64) mod 64 :: x mod 64 :: sextets r
  | [a; b] =>
      let x := 1024 * byte_to_Z a + 4 * byte_to_Z b in
      [x / 4096; (x / 64) mod 64; x mod 64]
  | [a] =>
      let x := 16 * byte_to_Z a in
      [x / 64; x mod 64]
  | [] => []
  end.

Fixpoint unsextets (ds : list Z) : bytes :=
  match ds with
  | d1 :: d2 :: d3 :: d4 :: r =>
      let x := 262144 * d1 + 4096 * d2 + 64 * d3 + d4 in
      byte_of_Z (x / 65536) :: byte_of_Z (x / 256) :: byte_of_Z x :: unsextets r
  | [d1; d2; d3] =>
      let x := 4096 * d1 + 64 * d2 + d3 in
      [byte_of_Z (x / 1024); byte_of_Z (x / 4)]
  | [d1; d2] => [byte_of_Z ((64 * d1 + d2) / 16)]
  | _ => []
  end.

Definition b64_padding (n : nat) : list ascii :=
  match (n mod 3)%nat with
  | 1%nat => ["="%char; "="%char]
  | 2%nat => ["="%char]
  | _ => []
  end.

Definition base64_encode (bs : bytes) : string :=
  string_of_list_ascii (map b64_char (sextets bs) ++ b64_padding (length bs)).

(** Node's decoder is lenient: characters outside the alphabet (the [=]
    padding among them) are skipped. *)
Definition base64_decode (s : string) : bytes :=
  unsextets (omap b64_value (list_ascii_of_string s)).

(** ** Hash functions

    Node's [crypto] module and the [@panva/hkdf] package are libraries the
    repository calls; they are written out here after FIPS 180-4, RFC 2104,
    RFC 5869 and RFC 8018 so that the model computes. *)

Fixpoint chunks_fuel (fuel n : nat) (l : bytes) : list bytes :=
  match fuel with
  | O => []
  | S f =>
      match l with
      | [] => []
      | _ => firstn n l :: chunks_fuel f n (skipn n l)
      end
  end.

(** The message cut in blocks of [n] bytes. *)
Definition chunks (n : nat) (l : bytes) : list bytes :=
  chunks_fuel (length l) n l.

(** Merkle-Damgard padding: a [1] bit, zeros, and the bit length of the
    message on [lenbytes] bytes, up to a multiple of [block] bytes. *)
Definition md_pad (block lenbytes : nat) (msg : bytes) : bytes :=
  let l := length msg in
  let k := ((block - (l + 1 + lenbytes) mod block) mod block)%nat in
  msg ++ x80 :: alloc k ++ be_encode lenbytes (8 * Z.of_nat l).

(** *** SHA-1 (FIPS 180-4, section 6.1)

    32-bit words are integers in [Z]; the wrap-around is the [Z.land] with
    [mask32]. *)

Definition mask32 : Z := 0xFFFFFFFF.

Module SHA1.

Definition add (x y : Z) : Z := Z.land (x + y) mask32.
Definition shl (n x : Z) : Z := Z.land (Z.shiftl x n) mask32.
Definition rotl (n x : Z) : Z := Z.lor (shl n x) (Z.shiftr x (32 - n)).
Definition lnot (x : Z) : Z := Z.lxor x mask32.

Definition Ch (b c d : Z) : Z := Z.lor (Z.land b c) (Z.land (lnot b) d).
Definition Parity (b c d : Z) : Z := Z.lxor (Z.lxor b c) d.
Definition Maj (b c d : Z) : Z := Z.lor (Z.lor (Z.land b c) (Z.land b d)) (Z.land c d).

(** The big-endian words of a block. *)
Fixpoint words (l : bytes) : list Z :=
  match l with
  | a :: b :: c :: d :: r =>
      Z.lor (Z.lor (shl 24 (byte_to_Z a)) (shl 16 (byte_to_Z b)))
            (Z.lor (shl 8 (byte_to_Z c)) (byte_to_Z d)) :: words r
  | _ => []
  end.

(** Message schedule, newest word first:
    [W t = ROTL 1 (W (t-3) xor W (t-8) xor W (t-14) xor W (t-16))]. *)
Fixpoint extend (n : nat) (ws : list Z) : list Z :=
  match n with
  | O => ws
  | S k =>
      match ws with
      | _ :: _ :: w3 :: _ :: _ :: _ :: _ :: w8 :: _ :: _ :: _ :: _ :: _ :: w14 :: _ :: w16 :: _ =>
          extend k (rotl 1 (Z.lxor (Z.lxor w3 w8) (Z.lxor w14 w16)) :: ws)
      | _ => ws
      end
  end.

Definition schedule (block : bytes) : list Z :=
  rev_append (extend 64 (rev_append (words block) [])) [].

Definition state : Type := Z * Z * Z * Z * Z.

Definition round (f : Z -> Z -> Z -> Z) (k : Z) (st : state) (w : Z) : state :=
  let '(a, b, c, d, e) := st in
  let tmp := add (add (add (add (rotl 5 a) (f b c d)) e) k) w in
  (tmp, a, rotl 30 b, c, d).

Definition compress (h : state) (block : bytes) : state :=
  let '(h0, h1, h2, h3, h4) := h in
  let ws := schedule block in
  let s1 := fold_left (round Ch 0x5A827999) (firstn 20 ws) h in
  let s2 := fold_left (round Parity 0x6ED9EBA1) (firstn 20 (skipn 20 ws)) s1 in
  let s3 := fold_left (round Maj 0x8F1BBCDC) (firstn 20 (skipn 40 ws)) s2 in
  let '(a, b, c, d, e) := fold_left (round Parity 0xCA62C1D6) (skipn 60 ws) s3 in
  (add h0 a, add h1 b, add h2 c, add h3 d, add h4 e).

Definition init : state :=
  (0x67452301, 0xEFCDAB89, 0x98BADCFE, 0x10325476, 0xC3D2E1F0).

Definition output (st : state) : bytes :=
  let '(h0, h1, h2, h3, h4) := st in
  be_encode 4 h0 ++ be_encode 4 h1 ++ be_encode 4 h2 ++ be_encode 4 h3 ++ be_encode 4 h4.

Definition digest (msg : bytes) : bytes :=
  output (fold_left compress (chunks 64 (md_pad 64 8 msg)) init).

End SHA1.

(** The same function on 63-bit machine integers, which compute fast. It is
    proved equal to [SHA1.digest] in Part II, and is what lets PBKDF2 run its
    tens of thousands of rounds. *)
Module SHA1_fast.
Import Uint63.
#[local] Open Scope uint63_scope.

Definition mask : int := 0xFFFFFFFF.
Definition add (x y : int) : int := (x + y) land mask.
Definition shl (n x : int) : int := (x << n) land mask.
Definition rotl (n x : int) : int := (shl n x) lor (x >> (32 - n)).
Definition lnot (x : int) : int := x lxor mask.

Definition Ch (b c d : int) : int := (b land c) lor ((lnot b) land d).
Definition Parity (b c d : int) : int := (b lxor c) lxor d.
Definition Maj (b c d : int) : int := ((b land c) lor (b land d)) lor (c land d).

Definition byte_int (b : byte) : int := of_Z (byte_to_Z b).

Fixpoint words (l : bytes) : list int :=
  match l with
  | a :: b :: c :: d :: r =>
      ((shl 24 (byte_int a) lor shl 16 (byte_int b))
       lor (shl 8 (byte_int c) lor byte_int d)) :: words r
  | _ => []
  end.

Fixpoint extend (n : nat) (ws : list int) : list int :=
  match n with
  | O => ws
  | S k =>
      match ws with
      | _ :: _ :: w3 :: _ :: _ :: _ :: _ :: w8 :: _ :: _ :: _ :: _ :: _ :: w14 :: _ :: w16 :: _ =>
          extend k (rotl 1 ((w3 lxor w8) lxor (w14 lxor w16)) :: ws)
      | _ => ws
      end
  end.

(** The schedule of a block, from its sixteen words. *)
Definition schedule_words (ws16 : list int) : list int :=
  rev_append (extend 64 (rev_append ws16 [])) [].

Definition schedule (block : bytes) : list int := schedule_words (words block).

Definition state : Type := int * int * int * int * int.

Definition round (f : int -> int -> int -> int) (k : int) (st : state) (w : int) : state :=
  let '(a, b, c, d, e) := st in
  let tmp := add (add (add (add (rotl 5 a) (f b c d)) e) k) w in
  (tmp, a, rotl 30 b, c, d).

Definition compress_words (h : state) (ws16 : list int) : state :=
  let '(h0, h1, h2, h3, h4) := h in
  let ws := schedule_words ws16 in
  let s1 := fold_left (round Ch 0x5A827999) (firstn 20 ws) h in
  let s2 := fold_left (round Parity 0x6ED9EBA1) (firstn 20 (skipn 20 ws)) s1 in
  let s3 := fold_left (round Maj 0x8F1BBCDC) (firstn 20 (skipn 40 ws)) s2 in
  let '(a, b, c, d, e) := fold_left (round Parity 0xCA62C1D6) (skipn 60 ws) s3 in
  (add h0 a, add h1 b, add h2 c, add h3 d, add h4 e).

Definition compress (h : state) (block : bytes) : state :=
  compress_words h (words block).

Definition init : state :=
  (0x67452301, 0xEFCDAB89, 0x98BADCFE, 0x10325476, 0xC3D2E1F0).

Definition output (st : state) : bytes :=
  let '(h0, h1, h2, h3, h4) := st in
  (be_encode 4 (to_Z h0) ++ be_encode 4 (to_Z h1) ++ be_encode 4 (to_Z h2)
   ++ be_encode 4 (to_Z h3) ++ be_encode 4 (to_Z h4))%list.

Definition digest (msg : bytes) : bytes :=
  output (fold_left compress (chunks 64 (md_pad 64 8 msg)) init).

End SHA1_fast.

(** *** SHA-256, SHA-384 and SHA-512 (FIPS 180-4, sections 6.2, 6.4, 6.5)

    One definition over the word size: 32-bit words for SHA-256, 64-bit words
    for SHA-384 and SHA-512. *)
Module SHA2.

Record params := {
  wbits : Z;
  K : list Z;
  IV : list Z;
  Sigma0 : Z * Z * Z;
  Sigma1 : Z * Z * Z;
  sigma0 : Z * Z * Z;
  sigma1 : Z * Z * Z;
  outlen : nat
}.

Section Core.
Variable P : params.

Definition wbytes : nat := Z.to_nat (wbits P / 8).
Definition mask : Z := Z.ones (wbits P).
Definition add (x y : Z) : Z := Z.land (x + y) mask.
Definition rotr (n x : Z) : Z :=
  Z.lor (Z.shiftr x n) (Z.land (Z.shiftl x (wbits P - n)) mask).
Definition Ch (x y z : Z) : Z := Z.lxor (Z.land x y) (Z.land (Z.lxor x mask) z).
Definition Maj (x y z : Z) : Z := Z.lxor (Z.lxor (Z.land x y) (Z.land x z)) (Z.land y z).

(** [ROTR a x xor ROTR b x xor ROTR c x] *)
Definition big_sigma (r : Z * Z * Z) (x : Z) : Z :=
  let '(a, b, c) := r in Z.lxor (Z.lxor (rotr a x) (rotr b x)) (rotr c x).

(** [ROTR a x xor ROTR b x xor SHR c x] *)
Definition small_sigma (r : Z * Z * Z) (x : Z) : Z :=
  let '(a, b, c) := r in Z.lxor (Z.lxor (rotr a x) (rotr b x)) (Z.shiftr x c).

(** Message schedule, newest word first:
    [W t = sigma1 (W (t-2)) + W (t-7) + sigma0 (W (t-15)) + W (t-16)]. *)
Fixpoint extend (n : nat) (ws : list Z) : list Z :=
  match n with
  | O => ws
  | S k =>
      let w := add (add (small_sigma (sigma1 P) (nth 1 ws 0)) (nth 6 ws 0))
                   (add (small_sigma (sigma0 P) (nth 14 ws 0)) (nth 15 ws 0)) in
      extend k (w :: ws)
  end.

Definition schedule (block : bytes) : list Z :=
  rev (extend (length (K P) - 16) (rev (map be_decode (chunks wbytes block)))).

Definition state : Type := Z * Z * Z * Z * Z * Z * Z * Z.

Definition round (st : state) (kw : Z * Z) : state :=
  let '(a, b, c, d, e, f, g, h) := st in
  let '(k, w) := kw in
  let t1 := add (add (add (add h (big_sigma (Sigma1 P) e)) (Ch e f g)) k) w in
  let t2 := add (big_sigma (Sigma0 P) a) (Maj a b c) in
  (add t1 t2, a, b, c, add d t1, e, f, g).

Definition compress (s : state) (block : bytes) : state :=
  let '(a, b, c, d, e, f, g, h) := s in
  let '(a', b', c', d', e', f', g', h') :=
    fold_left round (combine (K P) (schedule block)) s in
  (add a a', add b b', add c c', add d d', add e e', add f f', add g g', add h h').

Definition init : state :=
  match IV P with
  | [a; b; c; d; e; f; g; h] => (a, b, c, d, e, f, g, h)
  | _ => (0, 0, 0, 0, 0, 0, 0, 0)
  end.

Definition output (s : state) : bytes :=
  let '(a, b, c, d, e, f, g, h) := s in
  firstn (outlen P) (concat (map (be_encode wbytes) [a; b; c; d; e; f; g; h])).

Definition digest (msg : bytes) : bytes :=
  output (fold_left compress
            (chunks (16 * wbytes) (md_pad (16 * wbytes) (2 * wbytes) msg)) init).

End Core.

Definition K256 : list Z :=
  [ 0x428A2F98; 0x71374491; 0xB5C0FBCF; 0xE9B5DBA5; 0x3956C25B; 0x59F111F1;
    0x923F82A4; 0xAB1C5ED5; 0xD807AA98; 0x12835B01; 0x243185BE; 0x550C7DC3;
    0x72BE5D74; 0x80DEB1FE; 0x9BDC06A7; 0xC19BF174; 0xE49B69C1; 0xEFBE4786;
    0x0FC19DC6; 0x240CA1CC; 0x2DE92C6F; 0x4A7484AA; 0x5CB0A9DC; 0x76F988DA;
    0x983E5152; 0xA831C66D; 0xB00327C8; 0xBF597FC7; 0xC6E00BF3; 0xD5A79147;
    0x06CA6351; 0x14292967; 0x27B70A85; 0x2E1B2138; 0x4D2C6DFC; 0x53380D13;
    0x650A7354; 0x766A0ABB; 0x81C2C92E; 0x92722C85; 0xA2BFE8A1; 0xA81A664B;
    0xC24B8B70; 0xC76C51A3; 0xD192E819; 0xD6990624; 0xF40E3585; 0x106AA070;
    0x19A4C116; 0x1E376C08; 0x2748774C; 0x34B0BCB5; 0x391C0CB3; 0x4ED8AA4A;
    0x5B9CCA4F; 0x682E6FF3; 0x748F82EE; 0x78A5636F; 0x84C87814; 0x8CC70208;
    0x90BEFFFA; 0xA4506CEB; 0xBEF9A3F7; 0xC67178F2 ].

Definition IV256 : list Z :=
  [ 0x6A09E667; 0xBB67AE85; 0x3C6EF372; 0xA54FF53A;
    0x510E527F; 0x9B05688C; 0x1F83D9AB; 0x5BE0CD19 ].

Definition K512 : list Z :=
  [ 0x428A2F98D728AE22; 0x7137449123EF65CD; 0xB5C0FBCFEC4D3B2F;
    0xE9B5DBA58189DBBC; 0x3956C25BF348B538; 0x59F111F1B605D019;
    0x923F82A4AF194F9B; 0xAB1C5ED5DA6D8118; 0xD807AA98A3030242;
    0x12835B0145706FBE; 0x243185BE4EE4B28C; 0x550C7DC3D5FFB4E2;
    0x72BE5D74F27B896F; 0x80DEB1FE3B1696B1; 0x9BDC06A725C71235;
    0xC19BF174CF692694; 0xE49B69C19EF14AD2; 0xEFBE4786384F25E3;
    0x0FC19DC68B8CD5B5; 0x240CA1CC77AC9C65; 0x2DE92C6F592B0275;
    0x4A7484AA6EA6E483; 0x5CB0A9DCBD41FBD4; 0x76F988DA831153B5;
    0x983E5152EE66DFAB; 0xA831C66D2DB43210; 0xB00327C898FB213F;
    0xBF597FC7BEEF0EE4; 0xC6E00BF33DA88FC2; 0xD5A79147930AA725;
    0x06CA6351E003826F; 0x142929670A0E6E70; 0x27B70A8546D22FFC;
    0x2E1B21385C26C926; 0x4D2C6DFC5AC42AED; 0x53380D139D95B3DF;
    0x650A73548BAF63DE; 0x766A0ABB3C77B2A8; 0x81C2C92E47EDAEE6;
    0x92722C851482353B; 0xA2BFE8A14CF10364; 0xA81A664BBC423001;
    0xC24B8B70D0F89791; 0xC76C51A30654BE30; 0xD192E819D6EF5218;
    0xD69906245565A910; 0xF40E35855771202A; 0x106AA07032BBD1B8;
    0x19A4C116B8D2D0C8; 0x1E376C085141AB53; 0x2748774CDF8EEB99;
    0x34B0BCB5E19B48A8; 0x391C0CB3C5C95A63; 0x4ED8AA4AE3418ACB;
    0x5B9CCA4F7763E373; 0x682E6FF3D6B2B8A3; 0x748F82EE5DEFB2FC;
    0x78A5636F43172F60; 0x84C87814A1F0AB72; 0x8CC702081A6439EC;
    0x90BEFFFA23631E28; 0xA4506CEBDE82BDE9; 0xBEF9A3F7B2C67915;
    0xC67178F2E372532B; 0xCA273ECEEA26619C; 0xD186B8C721C0C207;
    0xEADA7DD6CDE0EB1E; 0xF57D4F7FEE6ED178; 0x06F067AA72176FBA;
    0x0A637DC5A2C898A6; 0x113F9804BEF90DAE; 0x1B710B35131C471B;
    0x28DB77F523047D84; 0x32CAAB7B40C72493; 0x3C9EBE0A15C9BEBC;
    0x431D67C49C100D4C; 0x4CC5D4BECB3E42B6; 0x597F299CFC657E2A;
    0x5FCB6FAB3AD6FAEC; 0x6C44198C4A475817 ].

Definition IV512 : list Z :=
  [ 0x6A09E667F3BCC908; 0xBB67AE8584CAA73B;
    0x3C6EF372FE94F82B; 0xA54FF53A5F1D36F1;
    0x510E527FADE682D1; 0x9B05688C2B3E6C1F;
    0x1F83D9ABFB41BD6B; 0x5BE0CD19137E2179 ].

Definition IV384 : list Z :=
  [ 0xCBBB9D5DC1059ED8; 0x629A292A367CD507;
    0x9159015A3070DD17; 0x152FECD8F70E5939;
    0x67332667FFC00B31; 0x8EB44A8768581511;
    0xDB0C2E0D64F98FA7; 0x47B5481DBEFA4FA4 ].

Definition sha256_params : params := {|
  wbits := 32; K := K256; IV := IV256;
  Sigma0 := (2, 13, 22); Sigma1 := (6, 11, 25);
  sigma0 := (7, 18, 3); sigma1 := (17, 19, 10);
  outlen := 32
|}.

Definition sha512_params : params := {|
  wbits := 64; K := K512; IV := IV512;
  Sigma0 := (28, 34, 39); Sigma1 := (14, 18, 41);
  sigma0 := (1, 8, 7); sigma1 := (19, 61, 6);
  outlen := 64
|}.

Definition sha384_params : params := {|
  wbits := 64; K := K512; IV := IV384;
  Sigma0 := (28, 34, 39); Sigma1 := (14, 18, 41);
  sigma0 := (1, 8, 7); sigma1 := (19, 61, 6);
  outlen := 48
|}.

End SHA2.

(** *** The digests Node names [sha1], [sha256], [sha384] and [sha512] *)

Inductive Digest := sha1 | sha256 | sha384 | sha512.

Definition hash (d : Digest) : bytes -> bytes :=
  match d with
  | sha1 => SHA1.digest
  | sha256 => SHA2.digest SHA2.sha256_params
  | sha384 => SHA2.digest SHA2.sha384_params
  | sha512 => SHA2.digest SHA2.sha512_params
  end.

(** Block size of the compression function, in bytes. *)
Definition hash_block (d : Digest) : nat :=
  match d with
  | sha1 | sha256 => 64%nat
  | sha384 | sha512 => 128%nat
  end.

(** Digest length, in bytes. *)
Definition hash_len (d : Digest) : nat :=
  match d with
  | sha1 => 20%nat
  | sha256 => 32%nat
  | sha384 => 48%nat
  | sha512 => 64%nat
  end.

(** *** HMAC (RFC 2104)

    The two key pads are computed once, when the key is given. *)
Definition hmac (H : bytes -> bytes) (block : nat) (key : bytes) : bytes -> bytes :=
  let k0 := if (block <? length key)%nat then H key else key in
  let k := k0 ++ alloc (block - length k0) in
  let ipad := map (bxor x36) k in
  let opad := map (bxor x5c) k in
  fun msg => H (opad ++ H (ipad ++ msg)).

(** *** PBKDF2 (RFC 8018) *)
Definition pbkdf2_block (prf : bytes -> bytes) (salt : bytes) (rounds : N) (i : Z) : bytes :=
  let u1 := prf (salt ++ be_encode 4 i) in
  snd (N.iter (N.pred rounds) (fun '(u, t) => let u' := prf u in (u', xor t u')) (u1, u1)).

Definition pbkdf2 (prf : bytes -> bytes) (hlen : nat) (salt : bytes) (rounds : N) (dklen : nat) : bytes :=
  let nblocks := ((dklen + hlen - 1) / hlen)%nat in
  firstn dklen (concat (map (fun i => pbkdf2_block prf salt rounds (Z.of_nat i)) (seq 1 nblocks))).

(** *** The rounds of PBKDF2 with HMAC-SHA1, on chaining values

    A round of [pbkdf2_block] applies HMAC to the 20 bytes of the round
    before. Under a key of at most 64 bytes each of the two hashes of HMAC is
    two compressions, the first of them on a key pad: with the two key pads
    compressed once, a round is two compressions, and what it hashes is the
    five words it computed, followed by the padding of an 84-byte message.
    This is proved equal to the loop of [pbkdf2_block] in Part II, and is what
    the test vector of 25555 rounds is computed with. *)
Module PBKDF2_SHA1_fast.
Import Uint63 SHA1_fast.
#[local] Open Scope uint63_scope.

Definition key_pad (pad : byte) (key : bytes) : bytes :=
  map (bxor pad) (key ++ alloc (64 - length key)).

(** The second block of a hash of 64 + 20 bytes: the 20 bytes, [0x80], zeros,
    and the length 672 in bits. *)
Definition tail_bytes : bytes := x80 :: alloc 35 ++ be_encode 8 672.

Definition tail_block (u : state) : list int :=
  let '(a, b, c, d, e) := u in
  [a; b; c; d; e; 0x80000000; 0; 0; 0; 0; 0; 0; 0; 0; 0; 672].

(** HMAC of the 20 bytes of [u], given the chaining values [inner] and
    [outer] of the two key pads. *)
Definition prf (inner outer u : state) : state :=
  compress_words outer (tail_block (compress_words inner (tail_block u))).

Definition xor5 (s t : state) : state :=
  let '(a, b, c, d, e) := s in
  let '(a', b', c', d', e') := t in
  (a lxor a', b lxor b', c lxor c', d lxor d', e lxor e').

(** One round: the pair is the [(u, t)] of [pbkdf2_block]. *)
Definition step (inner outer : state) (ut : state * state) : state * state :=
  let '(u, t) := ut in
  let u' := prf inner outer u in (u', xor5 t u').

Definition state_eqb (s t : state) : bool :=
  let '(a, b, c, d, e) := s in
  let '(a', b', c', d', e') := t in
  (a =? a') && (b =? b') && (c =? c') && (d =? d') && (e =? e').

Definition pair_eqb (s t : state * state) : bool :=
  state_eqb (fst s) (fst t) && state_eqb (snd s) (snd t).

(** The pairs after [n], [2n], ... [kn] rounds. *)
Fixpoint trace (k : nat) (n : N) (f : state * state -> state * state)
    (s : state * state) : list (state * state) :=
  match k with
  | O => []
  | S k' => let s' := N.iter n f s in s' :: trace k' n f s'
  end.

(** Running the rounds from one checkpoint to the next, [n] at a time: the
    last checkpoint, when every stretch ends on its checkpoint. *)
Fixpoint run (n : N) (f : state * state -> state * state) (s : state * state)
    (checkpoints : list (state * state)) : option (state * state) :=
  match checkpoints with
  | [] => Some s
  | c :: rest => if pair_eqb (N.iter n f s) c then run n f c rest else None
  end.

(** The test vector of src/test/kdf.js: the key pads of "password", the first
    round, and the pairs every 50 rounds of the 25554 that follow. *)
Definition vector_inner : state :=
  Eval vm_compute in compress init (key_pad x36 (bytes_of_string "password")).

Definition vector_outer : state :=
  Eval vm_compute in compress init (key_pad x5c (bytes_of_string "password")).

Definition vector_first : state :=
  Eval vm_compute in
    compress_words vector_outer
      (tail_block (compress vector_inner
         (bytes_of_string "salt" ++ be_encode 4 1 ++ x80 :: alloc 47 ++ be_encode 8 576))).

Definition vector_checkpoints : list (state * state) :=
  Eval vm_compute in
    trace 511 50 (step vector_inner vector_outer) (vector_first, vector_first).

End PBKDF2_SHA1_fast.


(** ** Exceptions and effects

    The code throws [TypeError] and [RangeError] values; [Error] stands for
    whatever else a library or a callback throws. The messages of the errors
    the engine throws are those of Node 16 and later. [Unmodelled] is no
    exception: it ends a run of the model where the code goes on in a way the
    model does not follow (see [inherited]); nothing is stated of such a
    run. *)

Inductive error :=
| TypeError (msg : string)
| RangeError (msg : string)
| Error (msg : string)
| Unmodelled (what : string).

Inductive result (A : Type) :=
| Ok (a : A)
| Err (e : error).
Arguments Ok {A} a.
Arguments Err {A} e.

(** [crypto.randomBytes] reads a stream of bytes; the stream is the only
    state the code has. *)
Definition rng : Type := nat -> byte.

(** What reads the stream and returns: [crypto.randomBytes(n)] for a size it
    accepts, [uuid.v4()]. *)
Definition Draw (A : Type) : Type := rng -> A * rng.

(** An [async function]: it may draw random bytes and it may throw. Awaits
    are sequential, so [async]/[await] is plain sequencing. *)
Definition M (A : Type) : Type := rng -> result (A * rng).

(** A function the caller hands over (the [params] and the [output] of a
    factor, a derive-side factor): an async function as any other. *)
Abbreviation Callback A := (M A).

Definition ret {A} (a : A) : M A := fun g => Ok (a, g).

Definition bind {A B} (c : M A) (k : A -> M B) : M B :=
  fun g =>
    match c g with
    | Ok (a, g') => k a g'
    | Err e => Err e
    end.

Definition throw {A} (e : error) : M A := fun _ => Err e.

Definition call {A} (c : Draw A) : M A := fun g => Ok (c g).

Definition lift {A} (r : result A) : M A :=
  fun g =>
    match r with
    | Ok a => Ok (a, g)
    | Err e => Err e
    end.

(** [if (!cond) throw e] *)
Definition require (cond : bool) (e : error) : M unit :=
  if cond then ret tt else throw e.

Notation "'let*' x := c 'in' k" := (bind c (fun x => k))
  (at level 10, x pattern, c at level 100, k at level 200).

Definition randomBytes (n : nat) : Draw bytes :=
  fun g => (map g (seq 0 n), fun i => g (n + i)%nat).

(** [crypto.randomBytes(size)] for an integer [size]: Node throws a
    [RangeError] with the code ERR_OUT_OF_RANGE for a size that is negative or
    above [2^31 - 1], and draws [size] bytes otherwise (that the buffer can be
    allocated is taken for granted). *)
Definition crypto_randomBytes (size : Z) : M bytes :=
  if (size <? 0) || (2147483647 <? size) then throw (RangeError "ERR_OUT_OF_RANGE")
  else call (randomBytes (Z.to_nat size)).

(** *** HKDF (RFC 5869), as the [@panva/hkdf] package exposes it

    [hkdf(digest, ikm, salt, info, keylen)] rejects an empty [ikm], an [info]
    over 1024 bytes, and a [keylen] that is not in [1 .. 255 * hashlen]. *)

Definition hkdf_extract (d : Digest) (salt ikm : bytes) : bytes :=
  hmac (hash d) (hash_block d) salt ikm.

Fixpoint hkdf_blocks (d : Digest) (prk info : bytes) (n : nat) (i : Z) (prev : bytes) : bytes :=
  match n with
  | O => []
  | S k =>
      let t := hmac (hash d) (hash_block d) prk (prev ++ info ++ [byte_of_Z i]) in
      t ++ hkdf_blocks d prk info k (i + 1) t
  end.

Definition hkdf_expand (d : Digest) (prk info : bytes) (len : nat) : bytes :=
  firstn len (hkdf_blocks d prk info ((len + hash_len d - 1) / hash_len d)%nat 1 []).

Definition hkdf (d : Digest) (ikm salt info : bytes) (keylen : Z) : result bytes :=
  if (length ikm =? 0)%nat then
    Err (TypeError "ikm must be at least one byte in length")
  else if (1024 <? length info)%nat then
    Err (TypeError "info must not contain more than 1024 bytes")
  else if keylen <? 1 then
    Err (TypeError "keylen must be a positive integer")
  else if 255 * Z.of_nat (hash_len d) <? keylen then
    Err (TypeError "keylen too large")
  else
    Ok (hkdf_expand d (hkdf_extract d salt ikm) info (Z.to_nat keylen)).

(** ** JavaScript values

    Options, the fields of a factor and the fields of a material are
    dynamically typed: the code checks their types at run time, or not at
    all. *)

(** A number is an integer, or a number [Number.isInteger] rejects (a
    fraction, [NaN], an infinity). *)
Inductive number :=
| Int (z : Z)
| NonInt.

(** A value the code looks at. [VFunction] is a function where the code does
    not call it; a string is the bytes of its UTF-8 encoding. *)
Inductive value :=
| VUndefined
| VNull
| VBool (b : bool)
| VNumber (n : number)
| VString (s : string)
| VBuffer (b : bytes)
| VArray (l : list value)
| VObject (fields : list (string * value))
| VFunction.

(** A value that may be a function the code calls: [typeof v === 'function']
    or not. *)
Inductive dyn (F : Type) :=
| Fn (f : F)
| NotFn (v : value).
Arguments Fn {F} f.
Arguments NotFn {F} v.

(** A value the code reads properties of: [undefined] and [null] make the
    read throw. A primitive value reads as an object that has none of the
    properties. *)
Inductive maybe (A : Type) :=
| Undefined
| Null
| Obj (a : A).
Arguments Undefined {A}.
Arguments Null {A}.
Arguments Obj {A} a.

(** [x.type] for what [x] may be: the object, or the engine's exception. *)
Definition read {A} (x : maybe A) : M A :=
  match x with
  | Obj a => ret a
  | Undefined => throw (TypeError "Cannot read properties of undefined (reading 'type')")
  | Null => throw (TypeError "Cannot read properties of null (reading 'type')")
  end.

(** What a policy can hold: JSON. *)
Inductive json :=
| JNull
| JBool (b : bool)
| JNumber (z : Z)
| JString (s : string)
| JArray (l : list json)
| JObject (fields : list (string * json)).

(** A JSON object, keys in insertion order; no key occurs twice. *)
Abbreviation object := (list (string * json)).

(** [JSON.parse(JSON.stringify(j))]: a fresh copy of the document. *)
Fixpoint json_clone (j : json) : json :=
  match j with
  | JNull => JNull
  | JBool b => JBool b
  | JNumber z => JNumber z
  | JString s => JString s
  | JArray l => JArray (map json_clone l)
  | JObject fields => JObject (map (fun kv => (fst kv, json_clone (snd kv))) fields)
  end.

Definition object_clone (o : object) : object :=
  map (fun kv => (fst kv, json_clone (snd kv))) o.

(** A JSON document as a value. *)
Fixpoint json_value (j : json) : value :=
  match j with
  | JNull => VNull
  | JBool b => VBool b
  | JNumber z => VNumber (Int z)
  | JString s => VString s
  | JArray l => VArray (map json_value l)
  | JObject fields => VObject (map (fun kv => (fst kv, json_value (snd kv))) fields)
  end.

(** [o.hasOwnProperty(k)] and [o[k]] for a JSON object and a key that
    [Object.prototype] does not have. *)
Definition has_key (k : string) (o : object) : bool :=
  existsb (fun kv => String.eqb (fst kv) k) o.

Definition field (k : string) (o : object) : value :=
  match List.find (fun kv => String.eqb (fst kv) k) o with
  | Some kv => json_value (snd kv)
  | None => VUndefined
  end.

(** [v === s] for a string [s]. *)
Definition is_string (v : value) (s : string) : bool :=
  match v with
  | VString t => String.eqb t s
  | _ => false
  end.

(** [Buffer.isBuffer(v)] *)
Definition is_buffer (v : value) : bool :=
  match v with
  | VBuffer _ => true
  | _ => false
  end.

(** What the HKDF takes for its input keying material: a Uint8Array, or a
    string, which it encodes; anything else is a [TypeError]. *)
Definition hkdf_ikm (v : value) : result bytes :=
  match v with
  | VBuffer b => Ok b
  | VString s => Ok (bytes_of_string s)
  | _ => Err (TypeError "ikm must be an instance of Uint8Array or a string")
  end.

(** ** The KDF engine

    Modelled from the spec: the engine [kdf(input, salt, size, spec)] of
    src/kdf.js, which is not among the sources. Section 4.3 gives the tagged
    union of algorithms; PBKDF2 is written out, and bcrypt, scrypt and argon2
    are the libraries' functions, taken as an interface. *)

Inductive Argon2Variant := argon2i | argon2d | argon2id.

Inductive KdfSpec :=
| Pbkdf2 (rounds : Z) (digest : Digest)
| Bcrypt (rounds : Z)
| Scrypt (cost blocksize parallelism : Z)
| Argon2 (variant : Argon2Variant) (time mem parallelism : Z).

Class KdfEngines := {
  bcrypt_kdf : bytes -> bytes -> Z -> Z -> result bytes;
  scrypt_kdf : bytes -> bytes -> Z -> Z -> Z -> Z -> result bytes;
  argon2_kdf : Argon2Variant -> bytes -> bytes -> Z -> Z -> Z -> Z -> result bytes
}.

Definition kdf `{KdfEngines} (input salt : bytes) (size : Z) (spec : KdfSpec) : result bytes :=
  match spec with
  | Pbkdf2 rounds digest =>
      Ok (pbkdf2 (hmac (hash digest) (hash_block digest) input) (hash_len digest)
                 salt (Z.to_N rounds) (Z.to_nat size))
  | Bcrypt rounds => bcrypt_kdf input salt size rounds
  | Scrypt cost blocksize parallelism =>
      scrypt_kdf input salt size cost blocksize parallelism
  | Argon2 variant time mem parallelism =>
      argon2_kdf variant input salt size time mem parallelism
  end.

(** ** Data model *)

(** A [params] function: its argument [{ key }] is the derived key, and what
    it returns goes into the policy. *)
Abbreviation ParamsFn := (bytes -> Callback object).

(** A setup-side factor, as [setup.key] receives it: an object whose fields
    are yet to be checked; [entropy] is never checked. *)
Record Factor := {
  f_type : value;
  f_id : value;
  f_data : value;
  f_entropy : value;
  f_params : dyn ParamsFn;
  f_output : dyn (Callback value)
}.

(** The first argument of [setup.key]: an array, whose elements may be
    anything, or something that is not an array. *)
Inductive FactorsArg :=
| FactorArray (fs : list (maybe Factor))
| NotArray (v : value).

(** The options of [setup.key]; [None] is a property that is not there. The
    KDF options are read by [kdfSetup] only. *)
Record Options := {
  o_id : option value;
  o_size : option value;
  o_threshold : option value;
  o_salt : option value;
  o_kdf : option value;
  o_pbkdf2rounds : option value;
  o_pbkdf2digest : option value;
  o_bcryptrounds : option value;
  o_scryptcost : option value;
  o_scryptblocksize : option value;
  o_scryptparallelism : option value;
  o_argon2time : option value;
  o_argon2mem : option value;
  o_argon2parallelism : option value
}.

Record PolicyFactor := {
  pf_id : string;
  pf_type : string;
  pf_pad : string;
  pf_params : object
}.

Record Policy := {
  p_schema : string;
  p_id : string;
  p_size : Z;
  p_threshold : Z;
  p_salt : string;
  p_kdf : KdfSpec;
  p_factors : list PolicyFactor
}.

(** [entropyBits.real]: the number of bits where the code's arithmetic on
    numbers is exact, [NaN], or a number this model does not determine (the
    entropies are fractions, or their sum leaves the integers a number holds
    exactly). *)
Inductive report :=
| Bits (z : Z)
| NaN
| Undetermined.

(** The class MFKDFDerivedKey: [new MFKDFDerivedKey(policy, key, secret,
    shares, outputs)]; [derive.key] passes no [outputs], and only
    [setup.key] sets [entropyBits = { theoretical, real }]. [dk_outputs] holds
    the own properties of [outputs]. *)
Record DerivedKey := {
  dk_policy : Policy;
  dk_key : bytes;
  dk_secret : bytes;
  dk_shares : list bytes;
  dk_outputs : option (gmap string value);
  dk_entropyBits : option (Z * report)
}.

(** What [derive.key] reads of the value a derive-side factor returns. *)
Record Material := {
  m_type : value;
  m_data : value;
  m_params : dyn ParamsFn;
  m_output : dyn (Callback value)
}.

(** A derive-side factor: called with the params the policy stores, it
    returns a material, or something else, or throws. *)
Abbreviation FactorFn := (object -> Callback (maybe Material)).

(** ** The modules that are not among the sources

    [share], [combine] and [recover] of src/secrets, and [kdf] of
    src/setup/kdf.js (called [kdfSetup] where it is used), are taken as an
    interface; Part II states the contract section 4.2 of the spec gives
    them. [combine] and [recover] get the array [shares] of the derivation,
    whatever its elements are. *)

Class Secrets := {
  share : bytes -> Z -> Z -> M (list bytes);
  combine : list value -> Z -> Z -> result bytes;
  recover : list value -> Z -> Z -> result (list bytes)
}.

Class KdfSetup := {
  kdfSetup : Options -> result KdfSpec
}.

(** The password-strength estimator of the [zxcvbn] package. *)
Class Zxcvbn := {
  zxcvbn : string -> value
}.

(** Modelled from the spec: the defaults module ([defaults.key]) is not among
    the sources. Section 6 gives [size = 32] and the KDF defaults, which
    src/config.js has too; [id], [threshold] and [salt] have no default
    property. *)
Definition defaults_key : Options := {|
  o_id := None;
  o_size := Some (VNumber (Int 32));
  o_threshold := None;
  o_salt := None;
  o_kdf := Some (VString "argon2id");
  o_pbkdf2rounds := Some (VNumber (Int 310000));
  o_pbkdf2digest := Some (VString "sha256");
  o_bcryptrounds := Some (VNumber (Int 10));
  o_scryptcost := Some (VNumber (Int 16384));
  o_scryptblocksize := Some (VNumber (Int 8));
  o_scryptparallelism := Some (VNumber (Int 1));
  o_argon2time := Some (VNumber (Int 2));
  o_argon2mem := Some (VNumber (Int 24576));
  o_argon2parallelism := Some (VNumber (Int 1))
|}.

(** One property of [Object.assign(target, source)]: the source's, when it
    has one. *)
Definition assign_prop (target source : option value) : option value :=
  match source with
  | Some v => Some v
  | None => target
  end.

Definition assign (target source : Options) : Options := {|
  o_id := assign_prop (o_id target) (o_id source);
  o_size := assign_prop (o_size target) (o_size source);
  o_threshold := assign_prop (o_threshold target) (o_threshold source);
  o_salt := assign_prop (o_salt target) (o_salt source);
  o_kdf := assign_prop (o_kdf target) (o_kdf source);
  o_pbkdf2rounds := assign_prop (o_pbkdf2rounds target) (o_pbkdf2rounds source);
  o_pbkdf2digest := assign_prop (o_pbkdf2digest target) (o_pbkdf2digest source);
  o_bcryptrounds := assign_prop (o_bcryptrounds target) (o_bcryptrounds source);
  o_scryptcost := assign_prop (o_scryptcost target) (o_scryptcost source);
  o_scryptblocksize := assign_prop (o_scryptblocksize target) (o_scryptblocksize source);
  o_scryptparallelism := assign_prop (o_scryptparallelism target) (o_scryptparallelism source);
  o_argon2time := assign_prop (o_argon2time target) (o_argon2time source);
  o_argon2mem := assign_prop (o_argon2mem target) (o_argon2mem source);
  o_argon2parallelism := assign_prop (o_argon2parallelism target) (o_argon2parallelism source)
|}.

(** Reading a property: [undefined] when it is not there. *)
Definition prop (p : option value) : value :=
  match p with
  | Some v => v
  | None => VUndefined
  end.

Definition is_undefined (v : value) : bool :=
  match v with
  | VUndefined => true
  | _ => false
  end.

(** [s.length === 0] *)
Definition is_empty (s : string) : bool :=
  match s with
  | EmptyString => true
  | _ => false
  end.

(** The [uuid] package's [v4()]: sixteen random bytes with the version and
    variant bits set, printed 8-4-4-4-12. *)
Definition uuidv4 : Draw string :=
  fun g =>
    let '(r, g') := randomBytes 16 g in
    let r6 := byte_of_Z (Z.lor (Z.land (byte_to_Z (nth 6 r x00)) 15) 64) in
    let r8 := byte_of_Z (Z.lor (Z.land (byte_to_Z (nth 8 r x00)) 63) 128) in
    let h := fun a b => hex (firstn (b - a) (skipn a r)) in
    ((h 0 4 ++ "-" ++ h 4 6 ++ "-" ++ hex [r6] ++ h 7 8 ++ "-"
        ++ hex [r8] ++ h 9 10 ++ "-" ++ h 10 16)%string%nat, g').

(** ** Setup: src/setup/key.js *)

(** A factor that passed the checks of lines 99-114. *)
Record CheckedFactor := {
  cf_type : string;
  cf_id : string;
  cf_data : bytes;
  cf_entropy : value;
  cf_params : ParamsFn;
  cf_output : dyn (Callback value)
}.

(** Lines 99-114: the checks on one element of [factors], in the order of
    the code. Line 101 reads [factor.type], which throws for an element that
    is [undefined] or [null]. *)
Definition check_factor (element : maybe Factor) : result CheckedFactor :=
  match element with
  | Undefined => Err (TypeError "Cannot read properties of undefined (reading 'type')")
  | Null => Err (TypeError "Cannot read properties of null (reading 'type')")
  | Obj factor =>
  match f_type factor with
  | VString type =>
      if is_empty type then Err (RangeError "factor type must not be empty") else
      match f_id factor with
      | VString id =>
          if is_empty id then Err (RangeError "factor id must not be empty") else
          match f_data factor with
          | VBuffer data =>
              if (length data =? 0)%nat then
                Err (RangeError "factor data must not be empty")
              else
                match f_params factor with
                | Fn params =>
                    Ok {| cf_type := type; cf_id := id; cf_data := data;
                          cf_entropy := f_entropy factor; cf_params := params;
                          cf_output := f_output factor |}
                | NotFn _ => Err (TypeError "factor params must be a function")
                end
          | _ => Err (TypeError "factor data must be a buffer")
          end
      | _ => Err (TypeError "factor id must be a string")
      end
  | _ => Err (TypeError "factor type must be a string")
  end
  end.

(** The loop of line 99: the first element that fails a check throws. *)
Fixpoint check_factors (factors : list (maybe Factor)) : result (list CheckedFactor) :=
  match factors with
  | [] => Ok []
  | factor :: rest =>
      match check_factor factor with
      | Err e => Err e
      | Ok c =>
          match check_factors rest with
          | Err e => Err e
          | Ok cs => Ok (c :: cs)
          end
      end
  end.

(** Lines 116-118: [new Set(ids).size !== ids.length]. *)
Definition ids_unique (ids : list string) : bool :=
  (size (list_to_set ids : gset string) =? length ids)%nat.

(** Lines 138-139 of the setup and 54-55 of the derivation:
<<
    if (Buffer.byteLength(x) > policy.size)
      stretched = Buffer.concat([Buffer.alloc(Buffer.byteLength(x) - policy.size), stretched])
>>
    where [x] ([len] bytes long) is the buffer [stretched] is xored with. *)
Definition left_pad (stretched : bytes) (size : Z) (len : nat) : bytes :=
  if size <? Z.of_nat len
  then alloc (len - Z.to_nat size) ++ stretched
  else stretched.

(** Lines 133-149: one turn of the loop over the factors. [shares[index]] is
    [undefined] past the end of [shares], and [Buffer.byteLength(undefined)]
    throws. *)
Definition setup_factor (key : bytes) (size : Z) (shares : list bytes)
    (index : nat) (factor : CheckedFactor) : M (PolicyFactor * value) :=
  let* stretched := lift (hkdf sha512 (cf_data factor) [] [] size) in
  let* share :=
    match shares !! index with
    | Some share => ret share
    | None => throw (TypeError "ERR_INVALID_ARG_TYPE")
    end in
  let stretched := left_pad stretched size (length share) in
  let pad := xor share stretched in
  let* params := cf_params factor key in
  let* output :=
    match cf_output factor with
    | Fn output => output
    | NotFn _ => throw (TypeError "factor.output is not a function")
    end in
  ret ({| pf_id := cf_id factor; pf_type := cf_type factor;
          pf_pad := base64_encode pad; pf_params := params |}, output).

(** Line 143, [outputs[factor.id] = ...] on the object [outputs = {}]: the
    assignment makes an own property, but for the key ['__proto__'], which
    [Object.prototype] has a setter for. The setter makes no own property: it
    drops a primitive value, and takes [null] or an object for the prototype
    of [outputs]. Without a prototype the later assignments make own
    properties as before; with another object for the prototype they depend
    on its properties, and the model stops. *)
Definition set_output (id : string) (output : value) (outputs : gmap string value)
    : M (gmap string value) :=
  if String.eqb id "__proto__" then
    match output with
    | VUndefined | VNull | VBool _ | VNumber _ | VString _ => ret outputs
    | _ => throw (Unmodelled "outputs with an object for its prototype")
    end
  else ret (<[id := output]> outputs).

(** What the loop builds: [policy.factors], [outputs], [theoreticalEntropy]
    and [realEntropy]. *)
Record SetupLoop := {
  sl_factors : list PolicyFactor;
  sl_outputs : gmap string value;
  sl_theoretical : list Z;
  sl_real : list value
}.

Definition setup_loop_start : SetupLoop :=
  {| sl_factors := []; sl_outputs := ∅; sl_theoretical := []; sl_real := [] |}.

(** Lines 131-150. *)
Fixpoint setup_factors (key : bytes) (size : Z) (shares : list bytes)
    (index : nat) (factors : list CheckedFactor) (st : SetupLoop) : M SetupLoop :=
  match factors with
  | [] => ret st
  | factor :: rest =>
      let* step := setup_factor key size shares index factor in
      let* outputs := set_output (cf_id factor) (snd step) (sl_outputs st) in
      setup_factors key size shares (S index) rest
        {| sl_factors := sl_factors st ++ [fst step];
           sl_outputs := outputs;
           sl_theoretical :=
             sl_theoretical st ++ [Z.of_nat (length (cf_data factor)) * 8];
           sl_real := sl_real st ++ [cf_entropy factor] |}
  end.

(** Lines 154-155: [theoreticalEntropy.sort((a, b) => a - b).slice(0,
    threshold).reduce((a, b) => a + b, 0)], on byte lengths times 8. *)
Definition entropy_sum (entropy : list Z) (threshold : Z) : Z :=
  fold_left Z.add (take (Z.to_nat threshold) (merge_sort Z.le entropy)) 0.

(** Lines 157-158, the same on [realEntropy], whose elements are what the
    factors have for [entropy]. The model follows the code on integers and on
    [undefined]: the sort puts the integers in order and every [undefined]
    after them; a sum of integers is exact up to [2^53]; a number plus
    [undefined] is [NaN]. For other entropies (fractions, strings) the report
    is left [Undetermined]. *)
Definition entropy_modelled (v : value) : bool :=
  match v with
  | VNumber (Int _) | VUndefined => true
  | _ => false
  end.

Definition entropy_integers (entropy : list value) : list Z :=
  omap (fun v => match v with VNumber (Int z) => Some z | _ => None end) entropy.

Definition entropy_sort (entropy : list value) : list value :=
  map (fun z => VNumber (Int z)) (merge_sort Z.le (entropy_integers entropy))
  ++ List.filter is_undefined entropy.

Definition entropy_add (a : report) (b : value) : report :=
  match a, b with
  | Bits x, VNumber (Int y) =>
      if Z.abs (x + y) <=? 2 ^ 53 then Bits (x + y) else Undetermined
  | _, VUndefined => NaN
  | NaN, VNumber _ => NaN
  | _, _ => Undetermined
  end.

Definition entropy_real (entropy : list value) (threshold : Z) : report :=
  if forallb entropy_modelled entropy
  then fold_left entropy_add (take (Z.to_nat threshold) (entropy_sort entropy)) (Bits 0)
  else Undetermined.

Definition with_id_threshold_salt (options : Options) (id threshold salt : value) : Options := {|
  o_id := Some id;
  o_size := o_size options;
  o_threshold := Some threshold;
  o_salt := Some salt;
  o_kdf := o_kdf options;
  o_pbkdf2rounds := o_pbkdf2rounds options;
  o_pbkdf2digest := o_pbkdf2digest options;
  o_bcryptrounds := o_bcryptrounds options;
  o_scryptcost := o_scryptcost options;
  o_scryptblocksize := o_scryptblocksize options;
  o_scryptparallelism := o_scryptparallelism options;
  o_argon2time := o_argon2time options;
  o_argon2mem := o_argon2mem options;
  o_argon2parallelism := o_argon2parallelism options
|}.

(** What the checks of lines 63-118 establish and put in [policy]. *)
Record SetupArgs := {
  sa_factors : list CheckedFactor;
  sa_id : string;
  sa_size : Z;
  sa_threshold : Z;
  sa_salt : string;
  sa_kdf : KdfSpec
}.

(** Lines 63-118 of [setup.key]: the checks of the arguments, with the
    defaults filled in. *)
Definition setup_checks `{KdfSetup} (factors : FactorsArg) (options : Options)
    : M SetupArgs :=
  match factors with
  | NotArray _ => throw (TypeError "factors must be an array")
  | FactorArray factors =>
  let* _ := require (negb (length factors =? 0)%nat)
              (RangeError "factors must not be empty") in
  let options := assign defaults_key options in
  (* id *)
  let* id_value :=
    if is_undefined (prop (o_id options))
    then let* u := call uuidv4 in ret (VString u)
    else ret (prop (o_id options)) in
  let* id :=
    match id_value with
    | VString s => ret s
    | _ => throw (TypeError "id must be a string")
    end in
  let* _ := require (negb (is_empty id)) (RangeError "id must not be empty") in
  (* size *)
  let* size :=
    match prop (o_size options) with
    | VNumber (Int z) => ret z
    | _ => throw (TypeError "key size must be an integer")
    end in
  let* _ := require (0 <? size) (RangeError "key size must be positive") in
  (* threshold *)
  let threshold_value :=
    if is_undefined (prop (o_threshold options))
    then VNumber (Int (Z.of_nat (length factors)))
    else prop (o_threshold options) in
  let* threshold :=
    match threshold_value with
    | VNumber (Int z) => ret z
    | _ => throw (TypeError "threshold must be an integer")
    end in
  let* _ := require (0 <? threshold) (RangeError "threshold must be positive") in
  let* _ := require (threshold <=? Z.of_nat (length factors))
              (RangeError "threshold cannot be greater than number of factors") in
  (* salt *)
  let* salt_value :=
    if is_undefined (prop (o_salt options))
    then let* r := crypto_randomBytes size in ret (VBuffer r)
    else ret (prop (o_salt options)) in
  let* salt :=
    match salt_value with
    | VBuffer b => ret b
    | _ => throw (TypeError "salt must be a buffer")
    end in
  (* kdf *)
  let* policy_kdf :=
    lift (kdfSetup (with_id_threshold_salt options id_value threshold_value salt_value)) in
  (* check factor correctness *)
  let* checked := lift (check_factors factors) in
  (* id uniqueness *)
  let* _ := require (ids_unique (map cf_id checked))
              (RangeError "factor ids must be unique") in
  ret {| sa_factors := checked; sa_id := id; sa_size := size;
         sa_threshold := threshold; sa_salt := base64_encode salt;
         sa_kdf := policy_kdf |}
  end.

(** Lines 120-162 of [setup.key]: the secret, the key, the shares, and the
    loop over the factors. *)
Definition setup_generate `{Secrets} `{KdfEngines} (args : SetupArgs) : M DerivedKey :=
  let size := sa_size args in
  let threshold := sa_threshold args in
  let factors := sa_factors args in
  (* generate secret key material *)
  let* secret := crypto_randomBytes size in
  let* key := lift (kdf secret (base64_decode (sa_salt args)) size (sa_kdf args)) in
  let* shares := share secret threshold (Z.of_nat (length factors)) in
  (* process factors *)
  let* st := setup_factors key size shares 0 factors setup_loop_start in
  let policy :=
    {| p_schema := "https://mfkdf.com/schema/v1.0.0/policy.json";
       p_id := sa_id args; p_size := size; p_threshold := threshold;
       p_salt := sa_salt args; p_kdf := sa_kdf args;
       p_factors := sl_factors st |} in
  let theoretical := entropy_sum (sl_theoretical st) threshold in
  let real := entropy_real (sl_real st) threshold in
  ret {| dk_policy := policy; dk_key := key; dk_secret := secret;
         dk_shares := shares; dk_outputs := Some (sl_outputs st);
         dk_entropyBits := Some (theoretical, real) |}.

(** Lines 62-163: [setup.key(factors, options)]. *)
Definition setup_key `{Secrets} `{KdfSetup} `{KdfEngines}
    (factors : FactorsArg) (options : Options) : M DerivedKey :=
  let* args := setup_checks factors options in
  setup_generate args.

(** ** Derive: src/derive/key.js *)

(** Modelled from the spec: the schema site/schema/v1.0.0/policy.json that Ajv
    checks the policy against is not among the sources. Section 6 gives it;
    the types of the fields are those of [Policy], which leaves
    [size : integer > 0] and [threshold : integer > 0] to check. *)
Definition policy_valid (policy : Policy) : bool :=
  (0 <? p_size policy) && (0 <? p_threshold policy).

(** *** The factor map

    The second argument of [derive.key] is a plain object (an object
    literal): [gmap string (dyn FactorFn)] holds its own properties, and
    [factors[id]] for an [id] that is not among them is the property of
    [Object.prototype] with this name, if there is one. *)

(** The names of the functions a plain object inherits. ([Object.prototype]
    has one more property, the accessor [__proto__], whose value is an
    object.) *)
Definition prototype_functions : list string :=
  [ "constructor"; "__defineGetter__"; "__defineSetter__"; "hasOwnProperty";
    "__lookupGetter__"; "__lookupSetter__"; "isPrototypeOf";
    "propertyIsEnumerable"; "toString"; "valueOf"; "toLocaleString" ]%string.

Definition prototype_function (id : string) : bool :=
  existsb (String.eqb id) prototype_functions.

(** A primitive value as a material: it has none of the properties. *)
Definition primitive : Material :=
  {| m_type := VUndefined; m_data := VUndefined;
     m_params := NotFn VUndefined; m_output := NotFn VUndefined |}.

(** [factors[k]] as a value that is looked at, for a key [k] that
    [Object.prototype] does not have. *)
Definition own_value (factors : gmap string (dyn FactorFn)) (k : string) : value :=
  match factors !! k with
  | Some (NotFn v) => v
  | Some (Fn _) => VFunction
  | None => VUndefined
  end.

(** [ToPropertyKey(params)], for what it throws: a JSON object is turned into
    the string its [toString] gives, and an own property [toString], which is
    no function, leaves [valueOf], which gives no primitive. *)
Definition to_property_key (params : object) : M unit :=
  if has_key "toString" params
  then throw (TypeError "Cannot convert object to primitive value")
  else ret tt.

(** [await factors[id](params)] for a function [factors] inherits:
    - [constructor] is [Object], which returns the object [params];
    - [toString] returns a string and [isPrototypeOf] a boolean;
    - [toLocaleString] calls [this.toString()];
    - [valueOf] returns [factors] itself, which [await] takes for a promise
      when it has a function [then];
    - [hasOwnProperty] and [propertyIsEnumerable] turn [params] into a key
      and return a boolean, [__lookupGetter__] and [__lookupSetter__] do the
      same and return [undefined];
    - [__defineGetter__] and [__defineSetter__] throw for their second
      argument, which is missing.
    Where an own function of [factors] gets called in another way than with
    the params of a slot, the model stops. *)
Definition inherited (factors : gmap string (dyn FactorFn)) (id : string)
    : option FactorFn :=
  if String.eqb id "constructor" then
    Some (fun params =>
            ret (Obj {| m_type := field "type" params;
                        m_data := field "data" params;
                        m_params := NotFn (field "params" params);
                        m_output := NotFn (field "output" params) |}))
  else if String.eqb id "toString" || String.eqb id "isPrototypeOf" then
    Some (fun _ => ret (Obj primitive))
  else if String.eqb id "toLocaleString" then
    Some (fun _ =>
            match factors !! "toString"%string with
            | Some (Fn _) => throw (Unmodelled "an own toString called with no argument")
            | Some (NotFn _) => throw (TypeError "this.toString is not a function")
            | None => ret (Obj primitive)
            end)
  else if String.eqb id "valueOf" then
    Some (fun _ =>
            match factors !! "then"%string with
            | Some (Fn _) => throw (Unmodelled "await of an object with a function then")
            | _ =>
                ret (Obj {| m_type := own_value factors "type";
                            m_data := own_value factors "data";
                            m_params :=
                              match factors !! "params"%string with
                              | Some (Fn _) =>
                                  Fn (fun _ => throw (Unmodelled
                                        "an own function called with { key }"))
                              | Some (NotFn v) => NotFn v
                              | None => NotFn VUndefined
                              end;
                            m_output := NotFn (own_value factors "output") |})
            end)
  else if String.eqb id "hasOwnProperty" || String.eqb id "propertyIsEnumerable" then
    Some (fun params => let* _ := to_property_key params in ret (Obj primitive))
  else if String.eqb id "__lookupGetter__" || String.eqb id "__lookupSetter__" then
    Some (fun params => let* _ := to_property_key params in ret Undefined)
  else if String.eqb id "__defineGetter__" then
    Some (fun _ => throw (TypeError "Object.prototype.__defineGetter__: Expecting function"))
  else if String.eqb id "__defineSetter__" then
    Some (fun _ => throw (TypeError "Object.prototype.__defineSetter__: Expecting function"))
  else None.

(** Line 44: the function [factors[factor.id]] is, when it is one. *)
Definition factor_function (factors : gmap string (dyn FactorFn)) (id : string)
    : option FactorFn :=
  match factors !! id with
  | Some (Fn produce) => Some produce
  | Some (NotFn _) => None
  | None => inherited factors id
  end.

Definition FactorTypeMismatch : error :=
  TypeError "wrong factor material function used for this factor type".

(** Lines 44-65: one turn of the loop over [policy.factors]. It yields the
    share and the entry of [newFactors]; both are [null] when [factors] has no
    function under the factor's id. *)
Definition derive_factor (size : Z) (factors : gmap string (dyn FactorFn))
    (factor : PolicyFactor) : M (value * dyn ParamsFn) :=
  match factor_function factors (pf_id factor) with
  | Some produce =>
      let* returned := produce (pf_params factor) in
      let* material := read returned in
      let* share :=
        if is_string (m_type material) "persisted" then ret (m_data material)
        else if negb (is_string (m_type material) (pf_type factor)) then
          throw FactorTypeMismatch
        else
          let pad := base64_decode (pf_pad factor) in
          let* ikm := lift (hkdf_ikm (m_data material)) in
          let* stretched := lift (hkdf sha512 ikm [] [] size) in
          let stretched := left_pad stretched size (length pad) in
          ret (VBuffer (xor pad stretched)) in
      ret (share, m_params material)
  | None => ret (VNull, NotFn VNull)
  end.

(** Lines 43-66. *)
Fixpoint derive_factors (size : Z) (factors : gmap string (dyn FactorFn))
    (policy_factors : list PolicyFactor)
    (shares : list value) (newFactors : list (dyn ParamsFn))
    : M (list value * list (dyn ParamsFn)) :=
  match policy_factors with
  | [] => ret (shares, newFactors)
  | factor :: rest =>
      let* step := derive_factor size factors factor in
      derive_factors size factors rest (shares ++ [fst step]) (newFactors ++ [snd step])
  end.

(** [shares.filter(x => Buffer.isBuffer(x)).length] *)
Definition count_buffers (shares : list value) : nat :=
  length (List.filter is_buffer shares).

Definition set_params (factor : PolicyFactor) (params : object) : PolicyFactor :=
  {| pf_id := pf_id factor; pf_type := pf_type factor; pf_pad := pf_pad factor;
     pf_params := params |}.

(** Lines 75-79: the entries of [newFactors] that are functions rewrite the
    params of the factor at their index. *)
Fixpoint rotate (key : bytes) (index : nat) (newFactors : list (dyn ParamsFn))
    (policy_factors : list PolicyFactor) : M (list PolicyFactor) :=
  match newFactors with
  | [] => ret policy_factors
  | Fn factor :: rest =>
      let* params := factor key in
      match policy_factors !! index with
      | Some pf =>
          rotate key (S index) rest (<[index := set_params pf params]> policy_factors)
      | None => throw (TypeError "Cannot set properties of undefined")
      end
  | NotFn _ :: rest => rotate key (S index) rest policy_factors
  end.

(** Line 73: [JSON.parse(JSON.stringify(policy))]. *)
Definition policy_factor_clone (factor : PolicyFactor) : PolicyFactor :=
  {| pf_id := pf_id factor; pf_type := pf_type factor; pf_pad := pf_pad factor;
     pf_params := object_clone (pf_params factor) |}.

Definition with_factors (policy : Policy) (factors : list PolicyFactor) : Policy :=
  {| p_schema := p_schema policy; p_id := p_id policy; p_size := p_size policy;
     p_threshold := p_threshold policy; p_salt := p_salt policy;
     p_kdf := p_kdf policy; p_factors := factors |}.

Definition policy_clone (policy : Policy) : Policy :=
  with_factors policy (map policy_factor_clone (p_factors policy)).

Definition InsufficientShares : error :=
  RangeError "insufficient factors provided to derive key".

Definition InvalidPolicy : error := TypeError "invalid key policy".

(** Lines 34-84: [derive.key(policy, factors)]. *)
Definition derive_key `{Secrets} `{KdfEngines}
    (policy : Policy) (factors : gmap string (dyn FactorFn)) : M DerivedKey :=
  let* _ := require (policy_valid policy) (TypeError "invalid key policy") in
  let* _ := require (negb (Z.of_nat (size factors) <? p_threshold policy))
              (RangeError "insufficient factors provided to derive key") in
  let* loop := derive_factors (p_size policy) factors (p_factors policy) [] [] in
  let shares := fst loop in
  let newFactors := snd loop in
  let* _ := require (negb (Z.of_nat (count_buffers shares) <? p_threshold policy))
              (RangeError "insufficient factors provided to derive key") in
  let n := Z.of_nat (length (p_factors policy)) in
  let* secret := lift (combine shares (p_threshold policy) n) in
  let* key := lift (kdf secret (base64_decode (p_salt policy)) (p_size policy)
                        (p_kdf policy)) in
  let newPolicy := policy_clone policy in
  let* rotated := rotate key 0 newFactors (p_factors newPolicy) in
  let* originalShares := lift (recover shares (p_threshold policy) n) in
  ret {| dk_policy := with_factors newPolicy rotated; dk_key := key;
         dk_secret := secret; dk_shares := originalShares;
         dk_outputs := None; dk_entropyBits := None |}.

(** ** Factors *)

(** src/setup/factors/hmacsha1.js. The defaults module is not among the
    sources; the default id is the one the function's documentation gives,
    ['hmacsha1']. *)
Record HmacSha1Options := {
  ho_id : option value;
  ho_secret : option value
}.

Definition hmacsha1_params (secret : bytes) : ParamsFn :=
  fun _ =>
    let* challenge := call (randomBytes 64) in
    let response := hmac (hash sha1) (hash_block sha1) secret challenge in
    let pad := xor (firstn 20 response) secret in
    ret [("challenge", JString (hex challenge)); ("pad", JString (hex pad))]%string.

Definition hmacsha1 (options : HmacSha1Options) : M Factor :=
  let id_value := prop (assign_prop (Some (VString "hmacsha1")) (ho_id options)) in
  let* id :=
    match id_value with
    | VString s => ret s
    | _ => throw (TypeError "id must be a string")
    end in
  let* _ := require (negb (is_empty id)) (RangeError "id cannot be empty") in
  let* secret_value :=
    if is_undefined (prop (ho_secret options))
    then let* r := call (randomBytes 20) in ret (VBuffer r)
    else ret (prop (ho_secret options)) in
  let* secret :=
    match secret_value with
    | VBuffer b => ret b
    | _ => throw (TypeError "secret must be a buffer")
    end in
  let* _ := require (length secret =? 20)%nat (RangeError "secret must be 20 bytes") in
  ret {| f_type := VString "hmacsha1";
         f_id := VString id;
         f_data := VBuffer secret;
         f_entropy := VNumber (Int 160);
         f_params := Fn (hmacsha1_params secret);
         f_output := Fn (ret (VObject [("secret"%string, VBuffer secret)])) |}.

(** src/derive/factors/qrcode.js *)
Definition derive_qrcode `{Zxcvbn} (username salt : value) : result FactorFn :=
  match username with
  | VString username =>
      if is_empty username then Err (RangeError "username cannot be empty") else
      match salt with
      | VString salt =>
          if is_empty salt then Err (RangeError "salt cannot be empty") else
          let username := (username ++ salt)%string in
          let strength := zxcvbn username in
          Ok (fun params =>
                ret (Obj {| m_type := VString "qrcode";
                            m_data := VBuffer (bytes_of_string username);
                            m_params := Fn (fun _ => ret params);
                            m_output :=
                              Fn (ret (VObject [("strength"%string, strength)])) |}))
      | _ => Err (TypeError "salt must be a string")
      end
  | _ => Err (TypeError "username must be a string")
  end.

(** ** Notions the statements of Part II use *)




(** The errors the setup throws for its arguments in lines 63-118 (the spec's
    InvalidArgument): those of its checks, Node's for a size that
    [crypto.randomBytes] refuses, and the engine's for an element of
    [factors] that is [undefined] or [null]. *)
Definition setup_argument_errors : list error :=
  [ TypeError "factors must be an array";
    RangeError "factors must not be empty";
    TypeError "id must be a string";
    RangeError "id must not be empty";
    TypeError "key size must be an integer";
    RangeError "key size must be positive";
    TypeError "threshold must be an integer";
    RangeError "threshold must be positive";
    RangeError "threshold cannot be greater than number of factors";
    RangeError "ERR_OUT_OF_RANGE";
    TypeError "salt must be a buffer";
    TypeError "Cannot read properties of undefined (reading 'type')";
    TypeError "Cannot read properties of null (reading 'type')";
    TypeError "factor type must be a string";
    RangeError "factor type must not be empty";
    TypeError "factor id must be a string";
    RangeError "factor id must not be empty";
    TypeError "factor data must be a buffer";
    RangeError "factor data must not be empty";
    TypeError "factor params must be a function";
    RangeError "factor ids must be unique" ].

Definition InvalidArgument (e : error) : Prop := In e setup_argument_errors.

(** A factor with a non-empty string [type] and [id], a non-empty Buffer
    [data] and a function [params]. *)
Definition factor_well_formed (factor : Factor) : Prop :=
  (exists type, f_type factor = VString type /\ type <> EmptyString)
  /\ (exists id, f_id factor = VString id /\ id <> EmptyString)
  /\ (exists data, f_data factor = VBuffer data /\ data <> [])
  /\ (exists params, f_params factor = Fn params).

(** The size the setup uses: the option, or the default when the options
    have none. *)
Definition effective_size (options : Options) : value :=
  prop (o_size (assign defaults_key options)).

(** The threshold the setup uses: the option, or the number of factors when
    the option is omitted. *)
Definition effective_threshold (options : Options) (n : nat) : value :=
  if is_undefined (prop (o_threshold (assign defaults_key options)))
  then VNumber (Int (Z.of_nat n))
  else prop (o_threshold (assign defaults_key options)).

(** What the setup requires of its factors, their ids, the size and the
    threshold. *)
Definition setup_arguments_ok (factors : FactorsArg) (options : Options) : Prop :=
  exists fs,
    factors = FactorArray (map Obj fs)
    /\ fs <> []
    /\ Forall factor_well_formed fs
    /\ NoDup (map f_id fs)
    /\ (exists size, effective_size options = VNumber (Int size) /\ 0 < size)
    /\ (exists threshold,
          effective_threshold options (length fs) = VNumber (Int threshold)
          /\ 1 <= threshold <= Z.of_nat (length fs)).


(** [s] is the sum of the [t] smallest values of [xs]: [xs] splits in [t]
    chosen values and the rest, no chosen value is above a value of the rest,
    and [s] is the sum of the chosen ones. *)
Definition sum_of_smallest (t : nat) (xs : list Z) (s : Z) : Prop :=
  exists chosen rest,
    xs ≡ₚ chosen ++ rest
    /\ length chosen = t
    /\ (forall c r, c ∈ chosen -> r ∈ rest -> c <= r)
    /\ s = foldr Z.add 0 chosen.









(** What the rotation does to one factor of the policy, given the entry of
    [newFactors] at its index (if any). *)
Definition rotated (key : bytes) (entry : option (dyn ParamsFn))
    (factor factor' : PolicyFactor) : Prop :=
  pf_id factor' = pf_id factor
  /\ pf_type factor' = pf_type factor
  /\ pf_pad factor' = pf_pad factor
  /\ match entry with
     | Some (Fn f) => exists g g', f key g = Ok (pf_params factor', g')
     | _ => pf_params factor' = pf_params factor
     end.

(** ** The two SHA-1

    A machine integer [i] represents the word [z] when its value is [z] and
    [z] fits 32 bits. *)

Definition in32 (z : Z) : Prop := 0 <= z < 2 ^ 32.

Definition rep (z : Z) (i : int) : Prop := Uint63.to_Z i = z /\ in32 z.

(** The five words of a chaining value. *)
Definition rep_state (s : SHA1.state) (t : SHA1_fast.state) : Prop :=
  let '(a, b, c, d, e) := s in
  let '(i, j, k, l, m) := t in
  rep a i /\ rep b j /\ rep c k /\ rep d l /\ rep e m.

(** A chaining value of five 32-bit words. *)
Definition words32 (s : SHA1_fast.state) : Prop :=
  let '(a, b, c, d, e) := s in
  in32 (Uint63.to_Z a) /\ in32 (Uint63.to_Z b) /\ in32 (Uint63.to_Z c)
  /\ in32 (Uint63.to_Z d) /\ in32 (Uint63.to_Z e).

(** One round of [pbkdf2_block]. *)
Definition pbkdf2_round (prf : bytes -> bytes) (ut : bytes * bytes) : bytes * bytes :=
  let '(u, t) := ut in
  let u' := prf u in (u', xor t u').

(** ** Factors: src/setup/factors/qrcode.js *)

(** [Math.log2(strength.guesses)], the entropy the factor reports: a
    number, as a rule no integer. *)
Class Log2Guesses := {
  log2_guesses : value -> value
}.

Record QrcodeOptions := {
  qo_id : option value;
  qo_qrcode : option value
}.

Definition newline : string := String (ascii_of_nat 10) EmptyString.

Definition qrcode_salt_notice : string :=
  ("Be sure to save this salt, since it will be required later and cannot be recovered. you will lose access to it if you ever lose it."
   ++ newline)%string.

(** [setup.factors.qrcode(username, options)]: the arguments of its
    [console.log], and what it returns or throws. The salt is drawn and
    printed before the options are looked at; the two checks of the salt are
    those of the code. The defaults module is not among the sources; the
    default id is the one the function's documentation gives, ['qrcode']. *)
Definition setup_qrcode `{Zxcvbn} `{Log2Guesses} (username : value)
    (options : QrcodeOptions) (g : rng) : list string * result (Factor * rng) :=
  match username with
  | VString username =>
      if is_empty username then ([], Err (RangeError "username cannot be empty")) else
      let '(r, g') := randomBytes 32 g in
      let salt := hex r in
      let printed := [qrcode_salt_notice; salt] in
      if is_empty salt then (printed, Err (RangeError "salt cannot be empty")) else
      match prop (assign_prop (Some (VString "qrcode")) (qo_id options)) with
      | VString id =>
          if is_empty id then (printed, Err (RangeError "id cannot be empty")) else
          let qrcode :=
            if is_undefined (prop (qo_qrcode options)) then VString ""
            else prop (qo_qrcode options) in
          match qrcode with
          | VString _ =>
              let data := (username ++ salt)%string in
              let strength := zxcvbn data in
              (printed,
               Ok ({| f_type := VString "qrcode";
                      f_id := VString id;
                      f_data := VBuffer (bytes_of_string data);
                      f_entropy := log2_guesses strength;
                      f_params := Fn (fun _ => ret []);
                      f_output :=
                        Fn (ret (VObject [("strength"%string, strength)])) |},
                   g'))
          | _ => (printed, Err (TypeError "qrcode must be a string"))
          end
      | _ => (printed, Err (TypeError "id must be a string"))
      end
  | _ => ([], Err (TypeError "username must be a string"))
  end.

(** ** Notions the further statements use *)


(** ** Instances and inputs for the examples

    The examples of Part II run the setup and the derivation on concrete
    inputs. They need an instance of each interface, a stream of random
    bytes, and factors. *)

(** A stream of bytes. *)
Definition example_rng : rng := fun i => byte_of_Z (Z.of_nat i * 37 + 11).

(** [n] buffers of [len] random bytes. *)
Fixpoint random_shares (len n : nat) : Draw (list bytes) :=
  fun g =>
    match n with
    | O => ([], g)
    | S k =>
        let '(r, g1) := randomBytes len g in
        let '(rs, g2) := random_shares len k g1 in
        (r :: rs, g2)
    end.

(** A secret sharing for the thresholds 1 and [n]. With [t = 1] every share
    is the secret. With [t = n] the shares are [n - 1] random buffers and the
    secret xored with all of them. *)
Definition simple_share (secret : bytes) (t n : Z) : M (list bytes) :=
  if (t <? 1) || (n <? t) then throw (RangeError "threshold out of range")
  else if t =? 1 then ret (repeat secret (Z.to_nat n))
  else if t =? n then
    let* rs := call (random_shares (length secret) (Z.to_nat n - 1)) in
    ret (rs ++ [foldr xor secret rs])
  else throw (RangeError "threshold not supported").

(** The buffers of an array of shares. *)
Definition buffers (partial : list value) : list bytes :=
  omap (fun v => match v with VBuffer b => Some b | _ => None end) partial.

Definition simple_combine (partial : list value) (t n : Z) : result bytes :=
  if t =? 1 then
    match buffers partial with
    | s :: _ => Ok s
    | [] => Err (RangeError "not enough shares")
    end
  else
    match rev (buffers partial) with
    | masked :: front =>
        if (S (length front) =? Z.to_nat n)%nat
        then Ok (fold_left (fun acc r => xor r acc) (rev front) masked)
        else Err (RangeError "not enough shares")
    | [] => Err (RangeError "not enough shares")
    end.

Definition simple_recover (partial : list value) (t n : Z) : result (list bytes) :=
  if t =? 1 then
    match buffers partial with
    | s :: _ => Ok (repeat s (Z.to_nat n))
    | [] => Err (RangeError "not enough shares")
    end
  else
    if (length (buffers partial) =? Z.to_nat n)%nat
    then Ok (buffers partial)
    else Err (RangeError "not enough shares").

Definition simple_secrets : Secrets :=
  {| share := simple_share; combine := simple_combine; recover := simple_recover |}.

(** No bcrypt, scrypt or argon2: PBKDF2 only. *)
Definition pbkdf2_engine : KdfEngines :=
  {| bcrypt_kdf := fun _ _ _ _ => Err (Error "bcrypt is not available");
     scrypt_kdf := fun _ _ _ _ _ _ => Err (Error "scrypt is not available");
     argon2_kdf := fun _ _ _ _ _ _ _ => Err (Error "argon2 is not available") |}.

Definition digest_of_string (s : string) : option Digest :=
  if String.eqb s "sha1" then Some sha1
  else if String.eqb s "sha256" then Some sha256
  else if String.eqb s "sha384" then Some sha384
  else if String.eqb s "sha512" then Some sha512
  else None.

(** A [kdfSetup] that reads the PBKDF2 options. *)
Definition pbkdf2_setup : KdfSetup :=
  {| kdfSetup := fun options =>
       match prop (o_kdf options), prop (o_pbkdf2rounds options),
             prop (o_pbkdf2digest options) with
       | VString name, VNumber (Int rounds), VString digest =>
           if String.eqb name "pbkdf2" then
             match digest_of_string digest with
             | Some d => Ok (Pbkdf2 rounds d)
             | None => Err (RangeError "digest not supported")
             end
           else Err (RangeError "kdf not supported")
       | _, _, _ => Err (TypeError "kdf options")
       end |}.

(** An estimator that reports nothing. *)
Definition no_zxcvbn : Zxcvbn := {| zxcvbn := fun _ => VObject [] |}.

(** Options: a 16-byte key, PBKDF2 with HMAC-SHA256 and two rounds. *)
Definition example_options (threshold : option value) : Options := {|
  o_id := Some (VString "example");
  o_size := Some (VNumber (Int 16));
  o_threshold := threshold;
  o_salt := Some (VBuffer (bytes_of_string "0123456789abcdef"));
  o_kdf := Some (VString "pbkdf2");
  o_pbkdf2rounds := Some (VNumber (Int 2));
  o_pbkdf2digest := Some (VString "sha256");
  o_bcryptrounds := None;
  o_scryptcost := None;
  o_scryptblocksize := None;
  o_scryptparallelism := None;
  o_argon2time := None;
  o_argon2mem := None;
  o_argon2parallelism := None
|}.

(** A setup-side factor with constant params and no output, and the
    derive-side factor that goes with it. *)
Definition plain_factor (type id : string) (data : bytes) (entropy : Z) : Factor := {|
  f_type := VString type;
  f_id := VString id;
  f_data := VBuffer data;
  f_entropy := VNumber (Int entropy);
  f_params := Fn (fun _ => ret []);
  f_output := Fn (ret (VObject []))
|}.

Definition plain_material (type : string) (data : bytes) : FactorFn :=
  fun _ => ret (Obj {| m_type := VString type; m_data := VBuffer data;
                       m_params := NotFn VUndefined; m_output := NotFn VUndefined |}).

Definition example_password : Factor :=
  plain_factor "password" "password" (bytes_of_string "correct horse") 20.

Definition example_secret : bytes := bytes_of_string "abcdefghijklmnopqrst".

(** The factor [hmacsha1({ secret })] sets up. *)
Definition example_hmacsha1 : Factor := {|
  f_type := VString "hmacsha1";
  f_id := VString "hmacsha1";
  f_data := VBuffer example_secret;
  f_entropy := VNumber (Int 160);
  f_params := Fn (hmacsha1_params example_secret);
  f_output := Fn (ret (VObject [("secret"%string, VBuffer example_secret)]))
|}.

Definition example_factors : list Factor := [example_password; example_hmacsha1].


(** A policy of two factors. *)
Definition password_slot : PolicyFactor :=
  {| pf_id := "password"; pf_type := "password";
     pf_pad := base64_encode (bytes_of_string "0123456789abcdef");
     pf_params := [] |}.

Definition qrcode_slot : PolicyFactor :=
  {| pf_id := "qrcode"; pf_type := "qrcode";
     pf_pad := base64_encode (bytes_of_string "fedcba9876543210");
     pf_params := [("version", JNumber 1)]%string |}.

Definition example_policy (threshold : Z) : Policy := {|
  p_schema := "https://mfkdf.com/schema/v1.0.0/policy.json";
  p_id := "example";
  p_size := 16;
  p_threshold := threshold;
  p_salt := base64_encode (bytes_of_string "0123456789abcdef");
  p_kdf := Pbkdf2 2 sha256;
  p_factors := [password_slot; qrcode_slot]
|}.

(** The derive-side qrcode factor of a user. *)
Definition example_qrcode : FactorFn :=
  match @derive_qrcode no_zxcvbn (VString "user") (VString "salt") with
  | Ok produce => produce
  | Err _ => plain_material "qrcode" []
  end.


Definition password_only : gmap string (dyn FactorFn) :=
  {[ "password"%string := Fn (plain_material "password" (bytes_of_string "correct horse")) ]}.

Definition qrcode_only : gmap string (dyn FactorFn) :=
  {[ "qrcode"%string := Fn example_qrcode ]}.

Definition qrcode_persisted : gmap string (dyn FactorFn) :=
  {[ "qrcode"%string := Fn (plain_material "persisted" (bytes_of_string "a share, as it is")) ]}.

Definition qrcode_mismatch : gmap string (dyn FactorFn) :=
  {[ "qrcode"%string := Fn (plain_material "password" (bytes_of_string "correct horse")) ]}.




(** A checked factor and a share that is longer than the key. *)
Definition example_checked : CheckedFactor := {|
  cf_type := "password";
  cf_id := "password";
  cf_data := bytes_of_string "correct horse";
  cf_entropy := VNumber (Int 20);
  cf_params := fun _ => ret [];
  cf_output := Fn (ret (VObject []))
|}.

Definition example_share : bytes := bytes_of_string "a share of 20 bytes.".

(** A derive-side factor whose params depend on the key, and a map that
    holds it. *)
Definition rotating_material (type : string) (data : bytes) : FactorFn :=
  fun _ => ret (Obj {| m_type := VString type; m_data := VBuffer data;
                       m_params := Fn (fun key => ret [("key", JString (hex key))]%string);
                       m_output := NotFn VUndefined |}).

Definition password_rotating : gmap string (dyn FactorFn) :=
  {[ "password"%string := Fn (rotating_material "password" (bytes_of_string "correct horse")) ]}.

(** A factor that has no [entropy]. *)
Definition factor_without_entropy : Factor := {|
  f_type := VString "password";
  f_id := VString "password";
  f_data := VBuffer (bytes_of_string "correct horse");
  f_entropy := VUndefined;
  f_params := Fn (fun _ => ret []);
  f_output := Fn (ret (VObject []))
|}.

(** A policy whose one slot has the id "toString", and a factor map that has
    one entry, a string, under another id. *)
Definition toString_slot : PolicyFactor :=
  {| pf_id := "toString"; pf_type := "password";
     pf_pad := base64_encode (bytes_of_string "0123456789abcdef");
     pf_params := [] |}.

Definition toString_policy : Policy := {|
  p_schema := "https://mfkdf.com/schema/v1.0.0/policy.json";
  p_id := "example";
  p_size := 16;
  p_threshold := 1;
  p_salt := base64_encode (bytes_of_string "0123456789abcdef");
  p_kdf := Pbkdf2 2 sha256;
  p_factors := [toString_slot]
|}.

Definition junk_only : gmap string (dyn FactorFn) :=
  {[ "x"%string := NotFn (VString "junk") ]}.

(** ** Runs for the examples of Part III *)

(** The setup of the two example factors with threshold 1, evaluated. *)
Definition example_setup_result : result (DerivedKey * rng) :=
  Eval vm_compute in
    @setup_key simple_secrets pbkdf2_setup pbkdf2_engine
      (FactorArray (map Obj example_factors)) (example_options (Some (VNumber (Int 1)))) example_rng.



(** The derivation of the example policy with the qrcode factor alone,
    evaluated. *)
Definition example_derive_result : result (DerivedKey * rng) :=
  Eval vm_compute in
    @derive_key simple_secrets pbkdf2_engine (example_policy 1) qrcode_only example_rng.


(** An estimator of no entropy. *)
Definition no_log2 : Log2Guesses := {| log2_guesses := fun _ => VNumber (Int 0) |}.

(** A share of 10 bytes. *)
Definition short_share : bytes := bytes_of_string "ten bytes.".

(* ===================================================================== *)
(** * Part II. Lemmas and theorems *)
(* ===================================================================== *)

(** ** Bytes *)

Lemma byte_to_Z_range (b : byte) : 0 <= byte_to_Z b < 256.
Proof.
  unfold byte_to_Z. pose proof (Byte.to_N_bounded b). lia.
Qed.

Lemma byte_of_to_Z (b : byte) : byte_of_Z (byte_to_Z b) = b.
Proof. destruct b; reflexivity. Qed.

Lemma land_255_range (z : Z) : 0 <= Z.land z 255 < 256.
Proof.
  change 255 with (Z.ones 8). rewrite Z.land_ones by lia.
  apply Z.mod_pos_bound. lia.
Qed.

Lemma byte_to_of_Z (z : Z) : byte_to_Z (byte_of_Z z) = Z.land z 255.
Proof.
  unfold byte_of_Z, byte_to_Z.
  pose proof (land_255_range z) as Hr.
  destruct (Byte.of_N (Z.to_N (Z.land z 255))) as [b|] eqn:E.
  - apply Byte.to_of_N in E. rewrite E. lia.
  - apply Byte.of_N_None_iff in E. lia.
Qed.

Lemma byte_to_of_Z_small (z : Z) : 0 <= z < 256 -> byte_to_Z (byte_of_Z z) = z.
Proof.
  intros Hz. rewrite byte_to_of_Z. change 255 with (Z.ones 8).
  rewrite Z.land_ones by lia. apply Z.mod_small. lia.
Qed.

Lemma byte_to_Z_inj (a b : byte) : byte_to_Z a = byte_to_Z b -> a = b.
Proof.
  intros E. rewrite <- (byte_of_to_Z a), <- (byte_of_to_Z b). now rewrite E.
Qed.

(** Bitwise identities are proved bit by bit. *)
Ltac bitwise :=
  apply Z.bits_inj'; intros ?i ?Hi;
  repeat (rewrite ?Z.land_spec, ?Z.lor_spec, ?Z.lxor_spec);
  repeat match goal with
         | |- context [Z.testbit ?x ?i] =>
             is_var x; destruct (Z.testbit x i)
         end;
  try reflexivity.

Lemma land_lxor_distr (a b m : Z) :
  Z.land (Z.lxor a b) m = Z.lxor (Z.land a m) (Z.land b m).
Proof.
  apply Z.bits_inj'; intros i Hi.
  rewrite !Z.land_spec, !Z.lxor_spec, !Z.land_spec.
  destruct (Z.testbit a i), (Z.testbit b i), (Z.testbit m i); reflexivity.
Qed.

Lemma land_255_small (z : Z) : 0 <= z < 256 -> Z.land z 255 = z.
Proof.
  intros Hz. change 255 with (Z.ones 8). rewrite Z.land_ones by lia.
  apply Z.mod_small. lia.
Qed.

Lemma byte_to_Z_bxor (a b : byte) :
  byte_to_Z (bxor a b) = Z.lxor (byte_to_Z a) (byte_to_Z b).
Proof.
  unfold bxor. rewrite byte_to_of_Z, land_lxor_distr.
  now rewrite !land_255_small by apply byte_to_Z_range.
Qed.

Lemma bxor_comm (a b : byte) : bxor a b = bxor b a.
Proof. unfold bxor. now rewrite Z.lxor_comm. Qed.

Lemma bxor_cancel_r (a b : byte) : bxor (bxor a b) b = a.
Proof.
  apply byte_to_Z_inj. rewrite !byte_to_Z_bxor.
  now rewrite Z.lxor_assoc, Z.lxor_nilpotent, Z.lxor_0_r.
Qed.

(** ** buffer-xor *)

Lemma xor_length (a b : bytes) : length (xor a b) = Nat.max (length a) (length b).
Proof.
  revert b. induction a as [|x a IH]; intros [|y b]; simpl; auto.
Qed.

Lemma xor_comm (a b : bytes) : xor a b = xor b a.
Proof.
  revert b. induction a as [|x a IH]; intros [|y b]; simpl; auto.
  now rewrite bxor_comm, IH.
Qed.

(** Xoring twice with the same buffer gives the first buffer back, when the
    second one is not the longer. *)
Lemma xor_cancel_r (a b : bytes) :
  (length b <= length a)%nat -> xor (xor a b) b = a.
Proof.
  revert b. induction a as [|x a IH]; intros [|y b] Hl; simpl in *; auto.
  - lia.
  - rewrite bxor_cancel_r, IH; auto. lia.
Qed.

Lemma xor_cancel_l (a b : bytes) :
  (length b <= length a)%nat -> xor (xor b a) b = a.
Proof. intros Hl. rewrite (xor_comm b a). now apply xor_cancel_r. Qed.

(** ** Hexadecimal *)

Lemma hex_value_digit (n : Z) : 0 <= n < 16 -> hex_value (hex_digit n) = Some n.
Proof.
  intros Hn.
  assert (In n (map Z.of_nat (seq 0 16))) as Hin.
  { apply in_map_iff. exists (Z.to_nat n). split; [lia|]. apply in_seq. lia. }
  simpl in Hin.
  repeat (destruct Hin as [<-|Hin]; [reflexivity|]). destruct Hin.
Qed.

Lemma unhex_hex (bs : bytes) : unhex (hex bs) = bs.
Proof.
  induction bs as [|b bs IH]; [reflexivity|].
  pose proof (byte_to_Z_range b) as Hb.
  cbn [hex unhex].
  rewrite !hex_value_digit.
  - rewrite IH. f_equal.
    rewrite <- (byte_of_to_Z b) at 3. f_equal.
    rewrite (Z.div_mod (byte_to_Z b) 16) at 3 by lia. lia.
  - apply Z.mod_pos_bound. lia.
  - split; [apply Z.div_pos; lia | apply Z.div_lt_upper_bound; lia].
Qed.

(** ** Base64 *)

Lemma b64_value_char (n : Z) : 0 <= n < 64 -> b64_value (b64_char n) = Some n.
Proof.
  intros Hn.
  assert (In n (map Z.of_nat (seq 0 64))) as Hin.
  { apply in_map_iff. exists (Z.to_nat n). split; [lia|]. apply in_seq. lia. }
  simpl in Hin.
  repeat (destruct Hin as [<-|Hin]; [reflexivity|]). destruct Hin.
Qed.

Ltac div_mod_lia := Z.div_mod_to_equations; lia.

Lemma sextets_range (bs : bytes) : Forall (fun d => 0 <= d < 64) (sextets bs).
Proof.
  induction bs as [bs IH] using (induction_ltof1 _ (@length byte)).
  unfold ltof in IH.
  destruct bs as [|a [|b [|c r]]]; cbn [sextets].
  - constructor.
  - pose proof (byte_to_Z_range a).
    repeat (constructor; [div_mod_lia|]). constructor.
  - pose proof (byte_to_Z_range a). pose proof (byte_to_Z_range b).
    repeat (constructor; [div_mod_lia|]). constructor.
  - pose proof (byte_to_Z_range a). pose proof (byte_to_Z_range b).
    pose proof (byte_to_Z_range c).
    repeat (constructor; [div_mod_lia|]).
    apply IH. simpl. lia.
Qed.

Lemma digits3_recompose (x : Z) :
  4096 * (x / 4096) + 64 * ((x / 64) mod 64) + x mod 64 = x.
Proof.
  replace (x / 4096) with (x / 64 / 64) by (rewrite Z.div_div by lia; reflexivity).
  div_mod_lia.
Qed.

Lemma digits4_recompose (x : Z) :
  262144 * (x / 262144) + 4096 * ((x / 4096) mod 64) + 64 * ((x / 64) mod 64)
  + x mod 64 = x.
Proof.
  replace (x / 262144) with (x / 64 / 64 / 64)
    by (rewrite !Z.div_div by lia; reflexivity).
  replace (x / 4096) with (x / 64 / 64) by (rewrite Z.div_div by lia; reflexivity).
  div_mod_lia.
Qed.

Lemma byte_of_Z_eq (z : Z) (b : byte) : z mod 256 = byte_to_Z b -> byte_of_Z z = b.
Proof.
  intros E. apply byte_to_Z_inj. rewrite byte_to_of_Z.
  change 255 with (Z.ones 8). now rewrite Z.land_ones by lia.
Qed.

Lemma unsextets_sextets (bs : bytes) : unsextets (sextets bs) = bs.
Proof.
  induction bs as [bs IH] using (induction_ltof1 _ (@length byte)).
  unfold ltof in IH.
  destruct bs as [|a [|b [|c r]]]; cbn [sextets unsextets].
  - reflexivity.
  - clear IH. pose proof (byte_to_Z_range a).
    f_equal. apply byte_of_Z_eq. rewrite <- Z.div_mod by lia. div_mod_lia.
  - clear IH. pose proof (byte_to_Z_range a). pose proof (byte_to_Z_range b).
    rewrite digits3_recompose.
    f_equal; [|f_equal]; apply byte_of_Z_eq; div_mod_lia.
  - rewrite IH by (simpl; lia). clear IH.
    pose proof (byte_to_Z_range a). pose proof (byte_to_Z_range b).
    pose proof (byte_to_Z_range c).
    rewrite digits4_recompose.
    f_equal; [|f_equal; [|f_equal]]; apply byte_of_Z_eq; div_mod_lia.
Qed.

Lemma omap_b64_value_chars (ds : list Z) :
  Forall (fun d => 0 <= d < 64) ds -> omap b64_value (map b64_char ds) = ds.
Proof.
  induction 1 as [|d ds Hd _ IH]; [reflexivity|].
  cbn [map omap list_omap]. rewrite b64_value_char by exact Hd.
  fold (@omap list _ _ _ b64_value). now rewrite IH.
Qed.

Lemma omap_b64_value_padding (n : nat) : omap b64_value (b64_padding n) = [].
Proof.
  unfold b64_padding. destruct (n mod 3)%nat as [|[|[|k]]]; reflexivity.
Qed.

(** [Buffer.from(buf.toString('base64'), 'base64')] is [buf]. *)
Lemma base64_decode_encode (bs : bytes) : base64_decode (base64_encode bs) = bs.
Proof.
  unfold base64_decode, base64_encode.
  rewrite list_ascii_of_string_of_list_ascii, omap_app.
  rewrite omap_b64_value_chars by apply sextets_range.
  rewrite omap_b64_value_padding, app_nil_r.
  apply unsextets_sextets.
Qed.

(** ** Digest lengths *)

Lemma be_encode_length (n : nat) (x : Z) : length (be_encode n x) = n.
Proof. induction n as [|n IH]; simpl; auto. Qed.

Lemma sha1_length (msg : bytes) : length (SHA1.digest msg) = 20%nat.
Proof.
  unfold SHA1.digest, SHA1.output.
  destruct (fold_left _ _ _) as [[[[h0 h1] h2] h3] h4].
  now rewrite !length_app, !be_encode_length.
Qed.

Lemma sha2_length (P : SHA2.params) (msg : bytes) :
  length (SHA2.digest P msg) = Nat.min (SHA2.outlen P) (8 * SHA2.wbytes P).
Proof.
  unfold SHA2.digest, SHA2.output.
  destruct (fold_left _ _ _) as [[[[[[[a b] c] d] e] f] g] h].
  rewrite length_take. f_equal.
  cbn [map concat]. rewrite !length_app, !be_encode_length. simpl. lia.
Qed.

Lemma hash_length (d : Digest) (msg : bytes) : length (hash d msg) = hash_len d.
Proof.
  destruct d; cbn [hash hash_len].
  - apply sha1_length.
  - now rewrite sha2_length.
  - now rewrite sha2_length.
  - now rewrite sha2_length.
Qed.

Lemma hmac_length (d : Digest) (key msg : bytes) :
  length (hmac (hash d) (hash_block d) key msg) = hash_len d.
Proof. unfold hmac. apply hash_length. Qed.

Lemma hkdf_blocks_length (d : Digest) (prk info : bytes) (n : nat) (i : Z) (prev : bytes) :
  length (hkdf_blocks d prk info n i prev) = (n * hash_len d)%nat.
Proof.
  revert i prev. induction n as [|n IH]; intros i prev; [reflexivity|].
  cbn [hkdf_blocks]. rewrite length_app, hmac_length, IH. lia.
Qed.

Lemma hash_len_pos (d : Digest) : (0 < hash_len d)%nat.
Proof. destruct d; simpl; lia. Qed.

Lemma hkdf_expand_length (d : Digest) (prk info : bytes) (len : nat) :
  length (hkdf_expand d prk info len) = len.
Proof.
  unfold hkdf_expand. rewrite length_take, hkdf_blocks_length.
  pose proof (hash_len_pos d) as Hp.
  apply Nat.min_l.
  pose proof (Nat.div_mod_eq (len + hash_len d - 1) (hash_len d)) as E.
  pose proof (Nat.mod_upper_bound (len + hash_len d - 1) (hash_len d)) as Hm.
  nia.
Qed.

(** HKDF returns exactly [keylen] bytes, whenever it returns. *)
Lemma hkdf_length (d : Digest) (ikm salt info out : bytes) (keylen : Z) :
  hkdf d ikm salt info keylen = Ok out ->
  1 <= keylen /\ length out = Z.to_nat keylen.
Proof.
  unfold hkdf. intros E.
  destruct (length ikm =? 0)%nat; [discriminate|].
  destruct (1024 <? length info)%nat; [discriminate|].
  destruct (keylen <? 1) eqn:Hk; [discriminate|].
  destruct (255 * Z.of_nat (hash_len d) <? keylen); [discriminate|].
  injection E as <-. split; [lia|]. apply hkdf_expand_length.
Qed.

(** HKDF returns for every non-empty input and every length it supports. *)
Lemma hkdf_returns (d : Digest) (ikm : bytes) (keylen : Z) :
  ikm <> [] -> 1 <= keylen <= 255 * Z.of_nat (hash_len d) ->
  exists out, hkdf d ikm [] [] keylen = Ok out.
Proof.
  intros Hi Hk. unfold hkdf.
  destruct ikm as [|b ikm]; [congruence|]. cbn [length Nat.eqb].
  change (1024 <? length (@nil byte))%nat with false. cbv iota.
  destruct (keylen <? 1) eqn:E1; [lia|].
  destruct (255 * Z.of_nat (hash_len d) <? keylen) eqn:E2; [lia|].
  eauto.
Qed.

(** ** SHA-1 on machine integers computes SHA-1

    Every operation of [SHA1_fast] preserves the relation [rep] to the
    operation of [SHA1] it stands for. *)

Lemma in32_iff (z : Z) : in32 z <-> Z.land z mask32 = z.
Proof.
  unfold in32. change mask32 with (Z.ones 32). rewrite Z.land_ones by lia.
  split; intros H.
  - apply Z.mod_small. lia.
  - rewrite <- H. apply Z.mod_pos_bound. lia.
Qed.

Lemma in32_land_mask (z : Z) : in32 (Z.land z mask32).
Proof.
  apply in32_iff. now rewrite <- Z.land_assoc, Z.land_diag.
Qed.

Lemma in32_lor (a b : Z) : in32 a -> in32 b -> in32 (Z.lor a b).
Proof.
  rewrite !in32_iff. intros Ha Hb.
  now rewrite Z.land_lor_distr_l, Ha, Hb.
Qed.

Lemma in32_lxor (a b : Z) : in32 a -> in32 b -> in32 (Z.lxor a b).
Proof.
  rewrite !in32_iff. intros Ha Hb. now rewrite land_lxor_distr, Ha, Hb.
Qed.

Lemma in32_land (a b : Z) : in32 a -> in32 (Z.land a b).
Proof.
  rewrite !in32_iff. intros Ha.
  rewrite <- Z.land_assoc, (Z.land_comm b), Z.land_assoc. now rewrite Ha.
Qed.

Lemma in32_shiftr (a n : Z) : in32 a -> 0 <= n -> in32 (Z.shiftr a n).
Proof.
  unfold in32. intros Ha Hn. rewrite Z.shiftr_div_pow2 by lia.
  assert (0 < 2 ^ n) by (apply Z.pow_pos_nonneg; lia).
  split; [apply Z.div_pos; lia|].
  apply Z.le_lt_trans with a; [|lia]. apply Z.div_le_upper_bound; nia.
Qed.

Lemma to_Z_mask : Uint63.to_Z SHA1_fast.mask = mask32.
Proof. reflexivity. Qed.

Lemma rep_lit (z : Z) : in32 z -> rep z (Uint63.of_Z z).
Proof.
  intros Hz. split; [|exact Hz]. rewrite Uint63.of_Z_spec.
  apply Z.mod_small. unfold in32 in Hz. change wB with (2 ^ 63). lia.
Qed.

Lemma rep_add (x y : Z) (i j : int) :
  rep x i -> rep y j -> rep (SHA1.add x y) (SHA1_fast.add i j).
Proof.
  intros [<- Hx] [<- Hy]. split; [|apply in32_land_mask].
  unfold SHA1_fast.add, SHA1.add.
  rewrite Uint63.land_spec', Uint63.add_spec, to_Z_mask.
  rewrite Z.mod_small; [reflexivity|].
  unfold in32 in *. change wB with (2 ^ 63). lia.
Qed.

Lemma land_mask_mod_wB (y : Z) : Z.land (y mod wB) mask32 = Z.land y mask32.
Proof.
  change mask32 with (Z.ones 32). rewrite !Z.land_ones by lia.
  change wB with (2 ^ 32 * 2 ^ 31).
  rewrite Z.rem_mul_r by lia.
  rewrite (Z.mul_comm (2 ^ 32)), Z_mod_plus_full. apply Z.mod_mod. lia.
Qed.

Lemma rep_shl (n : Z) (k : int) (x : Z) (i : int) :
  Uint63.to_Z k = n -> rep x i -> rep (SHA1.shl n x) (SHA1_fast.shl k i).
Proof.
  intros Hk [<- Hx]. split; [|apply in32_land_mask].
  unfold SHA1_fast.shl, SHA1.shl.
  rewrite Uint63.land_spec', Uint63.lsl_spec, to_Z_mask, Hk.
  rewrite land_mask_mod_wB. f_equal.
  symmetry. apply Z.shiftl_mul_pow2.
  rewrite <- Hk. apply Uint63.to_Z_bounded.
Qed.

Lemma rep_shr (n : Z) (k : int) (x : Z) (i : int) :
  Uint63.to_Z k = n -> rep x i -> rep (Z.shiftr x n) (Uint63.lsr i k).
Proof.
  intros Hk [<- Hx].
  assert (0 <= n) by (rewrite <- Hk; apply Uint63.to_Z_bounded).
  split; [|now apply in32_shiftr].
  rewrite Uint63.lsr_spec, Hk. symmetry. now apply Z.shiftr_div_pow2.
Qed.

Lemma rep_lor (x y : Z) (i j : int) :
  rep x i -> rep y j -> rep (Z.lor x y) (Uint63.lor i j).
Proof.
  intros [<- Hx] [<- Hy]. split; [apply Uint63.lor_spec'|now apply in32_lor].
Qed.

Lemma rep_lxor (x y : Z) (i j : int) :
  rep x i -> rep y j -> rep (Z.lxor x y) (Uint63.lxor i j).
Proof.
  intros [<- Hx] [<- Hy]. split; [apply Uint63.lxor_spec'|now apply in32_lxor].
Qed.

Lemma rep_land (x y : Z) (i j : int) :
  rep x i -> rep y j -> rep (Z.land x y) (Uint63.land i j).
Proof.
  intros [<- Hx] [<- Hy]. split; [apply Uint63.land_spec'|now apply in32_land].
Qed.

Lemma rep_mask : rep mask32 SHA1_fast.mask.
Proof. split; [reflexivity|]. unfold in32, mask32. lia. Qed.

Lemma rep_lnot (x : Z) (i : int) : rep x i -> rep (SHA1.lnot x) (SHA1_fast.lnot i).
Proof. intros H. apply rep_lxor; [exact H|apply rep_mask]. Qed.

Lemma rep_rotl (n : Z) (k : int) (x : Z) (i : int) :
  Uint63.to_Z k = n -> 0 <= n <= 32 ->
  rep x i -> rep (SHA1.rotl n x) (SHA1_fast.rotl k i).
Proof.
  intros Hk Hn H. unfold SHA1.rotl, SHA1_fast.rotl.
  apply rep_lor; [now apply rep_shl|].
  apply rep_shr; [|exact H].
  rewrite Uint63.sub_spec, Hk. change (Uint63.to_Z 32) with 32.
  apply Z.mod_small. change wB with (2 ^ 63). lia.
Qed.

Lemma rep_Ch (b c d : Z) (i j k : int) :
  rep b i -> rep c j -> rep d k -> rep (SHA1.Ch b c d) (SHA1_fast.Ch i j k).
Proof.
  intros Hb Hc Hd. unfold SHA1.Ch, SHA1_fast.Ch.
  auto using rep_lor, rep_land, rep_lnot.
Qed.

Lemma rep_Parity (b c d : Z) (i j k : int) :
  rep b i -> rep c j -> rep d k -> rep (SHA1.Parity b c d) (SHA1_fast.Parity i j k).
Proof.
  intros Hb Hc Hd. unfold SHA1.Parity, SHA1_fast.Parity. auto using rep_lxor.
Qed.

Lemma rep_Maj (b c d : Z) (i j k : int) :
  rep b i -> rep c j -> rep d k -> rep (SHA1.Maj b c d) (SHA1_fast.Maj i j k).
Proof.
  intros Hb Hc Hd. unfold SHA1.Maj, SHA1_fast.Maj.
  auto 6 using rep_lor, rep_land.
Qed.

Lemma rep_byte (b : byte) : rep (byte_to_Z b) (SHA1_fast.byte_int b).
Proof.
  apply rep_lit. pose proof (byte_to_Z_range b). unfold in32. lia.
Qed.

Lemma rep_words (block : bytes) :
  Forall2 rep (SHA1.words block) (SHA1_fast.words block).
Proof.
  induction block as [block IH] using (induction_ltof1 _ (@length byte)).
  unfold ltof in IH.
  destruct block as [|a [|b [|c [|d r]]]]; cbn [SHA1.words SHA1_fast.words];
    try constructor.
  - repeat apply rep_lor; try apply rep_shl; try reflexivity; apply rep_byte.
  - apply IH. simpl. lia.
Qed.

Lemma rep_rev_append (a a' : list Z) (b b' : list int) :
  Forall2 rep a b -> Forall2 rep a' b' ->
  Forall2 rep (rev_append a a') (rev_append b b').
Proof.
  intros H. revert a' b'. induction H as [|x y a b Hxy _ IH]; intros a' b' H'.
  - exact H'.
  - cbn [rev_append]. apply IH. now constructor.
Qed.

Lemma rep_extend (n : nat) (ws : list Z) (ints : list int) :
  Forall2 rep ws ints -> Forall2 rep (SHA1.extend n ws) (SHA1_fast.extend n ints).
Proof.
  revert ws ints. induction n as [|n IH]; intros ws ints H; [exact H|].
  cbn [SHA1.extend SHA1_fast.extend].
  pose proof H as H0.
  do 16 (destruct H as [|? ? ? ? ? H]; [exact H0|]).
  apply IH. constructor; [|exact H0].
  apply rep_rotl; [reflexivity|lia|].
  repeat apply rep_lxor; assumption.
Qed.

Lemma rep_schedule (block : bytes) :
  Forall2 rep (SHA1.schedule block) (SHA1_fast.schedule block).
Proof.
  unfold SHA1.schedule, SHA1_fast.schedule, SHA1_fast.schedule_words.
  apply rep_rev_append; [|constructor].
  apply rep_extend. apply rep_rev_append; [apply rep_words|constructor].
Qed.

Lemma rep_round (f : Z -> Z -> Z -> Z) (f' : int -> int -> int -> int)
    (k : Z) (k' : int) (s : SHA1.state) (t : SHA1_fast.state) (w : Z) (w' : int) :
  (forall b c d i j l, rep b i -> rep c j -> rep d l -> rep (f b c d) (f' i j l)) ->
  rep k k' -> rep_state s t -> rep w w' ->
  rep_state (SHA1.round f k s w) (SHA1_fast.round f' k' t w').
Proof.
  intros Hf Hk Hs Hw.
  destruct s as [[[[a b] c] d] e], t as [[[[i j] l] m] n].
  destruct Hs as (Ha & Hb & Hc & Hd & He).
  cbn [SHA1.round SHA1_fast.round rep_state].
  split; [|split; [|split; [|split]]]; try assumption.
  - repeat apply rep_add; try assumption.
    + apply rep_rotl; [reflexivity|lia|assumption].
    + now apply Hf.
  - apply rep_rotl; [reflexivity|lia|assumption].
Qed.

Lemma rep_rounds (f : Z -> Z -> Z -> Z) (f' : int -> int -> int -> int)
    (k : Z) (k' : int) (ws : list Z) (ints : list int) :
  (forall b c d i j l, rep b i -> rep c j -> rep d l -> rep (f b c d) (f' i j l)) ->
  rep k k' -> Forall2 rep ws ints ->
  forall s t, rep_state s t ->
  rep_state (fold_left (SHA1.round f k) ws s) (fold_left (SHA1_fast.round f' k') ints t).
Proof.
  intros Hf Hk H. induction H as [|w w' ws ints Hw _ IH]; intros s t Hs; [exact Hs|].
  cbn [fold_left]. apply IH. now apply rep_round.
Qed.

Lemma rep_const (z : Z) (i : int) :
  Uint63.to_Z i = z -> (0 <=? z) && (z <? 2 ^ 32) = true -> rep z i.
Proof. intros E H. split; [exact E|]. unfold in32. lia. Qed.

Lemma rep_compress (s : SHA1.state) (t : SHA1_fast.state) (block : bytes) :
  rep_state s t -> rep_state (SHA1.compress s block) (SHA1_fast.compress t block).
Proof.
  intros Hs. unfold SHA1.compress, SHA1_fast.compress, SHA1_fast.compress_words.
  change (SHA1_fast.schedule_words (SHA1_fast.words block))
    with (SHA1_fast.schedule block).
  pose proof (rep_schedule block) as Hw.
  set (ws := SHA1.schedule block) in *. set (ints := SHA1_fast.schedule block) in *.
  destruct s as [[[[h0 h1] h2] h3] h4] eqn:Es, t as [[[[i0 i1] i2] i3] i4] eqn:Et.
  rewrite <- Es, <- Et.
  assert (rep_state
    (fold_left (SHA1.round SHA1.Parity 3395469782) (skipn 60 ws)
       (fold_left (SHA1.round SHA1.Maj 2400959708) (firstn 20 (skipn 40 ws))
          (fold_left (SHA1.round SHA1.Parity 1859775393) (firstn 20 (skipn 20 ws))
             (fold_left (SHA1.round SHA1.Ch 1518500249) (firstn 20 ws) s))))
    (fold_left (SHA1_fast.round SHA1_fast.Parity 3395469782%uint63) (skipn 60 ints)
       (fold_left (SHA1_fast.round SHA1_fast.Maj 2400959708%uint63) (firstn 20 (skipn 40 ints))
          (fold_left (SHA1_fast.round SHA1_fast.Parity 1859775393%uint63) (firstn 20 (skipn 20 ints))
             (fold_left (SHA1_fast.round SHA1_fast.Ch 1518500249%uint63) (firstn 20 ints) t))))) as Hr.
  { subst s t.
    repeat (apply rep_rounds;
            [ auto using rep_Ch, rep_Parity, rep_Maj
            | apply rep_const; reflexivity
            | auto using Forall2_take, Forall2_drop
            | ]).
    exact Hs. }
  destruct (fold_left _ _ _) as [[[[a b] c] d] e].
  destruct (fold_left _ _ _) as [[[[i j] k] l] m].
  destruct Hs as (H0 & H1 & H2 & H3 & H4).
  destruct Hr as (Ha & Hb & Hc & Hd & He).
  cbn [rep_state]. auto 10 using rep_add.
Qed.

Lemma rep_init : rep_state SHA1.init SHA1_fast.init.
Proof.
  cbn [rep_state SHA1.init SHA1_fast.init].
  split; [|split; [|split; [|split]]]; apply rep_const; reflexivity.
Qed.

Lemma rep_blocks (blocks : list bytes) (s : SHA1.state) (t : SHA1_fast.state) :
  rep_state s t ->
  rep_state (fold_left SHA1.compress blocks s) (fold_left SHA1_fast.compress blocks t).
Proof.
  revert s t. induction blocks as [|b blocks IH]; intros s t Hs; [exact Hs|].
  cbn [fold_left]. apply IH. now apply rep_compress.
Qed.

Lemma rep_output (s : SHA1.state) (t : SHA1_fast.state) :
  rep_state s t -> SHA1_fast.output t = SHA1.output s.
Proof.
  destruct s as [[[[a b] c] d] e], t as [[[[i j] k] l] m].
  intros ([<- _] & [<- _] & [<- _] & [<- _] & [<- _]). reflexivity.
Qed.

(** The machine-integer SHA-1 ints SHA-1. *)
Lemma sha1_fast_digest (msg : bytes) : SHA1_fast.digest msg = SHA1.digest msg.
Proof.
  unfold SHA1_fast.digest, SHA1.digest.
  apply rep_output, rep_blocks, rep_init.
Qed.

(** ** HMAC and PBKDF2 depend on the hash function by its values only *)

Lemma hmac_ext (H H' : bytes -> bytes) (block : nat) (key msg : bytes) :
  (forall m, H m = H' m) -> hmac H block key msg = hmac H' block key msg.
Proof. intros E. unfold hmac. now rewrite !E. Qed.

Lemma N_iter_ext {A} (f g : A -> A) (n : N) (x : A) :
  (forall a, f a = g a) -> N.iter n f x = N.iter n g x.
Proof.
  intros E. induction n as [|n IH] using N.peano_ind; [reflexivity|].
  now rewrite !N.iter_succ, IH, E.
Qed.

Lemma pbkdf2_block_ext (prf prf' : bytes -> bytes) (salt : bytes) (rounds : N) (i : Z) :
  (forall m, prf m = prf' m) ->
  pbkdf2_block prf salt rounds i = pbkdf2_block prf' salt rounds i.
Proof.
  intros E. unfold pbkdf2_block. rewrite E. cbv zeta. f_equal.
  apply N_iter_ext. intros [u t]. now rewrite E.
Qed.

Lemma pbkdf2_ext (prf prf' : bytes -> bytes) (hlen : nat) (salt : bytes) (rounds : N)
    (dklen : nat) :
  (forall m, prf m = prf' m) ->
  pbkdf2 prf hlen salt rounds dklen = pbkdf2 prf' hlen salt rounds dklen.
Proof.
  intros E. unfold pbkdf2. do 2 f_equal.
  apply map_ext. intros i. now apply pbkdf2_block_ext.
Qed.

(** ** PBKDF2 with HMAC-SHA1 on chaining values *)

Lemma in32_high_bits (z i : Z) : in32 z -> 32 <= i -> Z.testbit z i = false.
Proof.
  intros [Hz0 Hz] Hi.
  destruct (Z.eq_dec z 0) as [->|Hne]; [apply Z.bits_0|].
  apply Z.bits_above_log2; [lia|].
  apply Z.lt_le_trans with 32; [|lia].
  apply Z.log2_lt_pow2; lia.
Qed.

(** The four bytes of a 32-bit word, put together again. *)
Lemma word_recompose (z : Z) :
  in32 z ->
  Z.lor (Z.lor (SHA1.shl 24 (Z.land (Z.shiftr z 24) 255))
               (SHA1.shl 16 (Z.land (Z.shiftr z 16) 255)))
        (Z.lor (SHA1.shl 8 (Z.land (Z.shiftr z 8) 255))
               (Z.land (Z.shiftr z 0) 255)) = z.
Proof.
  intros Hz. unfold SHA1.shl.
  change 255 with (Z.ones 8). change mask32 with (Z.ones 32).
  apply Z.bits_inj'. intros i Hi.
  pose proof (in32_high_bits z i Hz) as Hhigh.
  assert (i < 8 \/ 8 <= i < 16 \/ 16 <= i < 24 \/ 24 <= i < 32 \/ 32 <= i) as Hcases by lia.
  destruct Hcases as [H|[H|[H|[H|H]]]];
    repeat first
      [ rewrite Z.lor_spec | rewrite Z.land_spec
      | rewrite Z.testbit_ones by lia
      | rewrite Z.shiftl_spec by lia
      | rewrite Z.shiftr_spec by lia
      | rewrite Z.testbit_neg_r by lia ];
    repeat match goal with
           | |- context [?a <? ?b] => destruct (Z.ltb_spec a b); try lia
           | |- context [?a <=? ?b] => destruct (Z.leb_spec a b); try lia
           end;
    rewrite ?Hhigh by lia;
    rewrite ?Z.sub_add, ?Z.add_0_r;
    cbn [andb orb]; rewrite ?andb_true_r, ?andb_false_r, ?orb_false_r; reflexivity.
Qed.

Lemma word_of_bytes (a : int) (r : bytes) :
  in32 (Uint63.to_Z a) ->
  SHA1_fast.words (be_encode 4 (Uint63.to_Z a) ++ r) = a :: SHA1_fast.words r.
Proof.
  intros Ha. cbn [be_encode app SHA1_fast.words]. f_equal.
  apply Uint63.to_Z_inj.
  match goal with
  | |- Uint63.to_Z ?w = _ =>
      assert (rep (Z.lor (Z.lor (SHA1.shl 24 (byte_to_Z (byte_of_Z (Z.shiftr (Uint63.to_Z a) 24))))
                                (SHA1.shl 16 (byte_to_Z (byte_of_Z (Z.shiftr (Uint63.to_Z a) 16)))))
                         (Z.lor (SHA1.shl 8 (byte_to_Z (byte_of_Z (Z.shiftr (Uint63.to_Z a) 8))))
                                (byte_to_Z (byte_of_Z (Z.shiftr (Uint63.to_Z a) 0))))) w) as [-> _]
  end.
  { repeat apply rep_lor; try apply rep_shl; try reflexivity; apply rep_byte. }
  rewrite !byte_to_of_Z. now apply word_recompose.
Qed.

Lemma in32_add (x y : int) : in32 (Uint63.to_Z (SHA1_fast.add x y)).
Proof.
  unfold SHA1_fast.add. rewrite Uint63.land_spec', to_Z_mask. apply in32_land_mask.
Qed.

Lemma compress_words_words32 (h : SHA1_fast.state) (ws : list int) :
  words32 (SHA1_fast.compress_words h ws).
Proof.
  unfold SHA1_fast.compress_words. destruct h as [[[[h0 h1] h2] h3] h4].
  destruct (fold_left _ (skipn 60 _) _) as [[[[a b] c] d] e].
  cbn [words32]. auto 10 using in32_add.
Qed.

Lemma sha1_fast_output_length (u : SHA1_fast.state) :
  length (SHA1_fast.output u) = 20%nat.
Proof.
  destruct u as [[[[a b] c] d] e]. unfold SHA1_fast.output.
  now rewrite !length_app, !be_encode_length.
Qed.

(** The second block of a hash of 64 + 20 bytes, when the 20 bytes are a
    chaining value. *)
Lemma words_output (u : SHA1_fast.state) :
  words32 u ->
  SHA1_fast.words (SHA1_fast.output u ++ PBKDF2_SHA1_fast.tail_bytes)
  = PBKDF2_SHA1_fast.tail_block u.
Proof.
  destruct u as [[[[a b] c] d] e]. intros (Ha & Hb & Hc & Hd & He).
  unfold SHA1_fast.output. rewrite <- !app_assoc.
  rewrite !word_of_bytes by assumption. reflexivity.
Qed.

(** A hash of 64 + 20 bytes is two compressions. *)
Lemma sha1_two_blocks (pad m : bytes) :
  length pad = 64%nat -> length m = 20%nat ->
  SHA1_fast.digest (pad ++ m)
  = SHA1_fast.output
      (SHA1_fast.compress (SHA1_fast.compress SHA1_fast.init pad)
                          (m ++ PBKDF2_SHA1_fast.tail_bytes)).
Proof.
  intros Hp Hm. unfold SHA1_fast.digest.
  assert (chunks 64 (md_pad 64 8 (pad ++ m)) = [pad; m ++ PBKDF2_SHA1_fast.tail_bytes])
    as ->; [|reflexivity].
  do 64 (destruct pad as [|? pad]; [discriminate|]).
  destruct pad; [|discriminate].
  do 20 (destruct m as [|? m]; [discriminate|]).
  destruct m; [|discriminate].
  reflexivity.
Qed.

Lemma key_pad_length (pad : byte) (key : bytes) :
  (length key <= 64)%nat -> length (PBKDF2_SHA1_fast.key_pad pad key) = 64%nat.
Proof.
  intros Hk. unfold PBKDF2_SHA1_fast.key_pad, alloc.
  rewrite length_map, length_app, repeat_length. lia.
Qed.

(** HMAC-SHA1 of a chaining value, under a key of at most 64 bytes. *)
Lemma hmac_sha1_block (key : bytes) (u : SHA1_fast.state) :
  (length key <= 64)%nat -> words32 u ->
  hmac SHA1_fast.digest 64 key (SHA1_fast.output u)
  = SHA1_fast.output
      (PBKDF2_SHA1_fast.prf
         (SHA1_fast.compress SHA1_fast.init (PBKDF2_SHA1_fast.key_pad x36 key))
         (SHA1_fast.compress SHA1_fast.init (PBKDF2_SHA1_fast.key_pad x5c key)) u).
Proof.
  intros Hk Hu. unfold hmac.
  destruct (Nat.ltb_spec 64 (length key)) as [Hlt|_]; [lia|].
  change (map (bxor x36) (key ++ alloc (64 - length key)))
    with (PBKDF2_SHA1_fast.key_pad x36 key).
  change (map (bxor x5c) (key ++ alloc (64 - length key)))
    with (PBKDF2_SHA1_fast.key_pad x5c key).
  rewrite (sha1_two_blocks (PBKDF2_SHA1_fast.key_pad x36 key) (SHA1_fast.output u))
    by (auto using key_pad_length, sha1_fast_output_length).
  rewrite sha1_two_blocks by (auto using key_pad_length, sha1_fast_output_length).
  unfold PBKDF2_SHA1_fast.prf.
  unfold SHA1_fast.compress at 1 3.
  rewrite (words_output u) by exact Hu.
  rewrite words_output by apply compress_words_words32.
  reflexivity.
Qed.

Lemma byte_of_Z_lxor (p q : Z) : bxor (byte_of_Z p) (byte_of_Z q) = byte_of_Z (Z.lxor p q).
Proof.
  apply byte_to_Z_inj. now rewrite byte_to_Z_bxor, !byte_to_of_Z, land_lxor_distr.
Qed.

Lemma xor_be_encode (n : nat) (x y : Z) (r r' : bytes) :
  xor (be_encode n x ++ r) (be_encode n y ++ r') = be_encode n (Z.lxor x y) ++ xor r r'.
Proof.
  induction n as [|n IH]; [reflexivity|].
  cbn [be_encode app xor]. now rewrite IH, byte_of_Z_lxor, Z.shiftr_lxor.
Qed.

Lemma xor_output (t u : SHA1_fast.state) :
  xor (SHA1_fast.output t) (SHA1_fast.output u)
  = SHA1_fast.output (PBKDF2_SHA1_fast.xor5 t u).
Proof.
  destruct t as [[[[a b] c] d] e], u as [[[[a' b'] c'] d'] e'].
  unfold SHA1_fast.output, PBKDF2_SHA1_fast.xor5.
  rewrite !Uint63.lxor_spec'.
  rewrite <- (app_nil_r (be_encode 4 (Uint63.to_Z e))),
          <- (app_nil_r (be_encode 4 (Uint63.to_Z e'))),
          <- (app_nil_r (be_encode 4 (Z.lxor _ _))).
  now rewrite !xor_be_encode.
Qed.

(** The rounds of [pbkdf2_block] are the rounds on chaining values. *)
Lemma pbkdf2_rounds_fast (key : bytes) (n : N) :
  (length key <= 64)%nat ->
  forall u t, words32 u ->
  let inner := SHA1_fast.compress SHA1_fast.init (PBKDF2_SHA1_fast.key_pad x36 key) in
  let outer := SHA1_fast.compress SHA1_fast.init (PBKDF2_SHA1_fast.key_pad x5c key) in
  let r := N.iter n (PBKDF2_SHA1_fast.step inner outer) (u, t) in
  N.iter n (pbkdf2_round (hmac SHA1_fast.digest 64 key))
         (SHA1_fast.output u, SHA1_fast.output t)
  = (SHA1_fast.output (fst r), SHA1_fast.output (snd r))
  /\ words32 (fst r).
Proof.
  intros Hk u t Hu inner outer. cbv zeta.
  induction n as [|n IH] using N.peano_ind; [split; [reflexivity|exact Hu]|].
  rewrite !N.iter_succ. destruct IH as [-> Hw].
  destruct (N.iter n _ (u, t)) as [u' t']. cbn [fst snd] in *.
  unfold pbkdf2_round, PBKDF2_SHA1_fast.step. cbn [fst snd].
  rewrite hmac_sha1_block by assumption. fold inner outer.
  rewrite xor_output. split; [reflexivity|].
  apply compress_words_words32.
Qed.

Lemma state_eqb_eq (s t : SHA1_fast.state) :
  PBKDF2_SHA1_fast.state_eqb s t = true -> s = t.
Proof.
  destruct s as [[[[a b] c] d] e], t as [[[[a' b'] c'] d'] e'].
  unfold PBKDF2_SHA1_fast.state_eqb. rewrite !andb_true_iff.
  intros ((((Ha & Hb) & Hc) & Hd) & He).
  apply Uint63.eqb_correct in Ha, Hb, Hc, Hd, He. now subst.
Qed.

Lemma pair_eqb_eq (s t : SHA1_fast.state * SHA1_fast.state) :
  PBKDF2_SHA1_fast.pair_eqb s t = true -> s = t.
Proof.
  destruct s, t. unfold PBKDF2_SHA1_fast.pair_eqb. cbn [fst snd].
  rewrite andb_true_iff. intros [H1 H2].
  apply state_eqb_eq in H1, H2. now subst.
Qed.

(** A run through the checkpoints is a run of the rounds. *)
Lemma run_sound (n : N) (f : SHA1_fast.state * SHA1_fast.state -> SHA1_fast.state * SHA1_fast.state)
    (checkpoints : list (SHA1_fast.state * SHA1_fast.state)) :
  forall s r,
  PBKDF2_SHA1_fast.run n f s checkpoints = Some r ->
  N.iter (n * N.of_nat (length checkpoints)) f s = r.
Proof.
  induction checkpoints as [|c rest IH]; intros s r Hrun.
  - cbn in Hrun. injection Hrun as <-. now rewrite N.mul_0_r.
  - cbn [PBKDF2_SHA1_fast.run] in Hrun.
    destruct (PBKDF2_SHA1_fast.pair_eqb _ c) eqn:E; [|discriminate].
    apply pair_eqb_eq in E. apply IH in Hrun.
    cbn [length]. rewrite Nat2N.inj_succ, N.mul_succ_r, N.iter_add.
    now rewrite E.
Qed.

(** The rounds of the test vector, run through the checkpoints, and the four
    rounds after the last of them. *)
Lemma vector_run :
  option_map
    (fun s => firstn 16 (SHA1_fast.output (snd
       (N.iter 4 (PBKDF2_SHA1_fast.step PBKDF2_SHA1_fast.vector_inner
                                        PBKDF2_SHA1_fast.vector_outer) s))))
    (PBKDF2_SHA1_fast.run 50
       (PBKDF2_SHA1_fast.step PBKDF2_SHA1_fast.vector_inner PBKDF2_SHA1_fast.vector_outer)
       (PBKDF2_SHA1_fast.vector_first, PBKDF2_SHA1_fast.vector_first)
       PBKDF2_SHA1_fast.vector_checkpoints)
  = Some (unhex "8ee4a527b20aa8feeb78d70447d84e20").
Proof. vm_compute. reflexivity. Qed.

(** ** The KDF engine: the PBKDF2 test vector *)

(** C7. The KDF engine on input "password", salt "salt", size 16, with
    PBKDF2, 25555 rounds and digest SHA-1, returns the sixteen bytes
    8ee4a527b20aa8feeb78d70447d84e20. *)
Theorem kdf_pbkdf2_sha1_vector `{KdfEngines} :
  kdf (bytes_of_string "password") (bytes_of_string "salt") 16 (Pbkdf2 25555 sha1)
  = Ok (unhex "8ee4a527b20aa8feeb78d70447d84e20").
Proof.
  cbn [kdf hash hash_block hash_len]. apply (f_equal Ok).
  rewrite (pbkdf2_ext _ (hmac SHA1_fast.digest 64 (bytes_of_string "password")))
    by (intros m; apply hmac_ext; intros m'; symmetry; apply sha1_fast_digest).
  unfold pbkdf2.
  change ((Z.to_nat 16 + 20 - 1) / 20)%nat with 1%nat.
  cbn [seq map concat]. rewrite app_nil_r.
  unfold pbkdf2_block. change (N.pred (Z.to_N 25555)) with (4 + 50 * 511)%N.
  cbv zeta.
  change (fun '(u, t) => _) with
    (pbkdf2_round (hmac SHA1_fast.digest 64 (bytes_of_string "password"))).
  assert (hmac SHA1_fast.digest 64 (bytes_of_string "password")
            (bytes_of_string "salt" ++ be_encode 4 (Z.of_nat 1))
          = SHA1_fast.output PBKDF2_SHA1_fast.vector_first) as ->
    by (vm_compute; reflexivity).
  assert (words32 PBKDF2_SHA1_fast.vector_first) as Hfirst.
  { change PBKDF2_SHA1_fast.vector_first
      with (SHA1_fast.compress_words PBKDF2_SHA1_fast.vector_outer
              (PBKDF2_SHA1_fast.tail_block (SHA1_fast.compress PBKDF2_SHA1_fast.vector_inner
                 (bytes_of_string "salt" ++ be_encode 4 1 ++ x80 :: alloc 47
                    ++ be_encode 8 576)))).
    apply compress_words_words32. }
  destruct (pbkdf2_rounds_fast (bytes_of_string "password") (4 + 50 * 511)
              ltac:(cbn; lia) _ PBKDF2_SHA1_fast.vector_first Hfirst) as [-> _].
  cbn [snd].
  change (SHA1_fast.compress SHA1_fast.init
            (PBKDF2_SHA1_fast.key_pad x36 (bytes_of_string "password")))
    with PBKDF2_SHA1_fast.vector_inner.
  change (SHA1_fast.compress SHA1_fast.init
            (PBKDF2_SHA1_fast.key_pad x5c (bytes_of_string "password")))
    with PBKDF2_SHA1_fast.vector_outer.
  pose proof vector_run as Hrun.
  destruct (PBKDF2_SHA1_fast.run 50 _ _ _) as [r|] eqn:E; [|discriminate].
  apply run_sound in E.
  change (N.of_nat (length PBKDF2_SHA1_fast.vector_checkpoints)) with 511%N in E.
  rewrite N.iter_add, E.
  cbn [option_map] in Hrun. now injection Hrun.
Qed.

(** ** Sequencing *)

Lemma bind_run {A B} (c : M A) (k : A -> M B) (g : rng) :
  bind c k g = match c g with
               | Ok (a, g') => k a g'
               | Err e => Err e
               end.
Proof. reflexivity. Qed.

Lemma bind_Ok {A B} (c : M A) (k : A -> M B) (g : rng) (r : B * rng) :
  bind c k g = Ok r <-> exists a g', c g = Ok (a, g') /\ k a g' = Ok r.
Proof.
  unfold bind. destruct (c g) as [[a g']|e]; split.
  - eauto.
  - now intros (a0 & g0 & [= <- <-] & H).
  - discriminate.
  - now intros (a0 & g0 & [=] & _).
Qed.

Lemma require_Ok (cond : bool) (e : error) (g : rng) (r : unit * rng) :
  require cond e g = Ok r <-> cond = true /\ r = (tt, g).
Proof.
  unfold require, ret, throw. destruct cond; split; try discriminate.
  - now intros [= <-].
  - now intros [_ ->].
  - now intros [? _].
Qed.

Lemma require_true (e : error) (g : rng) : require true e g = Ok (tt, g).
Proof. reflexivity. Qed.

Lemma require_false (e : error) (g : rng) : require false e g = Err e.
Proof. reflexivity. Qed.

Lemma lift_Ok {A} (r : result A) (g : rng) (x : A * rng) :
  lift r g = Ok x <-> exists a, r = Ok a /\ x = (a, g).
Proof.
  unfold lift. destruct r as [a|e]; split; try discriminate.
  - intros [= <-]. eauto.
  - now intros (a0 & [= <-] & ->).
  - now intros (a0 & [=] & _).
Qed.

(** Take a successful run apart, one step at a time. *)
Ltac run_inv H :=
  repeat match type of H with
         | bind _ _ _ = Ok _ =>
             let a := fresh "a" in
             let g := fresh "g" in
             let H1 := fresh "Hstep" in
             apply bind_Ok in H; destruct H as (a & g & H1 & H);
             try (apply require_Ok in H1; destruct H1 as [H1 [= -> ->]]);
             try (apply lift_Ok in H1; destruct H1 as (? & H1 & [= -> ->]))
         end.

(** ** JSON copies *)

Lemma json_clone_id : forall j : json, json_clone j = j.
Proof.
  fix json_clone_id 1. intros j.
  destruct j as [| | | |l|fields]; cbn [json_clone]; try reflexivity.
  - f_equal. induction l as [|x l IH]; [reflexivity|].
    cbn [map]. f_equal; [apply json_clone_id|exact IH].
  - f_equal. induction fields as [|[k v] fields IH]; [reflexivity|].
    cbn [map fst snd]. f_equal; [f_equal; apply json_clone_id|exact IH].
Qed.

Lemma object_clone_id (o : object) : object_clone o = o.
Proof.
  unfold object_clone. induction o as [|[k v] o IH]; [reflexivity|].
  cbn [map fst snd]. now rewrite json_clone_id, IH.
Qed.

Lemma policy_factor_clone_id (factor : PolicyFactor) :
  policy_factor_clone factor = factor.
Proof.
  destruct factor. unfold policy_factor_clone. cbn. now rewrite object_clone_id.
Qed.

Lemma policy_clone_id (policy : Policy) : policy_clone policy = policy.
Proof.
  destruct policy as [s i sz t sa k fs]. unfold policy_clone, with_factors. cbn.
  f_equal. induction fs as [|f fs IH]; [reflexivity|].
  cbn [map]. now rewrite policy_factor_clone_id, IH.
Qed.

(** ** Values *)

Lemma is_string_true (v : value) (s : string) :
  is_string v s = true <-> v = VString s.
Proof.
  destruct v; cbn; try (split; [discriminate|intros [=]]).
  rewrite String.eqb_eq. split; [now intros ->|now intros [= ->]].
Qed.

Lemma is_string_false (v : value) (s : string) :
  is_string v s = false <-> v <> VString s.
Proof.
  rewrite <- is_string_true. destruct (is_string v s); split; congruence.
Qed.

Lemma read_Ok {A} (x : maybe A) (g g' : rng) (a : A) :
  read x g = Ok (a, g') <-> x = Obj a /\ g' = g.
Proof.
  destruct x; cbn; unfold throw, ret; split; try discriminate.
  - now intros [? _].
  - now intros [? _].
  - now intros [= -> ->].
  - now intros [[= ->] ->].
Qed.

Lemma map_Obj_inj {A} (l1 l2 : list A) : map Obj l1 = map Obj l2 -> l1 = l2.
Proof.
  revert l2. induction l1 as [|a l1 IH]; intros [|b l2]; try discriminate; auto.
  cbn [map]. intros [= -> Hl]. f_equal. auto.
Qed.

(** ** The factor map *)

Lemma inherited_None (factors : gmap string (dyn FactorFn)) (id : string) :
  inherited factors id = None <-> prototype_function id = false.
Proof.
  unfold inherited, prototype_function, prototype_functions. cbn [existsb].
  repeat match goal with
         | |- context [String.eqb id ?s] =>
             destruct (String.eqb_spec id s) as [->|_];
             [vm_compute; split; congruence|]
         end.
  cbn. split; congruence.
Qed.

Lemma factor_function_own (factors : gmap string (dyn FactorFn)) (id : string)
    (produce : FactorFn) :
  factors !! id = Some (Fn produce) -> factor_function factors id = Some produce.
Proof. unfold factor_function. now intros ->. Qed.

Lemma factor_function_not_callable (factors : gmap string (dyn FactorFn)) (id : string)
    (v : value) :
  factors !! id = Some (NotFn v) -> factor_function factors id = None.
Proof. unfold factor_function. now intros ->. Qed.

Lemma factor_function_absent (factors : gmap string (dyn FactorFn)) (id : string) :
  factors !! id = None -> prototype_function id = false ->
  factor_function factors id = None.
Proof. unfold factor_function. intros -> Hp. now apply inherited_None. Qed.

(** ** The loop of the derivation *)

Section Derive.
Context `{Secrets} `{KdfEngines}.

(** A slot the map has no function for. *)
Lemma derive_factor_None (size : Z) (factors : gmap string (dyn FactorFn))
    (factor : PolicyFactor) (g : rng) :
  factor_function factors (pf_id factor) = None ->
  derive_factor size factors factor g = Ok ((VNull, NotFn VNull), g).
Proof. unfold derive_factor. now intros ->. Qed.

(** A slot whose function returns a material of type "persisted". *)
Lemma derive_factor_persisted (size : Z) (factors : gmap string (dyn FactorFn))
    (factor : PolicyFactor) (produce : FactorFn) (material : Material) (g g' : rng) :
  factor_function factors (pf_id factor) = Some produce ->
  produce (pf_params factor) g = Ok (Obj material, g') ->
  m_type material = VString "persisted" ->
  derive_factor size factors factor g = Ok ((m_data material, m_params material), g').
Proof.
  intros Hf Hp Ht. unfold derive_factor. rewrite Hf, bind_run, Hp.
  cbn [read]. rewrite bind_run. unfold ret at 1. rewrite bind_run, Ht.
  reflexivity.
Qed.

(** A slot whose function returns a material of another type than the
    slot's. *)
Lemma derive_factor_mismatch (size : Z) (factors : gmap string (dyn FactorFn))
    (factor : PolicyFactor) (produce : FactorFn) (material : Material) (g g' : rng) :
  factor_function factors (pf_id factor) = Some produce ->
  produce (pf_params factor) g = Ok (Obj material, g') ->
  m_type material <> VString "persisted" ->
  m_type material <> VString (pf_type factor) ->
  derive_factor size factors factor g = Err FactorTypeMismatch.
Proof.
  intros Hf Hp Hnp Ht. unfold derive_factor. rewrite Hf, bind_run, Hp.
  cbn [read]. rewrite bind_run. unfold ret at 1. rewrite bind_run.
  apply is_string_false in Hnp, Ht. rewrite Hnp, Ht. reflexivity.
Qed.

(** A slot whose function returns a material of the slot's type. *)
Lemma derive_factor_stretched (size : Z) (factors : gmap string (dyn FactorFn))
    (factor : PolicyFactor) (produce : FactorFn) (material : Material) (g g' : rng)
    (ikm stretched : bytes) :
  factor_function factors (pf_id factor) = Some produce ->
  produce (pf_params factor) g = Ok (Obj material, g') ->
  m_type material <> VString "persisted" ->
  m_type material = VString (pf_type factor) ->
  hkdf_ikm (m_data material) = Ok ikm ->
  hkdf sha512 ikm [] [] size = Ok stretched ->
  let pad := base64_decode (pf_pad factor) in
  derive_factor size factors factor g
  = Ok ((VBuffer (xor pad (left_pad stretched size (length pad))), m_params material), g').
Proof.
  intros Hf Hp Hnp Ht Hikm Hhkdf pad. unfold derive_factor. rewrite Hf, bind_run, Hp.
  cbn [read]. rewrite bind_run. unfold ret at 1. rewrite bind_run.
  apply is_string_false in Hnp. rewrite Hnp.
  apply is_string_true in Ht. rewrite Ht. cbn [negb].
  rewrite bind_run, Hikm. cbn [lift]. rewrite bind_run, Hhkdf. reflexivity.
Qed.

(** What a turn of the loop that returns has done. *)
Lemma derive_factor_Ok (size : Z) (factors : gmap string (dyn FactorFn))
    (factor : PolicyFactor) (g g' : rng) (sh : value) (nf : dyn ParamsFn) :
  derive_factor size factors factor g = Ok ((sh, nf), g') ->
  (factor_function factors (pf_id factor) = None
   /\ sh = VNull /\ nf = NotFn VNull /\ g' = g)
  \/ exists produce material,
       factor_function factors (pf_id factor) = Some produce
       /\ produce (pf_params factor) g = Ok (Obj material, g')
       /\ nf = m_params material
       /\ ((m_type material = VString "persisted" /\ sh = m_data material)
           \/ (m_type material <> VString "persisted"
               /\ m_type material = VString (pf_type factor)
               /\ exists ikm stretched,
                    hkdf_ikm (m_data material) = Ok ikm
                    /\ hkdf sha512 ikm [] [] size = Ok stretched
                    /\ sh = VBuffer (xor (base64_decode (pf_pad factor))
                                         (left_pad stretched size
                                            (length (base64_decode (pf_pad factor))))))).
Proof.
  unfold derive_factor.
  destruct (factor_function factors (pf_id factor)) as [produce|].
  2: { intros [= <- <- <-]. left. auto. }
  intros Hrun. right. exists produce.
  apply bind_Ok in Hrun as (returned & g1 & Hp & Hrun).
  apply bind_Ok in Hrun as (material & g2 & Hread & Hrun).
  apply read_Ok in Hread as [-> ->].
  apply bind_Ok in Hrun as (share & g3 & Hshare & Hrun).
  unfold ret in Hrun. injection Hrun as <- <- <-.
  exists material.
  destruct (is_string (m_type material) "persisted") eqn:Ep.
  - unfold ret in Hshare. injection Hshare as <- <-.
    apply is_string_true in Ep.
    split; [reflexivity|]. split; [exact Hp|]. split; [reflexivity|]. left. auto.
  - destruct (is_string (m_type material) (pf_type factor)) eqn:Et; [|discriminate].
    cbn [negb] in Hshare.
    apply bind_Ok in Hshare as (ikm & g4 & Hikm & Hshare).
    apply lift_Ok in Hikm as (ikm' & Hikm & [= <- <-]).
    apply bind_Ok in Hshare as (stretched & g5 & Hhkdf & Hshare).
    apply lift_Ok in Hhkdf as (stretched' & Hhkdf & [= <- <-]).
    unfold ret in Hshare. injection Hshare as <- <-.
    apply is_string_false in Ep. apply is_string_true in Et.
    split; [reflexivity|]. split; [exact Hp|]. split; [reflexivity|]. right.
    split; [exact Ep|]. split; [exact Et|]. eauto.
Qed.

(** The accumulators of the loop are prefixes of its result. *)
Lemma derive_factors_acc (size : Z) (factors : gmap string (dyn FactorFn))
    (policy_factors : list PolicyFactor) shares newFactors (g : rng) :
  derive_factors size factors policy_factors shares newFactors g =
  match derive_factors size factors policy_factors [] [] g with
  | Ok ((s, n), g') => Ok ((shares ++ s, newFactors ++ n), g')
  | Err e => Err e
  end.
Proof.
  revert shares newFactors g.
  induction policy_factors as [|factor rest IH]; intros shares newFactors g.
  - cbn. now rewrite !app_nil_r.
  - cbn [derive_factors]. rewrite !bind_run.
    destruct (derive_factor size factors factor g) as [[[sh nf] g1]|e]; [|reflexivity].
    cbn [fst snd]. rewrite IH. rewrite (IH ([] ++ [sh]) ([] ++ [nf])).
    destruct (derive_factors size factors rest [] [] g1) as [[[s n] g2]|e];
      [|reflexivity].
    cbn. now rewrite <- !app_assoc.
Qed.

(** The loop, one factor at a time. *)
Lemma derive_factors_cons (size : Z) (factors : gmap string (dyn FactorFn))
    (factor : PolicyFactor) (rest : list PolicyFactor) (g : rng) :
  derive_factors size factors (factor :: rest) [] [] g =
  match derive_factor size factors factor g with
  | Err e => Err e
  | Ok ((sh, nf), g1) =>
      match derive_factors size factors rest [] [] g1 with
      | Err e => Err e
      | Ok ((s, n), g2) => Ok ((sh :: s, nf :: n), g2)
      end
  end.
Proof.
  cbn [derive_factors]. rewrite bind_run.
  destruct (derive_factor size factors factor g) as [[[sh nf] g1]|e]; [|reflexivity].
  cbn [fst snd]. now rewrite derive_factors_acc.
Qed.

(** What the loop returns, slot by slot. *)
Lemma derive_factors_Ok (size : Z) (factors : gmap string (dyn FactorFn))
    (policy_factors : list PolicyFactor) shares newFactors (g g' : rng) :
  derive_factors size factors policy_factors [] [] g = Ok ((shares, newFactors), g') ->
  length shares = length policy_factors /\
  length newFactors = length policy_factors /\
  forall i factor, policy_factors !! i = Some factor ->
    exists sh nf g1 g2, shares !! i = Some sh /\ newFactors !! i = Some nf /\
      derive_factor size factors factor g1 = Ok ((sh, nf), g2).
Proof.
  revert shares newFactors g.
  induction policy_factors as [|factor rest IH]; intros shares newFactors g.
  - cbn. intros [= <- <- <-]. repeat split; auto. intros i f Hf. discriminate.
  - rewrite derive_factors_cons.
    destruct (derive_factor size factors factor g) as [[[sh nf] g1]|e] eqn:E;
      [|discriminate].
    destruct (derive_factors size factors rest [] [] g1) as [[[s n] g2]|e] eqn:E2;
      [|discriminate].
    intros [= <- <- <-].
    apply IH in E2 as (Hs & Hn & Hslots).
    repeat split; cbn [length]; auto.
    intros [|i] f Hf.
    + injection Hf as <-. exists sh, nf, g, g1. auto.
    + apply (Hslots i f Hf).
Qed.

End Derive.

Lemma bind_Err {A B} (c : M A) (k : A -> M B) (g : rng) (e : error) :
  bind c k g = Err e ->
  c g = Err e \/ exists a g', c g = Ok (a, g') /\ k a g' = Err e.
Proof.
  unfold bind. destruct (c g) as [[a g']|e']; [eauto|].
  intros [= <-]. now left.
Qed.

Lemma require_Err (cond : bool) (e e' : error) (g : rng) :
  require cond e g = Err e' -> cond = false /\ e' = e.
Proof. destruct cond; [discriminate|]. now intros [= <-]. Qed.

Section DeriveKey.
Context `{Secrets} `{KdfEngines}.

Lemma derive_factors_app (size : Z) (factors : gmap string (dyn FactorFn))
    (before after : list PolicyFactor) shares newFactors (g : rng) :
  derive_factors size factors (before ++ after) shares newFactors g =
  match derive_factors size factors before shares newFactors g with
  | Ok ((s, n), g1) => derive_factors size factors after s n g1
  | Err e => Err e
  end.
Proof.
  revert shares newFactors g.
  induction before as [|factor rest IH]; intros shares newFactors g; [reflexivity|].
  cbn [app derive_factors]. rewrite !bind_run.
  destruct (derive_factor size factors factor g) as [[[sh nf] g1]|e]; [|reflexivity].
  apply IH.
Qed.

(** The two checks of the threshold throw the same error. *)
Lemma derive_key_precheck (policy : Policy) (factors : gmap string (dyn FactorFn))
    (g : rng) :
  policy_valid policy = true ->
  Z.of_nat (size factors) < p_threshold policy ->
  derive_key policy factors g = Err InsufficientShares.
Proof.
  intros Hv Hlt. unfold derive_key. rewrite bind_run, Hv, require_true.
  rewrite bind_run.
  replace (Z.of_nat (size factors) <? p_threshold policy) with true by lia.
  reflexivity.
Qed.

Lemma derive_key_count_check (policy : Policy) (factors : gmap string (dyn FactorFn))
    (g g' : rng) shares newFactors :
  policy_valid policy = true ->
  derive_factors (p_size policy) factors (p_factors policy) [] [] g
    = Ok ((shares, newFactors), g') ->
  Z.of_nat (count_buffers shares) < p_threshold policy ->
  derive_key policy factors g = Err InsufficientShares.
Proof.
  intros Hv Hloop Hlt. unfold derive_key. rewrite bind_run, Hv, require_true.
  rewrite bind_run.
  destruct (Z.of_nat (size factors) <? p_threshold policy); [reflexivity|].
  cbn [negb]. rewrite require_true, bind_run, Hloop. cbn [fst snd].
  rewrite bind_run.
  replace (Z.of_nat (count_buffers shares) <? p_threshold policy) with true by lia.
  reflexivity.
Qed.

(** C2. For a schema-valid policy, [derive.key] fails with InsufficientShares
    when the factor map has fewer than [threshold] entries; it fails with
    InsufficientShares when the loop over the policy's factors has produced
    fewer than [threshold] non-null shares; and so it fails with this error
    when [threshold - 1] factors are supplied. *)
Theorem derive_insufficient_shares (policy : Policy)
    (factors : gmap string (dyn FactorFn)) (g : rng) :
  policy_valid policy = true ->
  (Z.of_nat (size factors) < p_threshold policy ->
   derive_key policy factors g = Err InsufficientShares)
  /\ (forall shares newFactors g',
        derive_factors (p_size policy) factors (p_factors policy) [] [] g
          = Ok ((shares, newFactors), g') ->
        Z.of_nat (count_buffers shares) < p_threshold policy ->
        derive_key policy factors g = Err InsufficientShares)
  /\ (Z.of_nat (size factors) = p_threshold policy - 1 ->
      derive_key policy factors g = Err InsufficientShares).
Proof.
  intros Hv. split; [|split].
  - now apply derive_key_precheck.
  - intros shares newFactors g'. now apply derive_key_count_check.
  - intros Hs. apply derive_key_precheck; [exact Hv|lia].
Qed.

(** The loop throws what its first failing factor throws. *)
Lemma derive_key_factor_error (policy : Policy) (factors : gmap string (dyn FactorFn))
    (before after : list PolicyFactor) (factor : PolicyFactor) (g g1 : rng) (e : error) r :
  policy_valid policy = true ->
  p_threshold policy <= Z.of_nat (size factors) ->
  p_factors policy = before ++ factor :: after ->
  derive_factors (p_size policy) factors before [] [] g = Ok (r, g1) ->
  derive_factor (p_size policy) factors factor g1 = Err e ->
  derive_key policy factors g = Err e.
Proof.
  intros Hv Hsize Hsplit Hbefore Hfactor.
  unfold derive_key. rewrite bind_run, Hv, require_true, bind_run.
  replace (Z.of_nat (size factors) <? p_threshold policy) with false by lia.
  cbn [negb]. rewrite require_true, bind_run.
  rewrite Hsplit, derive_factors_app, Hbefore.
  destruct r as [s n].
  cbn [derive_factors]. rewrite bind_run, Hfactor. reflexivity.
Qed.

(** The share of a slot in the result of the loop. *)
Lemma derive_factors_middle (size : Z) (factors : gmap string (dyn FactorFn))
    (before after : list PolicyFactor) (factor : PolicyFactor) (g g1 g2 g' : rng)
    r sh nf shares newFactors :
  derive_factors size factors before [] [] g = Ok (r, g1) ->
  derive_factor size factors factor g1 = Ok ((sh, nf), g2) ->
  derive_factors size factors (before ++ factor :: after) [] [] g
    = Ok ((shares, newFactors), g') ->
  shares !! length before = Some sh /\ newFactors !! length before = Some nf.
Proof.
  intros Hbefore Hfactor. rewrite derive_factors_app, Hbefore.
  destruct r as [s n].
  pose proof (derive_factors_Ok _ _ _ _ _ _ _ Hbefore) as (Hs & Hn & _).
  cbn [derive_factors]. rewrite bind_run, Hfactor. cbn [fst snd].
  rewrite derive_factors_acc.
  destruct (derive_factors size factors after [] [] g2) as [[[s' n'] g3]|e];
    [|discriminate].
  intros [= <- <- <-]. split.
  - rewrite <- Hs, <- app_assoc. cbn [app]. now rewrite list_lookup_middle.
  - rewrite <- Hn, <- app_assoc. cbn [app]. now rewrite list_lookup_middle.
Qed.

(** C3. For a slot of the policy with a supplied producer, which returns a
    material when the loop calls it: when the material has type "persisted",
    its data is the share of the slot as it is (no HKDF, no comparison of
    types); otherwise, when its type is not the slot's type, processing the
    slot throws FactorTypeMismatch, and so does [derive.key] once the loop
    reaches the slot. *)
Theorem derive_persisted_or_type_mismatch (policy : Policy)
    (factors : gmap string (dyn FactorFn)) (before after : list PolicyFactor)
    (factor : PolicyFactor) (produce : FactorFn) (material : Material)
    (g g1 g2 : rng) :
  p_factors policy = before ++ factor :: after ->
  factors !! pf_id factor = Some (Fn produce) ->
  produce (pf_params factor) g1 = Ok (Obj material, g2) ->
  (m_type material = VString "persisted" ->
   derive_factor (p_size policy) factors factor g1
     = Ok ((m_data material, m_params material), g2)
   /\ forall r shares newFactors g',
        derive_factors (p_size policy) factors before [] [] g = Ok (r, g1) ->
        derive_factors (p_size policy) factors (p_factors policy) [] [] g
          = Ok ((shares, newFactors), g') ->
        shares !! length before = Some (m_data material))
  /\ (m_type material <> VString "persisted" ->
      m_type material <> VString (pf_type factor) ->
      derive_factor (p_size policy) factors factor g1 = Err FactorTypeMismatch
      /\ (policy_valid policy = true ->
          p_threshold policy <= Z.of_nat (size factors) ->
          (exists r, derive_factors (p_size policy) factors before [] [] g = Ok (r, g1)) ->
          derive_key policy factors g = Err FactorTypeMismatch)).
Proof.
  intros Hsplit Hlookup Hproduce.
  apply factor_function_own in Hlookup.
  split.
  - intros Hp.
    pose proof (derive_factor_persisted (p_size policy) _ _ _ _ _ _ Hlookup Hproduce Hp)
      as Hfactor.
    split; [exact Hfactor|].
    intros r shares newFactors g' Hbefore Hloop. rewrite Hsplit in Hloop.
    now destruct (derive_factors_middle _ _ _ _ _ _ _ _ _ _ _ _ _ _
                    Hbefore Hfactor Hloop).
  - intros Hp Ht.
    pose proof (derive_factor_mismatch (p_size policy) _ _ _ _ _ _ Hlookup Hproduce Hp Ht)
      as Hfactor.
    split; [exact Hfactor|].
    intros Hv Hsize [r Hbefore].
    eapply derive_key_factor_error; eauto.
Qed.

End DeriveKey.

(** ** Entries of the factor map that are not functions *)


Section NonFunctions.
Context `{Secrets} `{KdfEngines}.

Lemma derive_factor_not_callable (size : Z) (factors : gmap string (dyn FactorFn))
    (factor : PolicyFactor) (g : rng) :
  (forall produce, factors !! pf_id factor <> Some (Fn produce)) ->
  (factors !! pf_id factor = None -> prototype_function (pf_id factor) = false) ->
  derive_factor size factors factor g = Ok ((VNull, NotFn VNull), g).
Proof.
  intros Hn Hp. apply derive_factor_None.
  destruct (factors !! pf_id factor) as [[produce|v]|] eqn:E.
  - now destruct (Hn produce).
  - eapply factor_function_not_callable; eauto.
  - apply factor_function_absent; auto.
Qed.





End NonFunctions.

(** ** Rotation of the params *)

Lemma rotate_Ok (key : bytes) (newFactors : list (dyn ParamsFn)) :
  forall (index : nat) (policy_factors : list PolicyFactor) (g g' : rng) r,
  rotate key index newFactors policy_factors g = Ok (r, g') ->
  length r = length policy_factors /\
  forall j factor, policy_factors !! j = Some factor ->
    exists factor', r !! j = Some factor' /\
      rotated key (if (j <? index)%nat then None else newFactors !! (j - index)%nat)
              factor factor'.
Proof.
  induction newFactors as [|[f|v] rest IH]; intros index pfs g g' r.
  - cbn [rotate]. unfold ret. intros [= <- <-]. split; [reflexivity|].
    intros j factor Hj. exists factor. split; [exact Hj|].
    unfold rotated. destruct (j <? index)%nat; [auto|]. rewrite lookup_nil. auto.
  - cbn [rotate]. rewrite bind_run.
    destruct (f key g) as [[params g1]|e] eqn:Ef; [|discriminate].
    destruct (pfs !! index) as [pf|] eqn:Epf; [|discriminate].
    intros Hr. apply IH in Hr as [Hlen Hslots].
    rewrite length_insert in Hlen. split; [exact Hlen|].
    intros j factor Hj.
    destruct (decide (j = index)) as [->|Hne].
    + rewrite Epf in Hj. injection Hj as <-.
      destruct (Hslots index (set_params pf params)) as (factor' & Hf' & Hrot).
      { apply list_lookup_insert_eq. now apply lookup_lt_Some in Epf. }
      exists factor'. split; [exact Hf'|].
      replace (index <? S index)%nat with true in Hrot by (symmetry; apply Nat.ltb_lt; lia).
      destruct Hrot as (Hi & Ht & Hp & Hparams). cbn in Hi, Ht, Hp, Hparams.
      rewrite Nat.ltb_irrefl, Nat.sub_diag. cbn [lookup list_lookup].
      unfold rotated. repeat split; auto. exists g, g1. now rewrite Hparams.
    + destruct (Hslots j factor) as (factor' & Hf' & Hrot).
      { now rewrite list_lookup_insert_ne. }
      exists factor'. split; [exact Hf'|].
      destruct (j <? index)%nat eqn:Elt.
      * apply Nat.ltb_lt in Elt.
        replace (j <? S index)%nat with true in Hrot by (symmetry; apply Nat.ltb_lt; lia).
        exact Hrot.
      * apply Nat.ltb_ge in Elt.
        replace (j <? S index)%nat with false in Hrot by (symmetry; apply Nat.ltb_ge; lia).
        replace (j - index)%nat with (S (j - S index)) by lia. exact Hrot.
  - cbn [rotate]. intros Hr. apply IH in Hr as [Hlen Hslots].
    split; [exact Hlen|].
    intros j factor Hj.
    destruct (Hslots j factor Hj) as (factor' & Hf' & Hrot).
    exists factor'. split; [exact Hf'|].
    destruct (j <? index)%nat eqn:Elt.
    + apply Nat.ltb_lt in Elt.
      replace (j <? S index)%nat with true in Hrot by (symmetry; apply Nat.ltb_lt; lia).
      exact Hrot.
    + apply Nat.ltb_ge in Elt.
      destruct (decide (j = index)) as [->|Hne].
      * rewrite Nat.sub_diag. cbn [lookup list_lookup].
        replace (index <? S index)%nat with true in Hrot by (symmetry; apply Nat.ltb_lt; lia).
        exact Hrot.
      * replace (j <? S index)%nat with false in Hrot by (symmetry; apply Nat.ltb_ge; lia).
        replace (j - index)%nat with (S (j - S index)) by lia. exact Hrot.
Qed.

Section Rotation.
Context `{Secrets} `{KdfEngines}.

(** C8. After a successful derivation the new policy is the policy but for
    the params of its factors, which are as many and in the same order, each
    with the id, the type and the pad it had. The params of a factor are
    unchanged when [factors] has no function under its id, and when the
    material this function returned has no [params] function; when it has
    one, [f], the params are what [f({ key })] returned. *)
Theorem derive_rotates_deferred_only (policy : Policy)
    (factors : gmap string (dyn FactorFn)) (g g' : rng) (dk : DerivedKey) :
  derive_key policy factors g = Ok (dk, g') ->
  (p_schema (dk_policy dk) = p_schema policy
   /\ p_id (dk_policy dk) = p_id policy
   /\ p_size (dk_policy dk) = p_size policy
   /\ p_threshold (dk_policy dk) = p_threshold policy
   /\ p_salt (dk_policy dk) = p_salt policy
   /\ p_kdf (dk_policy dk) = p_kdf policy)
  /\ length (p_factors (dk_policy dk)) = length (p_factors policy)
  /\ forall i factor, p_factors policy !! i = Some factor ->
       exists factor',
         p_factors (dk_policy dk) !! i = Some factor'
         /\ pf_id factor' = pf_id factor
         /\ pf_type factor' = pf_type factor
         /\ pf_pad factor' = pf_pad factor
         /\ match factor_function factors (pf_id factor) with
            | None => pf_params factor' = pf_params factor
            | Some produce =>
                exists material g1 g2,
                  produce (pf_params factor) g1 = Ok (Obj material, g2)
                  /\ match m_params material with
                     | NotFn _ => pf_params factor' = pf_params factor
                     | Fn f =>
                         exists g3 g4, f (dk_key dk) g3 = Ok (pf_params factor', g4)
                     end
            end.
Proof.
  unfold derive_key. intros Hrun. run_inv Hrun.
  destruct a as [shares newFactors]. cbn [fst snd] in *.
  unfold ret in Hrun. injection Hrun as <- <-.
  cbn [dk_policy dk_key]. rewrite policy_clone_id in *.
  cbn [p_factors with_factors p_schema p_id p_size p_threshold p_salt p_kdf].
  apply derive_factors_Ok in Hstep1 as (_ & Hlen & Hslots).
  apply rotate_Ok in Hstep5 as [Hrlen Hrot].
  split; [auto 10|]. split; [exact Hrlen|].
  intros i factor Hi.
  destruct (Hrot i factor Hi) as (factor' & Hf' & Hid & Hty & Hpad & Hr).
  exists factor'. split; [exact Hf'|]. split; [exact Hid|].
  split; [exact Hty|]. split; [exact Hpad|].
  destruct (Hslots i factor Hi) as (sh & nf & ga & gb & _ & Hnf & Hf).
  cbn in Hr. rewrite Nat.sub_0_r, Hnf in Hr.
  apply derive_factor_Ok in Hf
    as [(-> & _ & -> & _)|(produce & material & -> & Hp & -> & _)].
  - exact Hr.
  - exists material, ga, gb. split; [exact Hp|].
    destruct (m_params material) as [f|v]; [|exact Hr].
    exact Hr.
Qed.

End Rotation.

(** ** The checks of the setup *)

Lemma is_empty_true (s : string) : is_empty s = true <-> s = EmptyString.
Proof. destruct s; cbn; split; congruence. Qed.

Lemma is_empty_false (s : string) : is_empty s = false <-> s <> EmptyString.
Proof. destruct s; cbn; split; congruence. Qed.

Lemma check_factor_Ok (factor : Factor) (c : CheckedFactor) :
  check_factor (Obj factor) = Ok c ->
  f_type factor = VString (cf_type c) /\ cf_type c <> EmptyString
  /\ f_id factor = VString (cf_id c) /\ cf_id c <> EmptyString
  /\ f_data factor = VBuffer (cf_data c) /\ cf_data c <> []
  /\ f_params factor = Fn (cf_params c)
  /\ cf_entropy c = f_entropy factor
  /\ cf_output c = f_output factor.
Proof.
  unfold check_factor.
  destruct (f_type factor) as [| | | |type| | | |]; try discriminate.
  destruct (is_empty type) eqn:Et; [discriminate|].
  destruct (f_id factor) as [| | | |id| | | |]; try discriminate.
  destruct (is_empty id) eqn:Ei; [discriminate|].
  destruct (f_data factor) as [| | | | |data| | |]; try discriminate.
  destruct data as [|b data]; [discriminate|]. cbn [length Nat.eqb].
  destruct (f_params factor) as [params|v]; [|discriminate].
  intros [= <-]. cbn. apply is_empty_false in Et, Ei. repeat split; auto.
Qed.

(** Only an object passes the checks. *)
Lemma check_factor_object (element : maybe Factor) (c : CheckedFactor) :
  check_factor element = Ok c -> exists factor, element = Obj factor.
Proof. destruct element; try discriminate. eauto. Qed.

Lemma check_factor_well_formed (factor : Factor) (c : CheckedFactor) :
  check_factor (Obj factor) = Ok c -> factor_well_formed factor.
Proof.
  intros Hc. apply check_factor_Ok in Hc as (Ht & Ht' & Hi & Hi' & Hd & Hd' & Hp & _).
  unfold factor_well_formed.
  split; [|split; [|split]]; eexists; eauto.
Qed.

Lemma check_factor_Err (element : maybe Factor) (e : error) :
  check_factor element = Err e ->
  InvalidArgument e
  /\ forall factor, element = Obj factor -> ~ factor_well_formed factor.
Proof.
  unfold check_factor, factor_well_formed, InvalidArgument, setup_argument_errors.
  destruct element as [| |factor].
  1, 2: intros [= <-]; split; [cbn; tauto|discriminate].
  intros Hc. split.
  - destruct (f_type factor) as [| | | |type| | | |]; try (injection Hc as <-; cbn; tauto).
    destruct (is_empty type); [injection Hc as <-; cbn; tauto|].
    destruct (f_id factor) as [| | | |id| | | |]; try (injection Hc as <-; cbn; tauto).
    destruct (is_empty id); [injection Hc as <-; cbn; tauto|].
    destruct (f_data factor) as [| | | | |data| | |]; try (injection Hc as <-; cbn; tauto).
    destruct (length data =? 0)%nat; [injection Hc as <-; cbn; tauto|].
    destruct (f_params factor) as [params|v]; [discriminate|].
    injection Hc as <-; cbn; tauto.
  - intros factor' [= <-]
      ((type & Ht & Ht') & (id & Hi & Hi') & (data & Hd & Hd') & (params & Hp)).
    rewrite Ht, Hi, Hd, Hp in Hc.
    apply is_empty_false in Ht', Hi'. rewrite Ht', Hi' in Hc.
    destruct data as [|b data]; [congruence|]. discriminate.
Qed.

Lemma check_factors_Ok (elements : list (maybe Factor)) (checked : list CheckedFactor) :
  check_factors elements = Ok checked ->
  exists fs,
    elements = map Obj fs
    /\ Forall2 (fun factor c => check_factor (Obj factor) = Ok c) fs checked.
Proof.
  revert checked. induction elements as [|element rest IH]; intros checked.
  - intros [= <-]. exists []. split; [reflexivity|constructor].
  - cbn [check_factors].
    destruct (check_factor element) as [c|e] eqn:Ec; [|discriminate].
    destruct (check_factors rest) as [cs|e]; [|discriminate].
    intros [= <-].
    destruct (check_factor_object _ _ Ec) as [factor ->].
    destruct (IH cs eq_refl) as (fs & -> & Hall).
    exists (factor :: fs). split; [reflexivity|]. constructor; auto.
Qed.

Lemma check_factors_Err (elements : list (maybe Factor)) (e : error) :
  check_factors elements = Err e ->
  InvalidArgument e
  /\ forall fs, elements = map Obj fs -> ~ Forall factor_well_formed fs.
Proof.
  induction elements as [|element rest IH]; [discriminate|].
  cbn [check_factors].
  destruct (check_factor element) as [c|e'] eqn:Ec.
  - destruct (check_factors rest) as [cs|e'']; [discriminate|].
    intros [= <-]. destruct IH as [He Hn]; [reflexivity|].
    split; [exact He|]. intros [|f fs]; [discriminate|]. intros [= -> ->] Hall.
    apply (Hn fs eq_refl). now inversion Hall.
  - intros [= <-]. apply check_factor_Err in Ec as [He Hn].
    split; [exact He|]. intros [|f fs]; [discriminate|]. intros [= -> ->] Hall.
    apply (Hn f eq_refl). now inversion Hall.
Qed.

Lemma check_factors_well_formed (fs : list Factor) (checked : list CheckedFactor) :
  Forall2 (fun factor c => check_factor (Obj factor) = Ok c) fs checked ->
  Forall factor_well_formed fs.
Proof.
  intros Hc.
  induction Hc as [|factor c fs cs Hc _ IH]; constructor; auto.
  eapply check_factor_well_formed; eauto.
Qed.

Lemma check_factors_ids (fs : list Factor) (checked : list CheckedFactor) :
  Forall2 (fun factor c => check_factor (Obj factor) = Ok c) fs checked ->
  map f_id fs = map (fun c => VString (cf_id c)) checked.
Proof.
  intros Hc.
  induction Hc as [|factor c fs cs Hc _ IH]; [reflexivity|].
  cbn [map]. apply check_factor_Ok in Hc as (_ & _ & -> & _). now rewrite IH.
Qed.

(** [new Set(ids).size === ids.length] says that no id occurs twice. *)
Lemma size_list_to_set_le (ids : list string) :
  (size (list_to_set ids : gset string) <= length ids)%nat.
Proof.
  induction ids as [|id ids IH]; cbn [list_to_set length].
  - now rewrite size_empty.
  - rewrite size_union_alt, size_singleton.
    pose proof (subseteq_size (list_to_set ids ∖ {[id]}) (list_to_set ids : gset string)
                  (subseteq_difference_l _ _ _ (reflexivity _))) as Hsub.
    lia.
Qed.

Lemma ids_unique_NoDup (ids : list string) : ids_unique ids = true <-> NoDup ids.
Proof.
  unfold ids_unique. rewrite Nat.eqb_eq. split.
  - induction ids as [|id ids IH]; [constructor|].
    cbn [list_to_set length]. intros Hs.
    pose proof (size_list_to_set_le ids) as Hle.
    destruct (decide (id ∈ ids)) as [Hin|Hnin].
    + exfalso.
      assert ({[id]} ∪ list_to_set ids = (list_to_set ids : gset string)) as E.
      { apply set_eq. intros x. rewrite elem_of_union, elem_of_singleton.
        rewrite !elem_of_list_to_set. split; [intros [->|]|]; auto. }
      rewrite E in Hs. lia.
    + constructor; [exact Hnin|]. apply IH.
      rewrite size_union in Hs.
      * rewrite size_singleton in Hs. lia.
      * apply disjoint_singleton_l. now rewrite elem_of_list_to_set.
  - apply size_list_to_set.
Qed.

Lemma NoDup_VString (ids : list string) :
  NoDup (map VString ids) <-> NoDup ids.
Proof.
  split.
  - apply NoDup_fmap_1.
  - apply NoDup_fmap_2. intros a b [= ->]. reflexivity.
Qed.

Section SetupChecks.
Context `{KdfSetup}.

(** What a successful run of the checks has established. *)
Lemma setup_checks_Ok (factors : FactorsArg) (options : Options) (g g' : rng)
    (args : SetupArgs) :
  setup_checks factors options g = Ok (args, g') ->
  exists fs,
    factors = FactorArray (map Obj fs)
    /\ fs <> []
    /\ Forall2 (fun factor c => check_factor (Obj factor) = Ok c) fs (sa_factors args)
    /\ NoDup (map cf_id (sa_factors args))
    /\ effective_size options = VNumber (Int (sa_size args))
    /\ 0 < sa_size args
    /\ effective_threshold options (length fs) = VNumber (Int (sa_threshold args))
    /\ 1 <= sa_threshold args <= Z.of_nat (length fs).
Proof.
  destruct factors as [elements|v]; [|discriminate].
  unfold setup_checks, effective_size, effective_threshold.
  set (opts := assign defaults_key options).
  intros Hrun. run_inv Hrun.
  match goal with
  | Hc : check_factors elements = Ok _ |- _ =>
      apply check_factors_Ok in Hc as (fs & -> & Hall)
  end.
  exists fs. rewrite length_map in *.
  repeat match goal with
         | Hm : (match ?v with _ => _ end) _ = Ok _ |- _ =>
             destruct v eqn:?; try discriminate Hm
         end;
  repeat match goal with
         | Hm : ret _ _ = Ok _ |- _ => unfold ret in Hm; injection Hm as ? ?
         end;
  subst; cbn [sa_factors sa_size sa_threshold];
  match goal with Hu : ids_unique _ = true |- _ => apply ids_unique_NoDup in Hu end;
  (destruct fs as [|f fs]; [discriminate|]);
  repeat split; auto; try lia; congruence.
Qed.

Lemma crypto_randomBytes_Err (size : Z) (g : rng) (e : error) :
  crypto_randomBytes size g = Err e -> e = RangeError "ERR_OUT_OF_RANGE".
Proof.
  unfold crypto_randomBytes. destruct (_ || _); [now intros [= <-]|discriminate].
Qed.

Lemma crypto_randomBytes_Ok (size : Z) (g g' : rng) (r : bytes) :
  crypto_randomBytes size g = Ok (r, g') ->
  0 <= size <= 2147483647 /\ (r, g') = randomBytes (Z.to_nat size) g.
Proof.
  unfold crypto_randomBytes.
  destruct (size <? 0) eqn:E1; [discriminate|].
  destruct (2147483647 <? size) eqn:E2; [discriminate|].
  cbn [orb]. unfold call.
  destruct (randomBytes (Z.to_nat size) g) as [r0 g0]. intros [= -> ->].
  split; [lia|reflexivity].
Qed.

(** The checks throw argument errors only (or what [kdfSetup] throws). *)
Lemma setup_checks_Err (factors : FactorsArg) (options : Options) (g : rng) (e : error) :
  setup_checks factors options g = Err e ->
  InvalidArgument e \/ exists o, kdfSetup o = Err e.
Proof.
  destruct factors as [fs|v].
  2: { intros [= <-]. left. unfold InvalidArgument. cbn. tauto. }
  unfold setup_checks. set (opts := assign defaults_key options).
  intros Hrun.
  repeat match type of Hrun with
         | bind _ _ _ = Err _ =>
             let a := fresh "a" in
             let g := fresh "g" in
             let H1 := fresh "Hstep" in
             apply bind_Err in Hrun;
             destruct Hrun as [Hrun|(a & g & H1 & Hrun)];
             [ try (apply require_Err in Hrun as [_ ->]; left;
                    unfold InvalidArgument; cbn; tauto) | ]
         end.
  all: repeat match type of Hrun with
              | (match ?v with _ => _ end) _ = Err _ => destruct v eqn:?
              end.
  all: try discriminate Hrun.
  all: try (unfold throw in Hrun; injection Hrun as <-; left;
            unfold InvalidArgument; cbn; tauto).
  all: try (unfold bind, call, ret in Hrun;
            match type of Hrun with
            | context [uuidv4 ?g] => destruct (uuidv4 g)
            end; discriminate Hrun).
  all: try (apply bind_Err in Hrun as [Hrun|(? & ? & _ & Hrun)];
            [apply crypto_randomBytes_Err in Hrun as ->; left;
             unfold InvalidArgument; cbn; tauto
            |discriminate Hrun]).
  all: unfold lift in Hrun;
       match type of Hrun with
       | context [match ?r with _ => _ end] => destruct r eqn:Er
       end; try discriminate Hrun; injection Hrun as <-.
  all: first [ right; eexists; exact Er
             | left; now apply check_factors_Err in Er ].
Qed.

End SetupChecks.

Section SetupKey.
Context `{Secrets} `{KdfSetup} `{KdfEngines}.

Lemma setup_key_Ok (factors : FactorsArg) (options : Options) (g g' : rng)
    (dk : DerivedKey) :
  setup_key factors options g = Ok (dk, g') ->
  exists args g1,
    setup_checks factors options g = Ok (args, g1)
    /\ setup_generate args g1 = Ok (dk, g').
Proof. unfold setup_key. intros Hrun. now apply bind_Ok in Hrun. Qed.

(** C5. [setup.key] checks its arguments before anything else. When it
    returns, [factors] is a non-empty array of factors with a non-empty string
    [type] and [id], a non-empty Buffer [data] and a function [params], the
    ids are pairwise distinct, the size is a positive integer, and the
    threshold (the number of factors when the option is omitted) is an integer
    between 1 and the number of factors. When one of these fails, [setup.key]
    throws, and what the checks throw is one of the argument errors of the
    setup (InvalidArgument) or the error [kdfSetup] threw for its options. *)
Theorem setup_validates_arguments (factors : FactorsArg) (options : Options) (g : rng) :
  (forall dk g', setup_key factors options g = Ok (dk, g') ->
                 setup_arguments_ok factors options)
  /\ (~ setup_arguments_ok factors options ->
      exists e, setup_key factors options g = Err e
                /\ setup_checks factors options g = Err e
                /\ (InvalidArgument e \/ exists o, kdfSetup o = Err e)).
Proof.
  assert (forall args g1, setup_checks factors options g = Ok (args, g1) ->
                          setup_arguments_ok factors options) as Hok.
  { intros args g1 Hc.
    apply setup_checks_Ok in Hc
      as (fs & -> & Hne & Hcheck & Hnd & Hsize & Hpos & Hthr & Hrange).
    exists fs. split; [reflexivity|]. split; [exact Hne|].
    split; [eapply check_factors_well_formed; eauto|].
    split.
    { rewrite (check_factors_ids _ _ Hcheck).
      rewrite <- (map_map cf_id VString). now apply NoDup_VString. }
    split; eauto. }
  split.
  - intros dk g' Hrun. apply setup_key_Ok in Hrun as (args & g1 & Hc & _). eauto.
  - intros Hbad. unfold setup_key. rewrite bind_run.
    destruct (setup_checks factors options g) as [[args g1]|e] eqn:Ec.
    + destruct Hbad. eauto.
    + exists e. repeat split; auto. eapply setup_checks_Err; eauto.
Qed.

End SetupKey.

(** ** The entropy report *)


Lemma foldr_add_Permutation (xs ys : list Z) :
  xs ≡ₚ ys -> foldr Z.add 0 xs = foldr Z.add 0 ys.
Proof.
  induction 1 as [|x xs ys _ IH|x y xs|xs ys zs _ IH1 _ IH2]; cbn [foldr]; lia.
Qed.

#[local] Instance Zle_antisymm : AntiSymm (=) Z.le.
Proof. intros x y ? ?. lia. Qed.


(** The sum of the [t] smallest values is one number. *)
Lemma sum_of_smallest_unique (t : nat) (xs : list Z) (s1 s2 : Z) :
  sum_of_smallest t xs s1 -> sum_of_smallest t xs s2 -> s1 = s2.
Proof.
  assert (forall s, sum_of_smallest t xs s ->
                    s = foldr Z.add 0 (take t (merge_sort Z.le xs))) as Hcanon.
  { intros s (chosen & rest & Hperm & Hlen & Hle & ->).
    assert (merge_sort Z.le chosen ++ merge_sort Z.le rest = merge_sort Z.le xs) as E.
    { apply (StronglySorted_unique Z.le).
      - apply StronglySorted_app_2.
        + intros c r Hc Hr. apply Hle.
          * now rewrite <- (merge_sort_Permutation Z.le chosen).
          * now rewrite <- (merge_sort_Permutation Z.le rest).
        + apply (StronglySorted_merge_sort Z.le).
        + apply (StronglySorted_merge_sort Z.le).
      - apply (StronglySorted_merge_sort Z.le).
      - now rewrite !merge_sort_Permutation, Hperm. }
    rewrite <- E, take_app_length'.
    - apply foldr_add_Permutation. symmetry. apply merge_sort_Permutation.
    - rewrite <- Hlen. apply Permutation_length. symmetry.
      apply merge_sort_Permutation. }
  intros H1 H2. now rewrite (Hcanon _ H1), (Hcanon _ H2).
Qed.

(** ** The report on integers *)









(** ** The loop of the setup *)

Section SetupLoop.

(** What the loop over the factors adds to what it builds. *)
Lemma setup_factors_Ok (key : bytes) (size : Z) (shares : list bytes)
    (factors : list CheckedFactor) :
  forall (index : nat) (st st' : SetupLoop) (g g' : rng),
  setup_factors key size shares index factors st g = Ok (st', g') ->
  exists added,
    sl_factors st' = sl_factors st ++ added
    /\ length added = length factors
    /\ sl_theoretical st'
       = sl_theoretical st ++ map (fun c => Z.of_nat (length (cf_data c)) * 8) factors
    /\ sl_real st' = sl_real st ++ map cf_entropy factors
    /\ forall i c, factors !! i = Some c ->
         exists pf out g1 g2,
           added !! i = Some pf
           /\ setup_factor key size shares (index + i) c g1 = Ok ((pf, out), g2).
Proof.
  induction factors as [|factor rest IH]; intros index st st' g g'.
  - cbn [setup_factors]. unfold ret. intros [= <- <-].
    exists []. rewrite !app_nil_r. repeat split; auto. intros i c Hi. discriminate.
  - cbn [setup_factors]. rewrite bind_run.
    destruct (setup_factor key size shares index factor g) as [[[pf out] g1]|e] eqn:E;
      [|discriminate].
    rewrite bind_run. cbn [fst snd].
    destruct (set_output (cf_id factor) out (sl_outputs st) g1) as [[outputs g2]|e];
      [|discriminate].
    intros Hrest. apply IH in Hrest as (added & Hf & Hlen & Ht & Hr & Hslots).
    cbn [sl_factors sl_theoretical sl_real fst snd] in *.
    exists (pf :: added).
    rewrite Hf, Ht, Hr, <- !app_assoc. cbn [app length map].
    repeat split; auto.
    intros [|i] c Hi.
    + injection Hi as <-. exists pf, out, g, g1. rewrite Nat.add_0_r. auto.
    + destruct (Hslots i c Hi) as (pf' & out' & ga & gb & Hl & Hs).
      exists pf', out', ga, gb. split; [exact Hl|].
      now replace (index + S i)%nat with (S index + i)%nat by lia.
Qed.

End SetupLoop.

Section Entropy.
Context `{Secrets} `{KdfSetup} `{KdfEngines}.



End Entropy.

(** ** The pad of a factor *)

Lemma alloc_length (n : nat) : length (alloc n) = n.
Proof. apply repeat_length. Qed.

(** When the buffer to xor with is at least [size] bytes long, the stretched
    material gets the zero bytes that make it as long. *)
Lemma left_pad_eq (stretched : bytes) (size : Z) (len : nat) :
  (Z.to_nat size <= len)%nat -> 0 <= size ->
  left_pad stretched size len = alloc (len - Z.to_nat size) ++ stretched.
Proof.
  intros Hl Hs. unfold left_pad.
  destruct (size <? Z.of_nat len) eqn:E; [reflexivity|].
  replace (len - Z.to_nat size)%nat with 0%nat by lia. reflexivity.
Qed.

Lemma left_pad_length (stretched : bytes) (size : Z) (len : nat) :
  (Z.to_nat size <= len)%nat -> 0 <= size -> length stretched = Z.to_nat size ->
  length (left_pad stretched size len) = len.
Proof.
  intros Hl Hs Hst. rewrite left_pad_eq by assumption.
  rewrite length_app, alloc_length. lia.
Qed.

(** Lines 133-149 of the setup, taken apart. *)
Lemma setup_factor_Ok (key : bytes) (size : Z) (shares : list bytes) (index : nat)
    (factor : CheckedFactor) (g g' : rng) (pf : PolicyFactor) (out : value) :
  setup_factor key size shares index factor g = Ok ((pf, out), g') ->
  exists stretched share g1 output,
    hkdf sha512 (cf_data factor) [] [] size = Ok stretched
    /\ shares !! index = Some share
    /\ pf_id pf = cf_id factor
    /\ pf_type pf = cf_type factor
    /\ pf_pad pf = base64_encode (xor share (left_pad stretched size (length share)))
    /\ cf_params factor key g = Ok (pf_params pf, g1)
    /\ cf_output factor = Fn output
    /\ output g1 = Ok (out, g').
Proof.
  unfold setup_factor, bind, lift, ret, throw.
  destruct (hkdf sha512 (cf_data factor) [] [] size) as [stretched|e]; [|discriminate].
  destruct (shares !! index) as [share|]; [|discriminate].
  destruct (cf_params factor key g) as [[params g1]|e]; [|discriminate].
  destruct (cf_output factor) as [output|v]; [|discriminate].
  destruct (output g1) as [[o g2]|e] eqn:Eo; [|discriminate].
  intros [= <- <- <-]. exists stretched, share, g1, output. cbn. auto 10.
Qed.

(** The derivation recovers a share from its pad. *)
Lemma derive_factor_inverts_pad (size : Z) (factors : gmap string (dyn FactorFn))
    (pf : PolicyFactor) (produce : FactorFn) (material : Material)
    (share stretched data : bytes) (g g' : rng) :
  hkdf sha512 data [] [] size = Ok stretched ->
  (Z.to_nat size <= length share)%nat ->
  pf_pad pf = base64_encode (xor share (left_pad stretched size (length share))) ->
  factors !! pf_id pf = Some (Fn produce) ->
  produce (pf_params pf) g = Ok (Obj material, g') ->
  m_type material <> VString "persisted" ->
  m_type material = VString (pf_type pf) ->
  m_data material = VBuffer data ->
  let pad := base64_decode (pf_pad pf) in
  xor pad (alloc (length pad - Z.to_nat size) ++ stretched) = share
  /\ derive_factor size factors pf g
     = Ok ((VBuffer share, m_params material), g').
Proof.
  intros Hhkdf Hlen Hpad Hlookup Hproduce Hnp Hty Hdata pad.
  pose proof (hkdf_length _ _ _ _ _ _ Hhkdf) as [Hsize Hstretched].
  rewrite left_pad_eq in Hpad by lia.
  set (padded := alloc (length share - Z.to_nat size) ++ stretched) in *.
  assert (length padded = length share) as Hpadded.
  { unfold padded. rewrite length_app, alloc_length. lia. }
  assert (pad = xor share padded) as Hdecode.
  { unfold pad. rewrite Hpad. apply base64_decode_encode. }
  assert (length pad = length share) as Hxor.
  { rewrite Hdecode, xor_length. lia. }
  assert (xor pad (alloc (length pad - Z.to_nat size) ++ stretched) = share) as Hinv.
  { rewrite Hxor. fold padded. rewrite Hdecode. apply xor_cancel_r. lia. }
  split; [exact Hinv|].
  apply factor_function_own in Hlookup.
  rewrite (derive_factor_stretched size _ _ _ _ _ _ data stretched
             Hlookup Hproduce Hnp Hty); auto.
  - fold pad. rewrite left_pad_eq by lia. now rewrite Hinv.
  - now rewrite Hdata.
Qed.

(** C4. For a factor at index [i] whose share [s] is at least [size] bytes
    long, the setup records the pad [s xor stretched], where [stretched] is
    the HKDF-SHA512 of the factor's data (salt and info empty) on [size]
    bytes, with [|s| - size] zero bytes in front; and the derivation inverts
    it: from the recorded pad and a material of the factor's type with the
    same data it computes [base64decode(pad) xor stretched], with the same
    zero bytes in front, which is [s]. *)
Theorem pad_construction_and_inversion (key : bytes) (size : Z) (shares : list bytes)
    (index : nat) (factor : CheckedFactor) (g g' : rng) (pf : PolicyFactor)
    (out : value) (share : bytes) :
  setup_factor key size shares index factor g = Ok ((pf, out), g') ->
  shares !! index = Some share ->
  (Z.to_nat size <= length share)%nat ->
  exists stretched,
    hkdf sha512 (cf_data factor) [] [] size = Ok stretched
    /\ length stretched = Z.to_nat size
    /\ pf_pad pf
       = base64_encode (xor share (alloc (length share - Z.to_nat size) ++ stretched))
    /\ forall (factors : gmap string (dyn FactorFn)) (produce : FactorFn)
              (material : Material) (g2 g3 : rng),
         factors !! pf_id pf = Some (Fn produce) ->
         produce (pf_params pf) g2 = Ok (Obj material, g3) ->
         m_type material <> VString "persisted" ->
         m_type material = VString (pf_type pf) ->
         m_data material = VBuffer (cf_data factor) ->
         let pad := base64_decode (pf_pad pf) in
         xor pad (alloc (length pad - Z.to_nat size) ++ stretched) = share
         /\ derive_factor size factors pf g2
            = Ok ((VBuffer share, m_params material), g3).
Proof.
  intros Hsetup Hshare Hlen.
  apply setup_factor_Ok in Hsetup
    as (stretched & share' & g1 & output & Hhkdf & Hshare' & Hid & Htype & Hpad & _).
  rewrite Hshare in Hshare'. injection Hshare' as <-.
  pose proof (hkdf_length _ _ _ _ _ _ Hhkdf) as [Hsize Hstretched].
  exists stretched.
  split; [exact Hhkdf|]. split; [exact Hstretched|].
  split; [now rewrite Hpad, left_pad_eq by lia|].
  intros factors produce material g2 g3 Hlookup Hproduce Hnp Hty Hdata.
  now apply derive_factor_inverts_pad with (produce := produce) (data := cf_data factor).
Qed.

(** [crypto.randomBytes(n)] returns [n] bytes. *)
Lemma randomBytes_length (n : nat) (g : rng) : length (fst (randomBytes n g)) = n.
Proof. unfold randomBytes. cbn [fst]. now rewrite length_map, length_seq. Qed.

(** ** The hmacsha1 factor *)

Lemma hmacsha1_Ok (options : HmacSha1Options) (g g' : rng) (factor : Factor) :
  hmacsha1 options g = Ok (factor, g') ->
  exists id secret,
    length secret = 20%nat
    /\ factor = {| f_type := VString "hmacsha1";
                   f_id := VString id;
                   f_data := VBuffer secret;
                   f_entropy := VNumber (Int 160);
                   f_params := Fn (hmacsha1_params secret);
                   f_output := Fn (ret (VObject [("secret"%string, VBuffer secret)])) |}.
Proof.
  unfold hmacsha1. intros Hrun. run_inv Hrun.
  repeat match goal with
         | Hm : (match ?v with _ => _ end) _ = Ok _ |- _ =>
             destruct v eqn:?; try discriminate Hm
         end;
  repeat match goal with
         | Hm : ret _ _ = Ok _ |- _ => unfold ret in Hm; injection Hm as ? ?
         end;
  subst;
  match goal with Hl : (length _ =? 20)%nat = true |- _ => apply Nat.eqb_eq in Hl end;
  eauto.
Qed.

(** What the [params] function of the factor returns. *)
Lemma hmacsha1_params_spec (secret key : bytes) (g : rng) :
  length secret = 20%nat ->
  exists challenge pad,
    hmacsha1_params secret key g
    = Ok ([("challenge", JString challenge); ("pad", JString pad)]%string,
          snd (randomBytes 64 g))
    /\ unhex challenge = fst (randomBytes 64 g)
    /\ xor (unhex pad)
           (firstn 20 (hmac (hash sha1) (hash_block sha1) secret (unhex challenge)))
       = secret.
Proof.
  intros Hlen. unfold hmacsha1_params, bind, call, ret.
  destruct (randomBytes 64 g) as [challenge g3] eqn:Er.
  eexists. eexists. cbn [fst snd]. split; [reflexivity|].
  rewrite !unhex_hex. split; [reflexivity|].
  apply xor_cancel_l.
  rewrite length_take, hmac_length, Hlen. reflexivity.
Qed.

(** C10. For the factor [hmacsha1] sets up, with its 20-byte secret, and for
    every key: the params its [params] function returns are a challenge and a
    pad, in hex, such that the pad xored with the first 20 bytes of
    HMAC-SHA1(secret, challenge) is the secret. *)
Theorem hmacsha1_params_reconstruct (options : HmacSha1Options) (g g' : rng)
    (factor : Factor) :
  hmacsha1 options g = Ok (factor, g') ->
  exists secret params,
    f_data factor = VBuffer secret
    /\ length secret = 20%nat
    /\ f_params factor = Fn params
    /\ forall key g2, exists challenge pad g3,
         params key g2
         = Ok ([("challenge", JString challenge); ("pad", JString pad)]%string, g3)
         /\ length (unhex challenge) = 64%nat
         /\ xor (unhex pad)
                (firstn 20 (hmac (hash sha1) (hash_block sha1) secret (unhex challenge)))
            = secret.
Proof.
  intros Hrun. apply hmacsha1_Ok in Hrun as (id & secret & Hlen & ->).
  exists secret, (hmacsha1_params secret). cbn [f_data f_params].
  repeat split; auto.
  intros key g2.
  destruct (hmacsha1_params_spec secret key g2 Hlen) as (challenge & pad & Hrun & Hc & Hx).
  exists challenge, pad, (snd (randomBytes 64 g2)).
  split; [exact Hrun|]. split; [|exact Hx].
  rewrite Hc. apply randomBytes_length.
Qed.

(** ** Setup, then derive *)




Section RoundTrip.
Context `{Secrets} `{KdfSetup} `{KdfEngines}.



End RoundTrip.

(** ** The example sharing meets the contract *)









(** ** Examples: the theorems at concrete inputs *)

Section Examples.

#[local] Existing Instance simple_secrets.
#[local] Existing Instance pbkdf2_engine.
#[local] Existing Instance pbkdf2_setup.

(** The goal says that a computation returns a value with a property:
    evaluate it, give the value it returns, and keep the run as [E]. *)
Ltac take_value E :=
  lazymatch goal with
  | |- exists a g, ?c = _ /\ _ =>
      let r := eval vm_compute in c in
      lazymatch r with
      | Ok (?a0, ?g0) =>
          assert (c = Ok (a0, g0)) as E by (vm_compute; reflexivity);
          exists a0, g0; split; [exact E|]
      end
  end.




(** One entry for a policy of threshold 2. *)
Lemma derive_insufficient_shares_witness :
  policy_valid (example_policy 2) = true
  /\ Z.of_nat (size password_only) = p_threshold (example_policy 2) - 1
  /\ derive_key (example_policy 2) password_only example_rng = Err InsufficientShares.
Proof.
  split; [reflexivity|]. split; [reflexivity|].
  exact (proj2 (proj2 (derive_insufficient_shares (example_policy 2) password_only
                         example_rng eq_refl)) eq_refl).
Defined.

(** The second slot of the policy, with a material of type "persisted" and
    with a material of another type than the slot's. *)
Lemma derive_persisted_or_type_mismatch_witness :
  p_factors (example_policy 1) = [password_slot] ++ qrcode_slot :: []
  /\ qrcode_persisted !! pf_id qrcode_slot
     = Some (Fn (plain_material "persisted" (bytes_of_string "a share, as it is")))
  /\ derive_factor 16 qrcode_persisted qrcode_slot example_rng
     = Ok ((VBuffer (bytes_of_string "a share, as it is"), NotFn VUndefined), example_rng)
  /\ qrcode_mismatch !! pf_id qrcode_slot
     = Some (Fn (plain_material "password" (bytes_of_string "correct horse")))
  /\ derive_key (example_policy 1) qrcode_mismatch example_rng = Err FactorTypeMismatch.
Proof.
  split; [reflexivity|]. split; [reflexivity|]. split.
  - exact (proj1 (proj1 (derive_persisted_or_type_mismatch (example_policy 1)
                           qrcode_persisted [password_slot] [] qrcode_slot
                           (plain_material "persisted" (bytes_of_string "a share, as it is"))
                           _ example_rng example_rng example_rng
                           eq_refl eq_refl eq_refl) eq_refl)).
  - split; [reflexivity|].
    refine (proj2 (proj2 (derive_persisted_or_type_mismatch (example_policy 1)
                            qrcode_mismatch [password_slot] [] qrcode_slot
                            (plain_material "password" (bytes_of_string "correct horse"))
                            _ example_rng example_rng example_rng
                            eq_refl eq_refl eq_refl) _ _) eq_refl _ _).
    + cbn. discriminate.
    + cbn. discriminate.
    + vm_compute. discriminate.
    + eexists. reflexivity.
Defined.

(** A share of 20 bytes for a key of 16 bytes: the setup of the factor, and
    its derivation from the pad. *)
Lemma pad_construction_and_inversion_witness :
  exists r g',
    setup_factor (bytes_of_string "a key") 16 [example_share] 0 example_checked example_rng
      = Ok (r, g')
    /\ [example_share] !! 0%nat = Some example_share
    /\ (Z.to_nat 16 <= length example_share)%nat
    /\ exists stretched,
         hkdf sha512 (cf_data example_checked) [] [] 16 = Ok stretched
         /\ pf_pad (fst r)
            = base64_encode (xor example_share (alloc (20 - 16) ++ stretched))
         /\ derive_factor 16 password_only (fst r) example_rng
            = Ok ((VBuffer example_share, NotFn VUndefined), example_rng).
Proof.
  take_value E.
  split; [reflexivity|]. split; [vm_compute; lia|].
  destruct (pad_construction_and_inversion _ _ _ _ _ _ _ _ _ example_share E eq_refl
              ltac:(vm_compute; lia))
    as (stretched & Hh & _ & Hpad & Hinv).
  exists stretched. split; [exact Hh|]. split; [exact Hpad|].
  refine (proj2 (Hinv password_only
                   (plain_material "password" (bytes_of_string "correct horse"))
                   _ example_rng example_rng eq_refl eq_refl _ eq_refl eq_refl)).
  cbn. discriminate.
Defined.

(** Duplicate ids are refused; the two example factors are accepted. *)
Lemma setup_validates_arguments_witness :
  (exists dk g',
     setup_key (FactorArray (map Obj example_factors)) (example_options None) example_rng
       = Ok (dk, g')
     /\ setup_arguments_ok (FactorArray (map Obj example_factors)) (example_options None))
  /\ ~ setup_arguments_ok (FactorArray [Obj example_password; Obj example_password])
                          (example_options None)
  /\ exists e,
       setup_key (FactorArray [Obj example_password; Obj example_password])
                 (example_options None) example_rng = Err e
       /\ setup_checks (FactorArray [Obj example_password; Obj example_password])
                       (example_options None) example_rng = Err e
       /\ (InvalidArgument e \/ exists o, kdfSetup o = Err e).
Proof.
  assert (~ setup_arguments_ok (FactorArray [Obj example_password; Obj example_password])
                               (example_options None)) as Hbad.
  { intros (fs & Heq & _ & _ & Hnd & _). injection Heq as Heq.
    apply (map_Obj_inj [example_password; example_password]) in Heq. subst fs.
    cbn [map] in Hnd. apply NoDup_cons in Hnd as [Hnin _]. apply Hnin. left. }
  split.
  - take_value E.
    exact (proj1 (setup_validates_arguments _ _ example_rng) _ _ E).
  - split; [exact Hbad|].
    exact (proj2 (setup_validates_arguments _ _ example_rng) Hbad).
Defined.


(** The entropy of a factor is not checked: for a factor that has none the
    setup returns, and the real entropy it reports is no number of bits. *)
Lemma real_entropy_of_no_entropy :
  f_entropy factor_without_entropy = VUndefined
  /\ exists dk g',
       setup_key (FactorArray [Obj factor_without_entropy])
                 (example_options (Some (VNumber (Int 1)))) example_rng = Ok (dk, g')
       /\ p_threshold (dk_policy dk) = 1
       /\ dk_entropyBits dk = Some (104, NaN)
       /\ forall s, dk_entropyBits dk <> Some (104, Bits s).
Proof.
  split; [reflexivity|].
  take_value E.
  split; [reflexivity|]. split; [reflexivity|]. intros s.
  cbn [dk_entropyBits]. discriminate.
Qed.

(** A derivation with the password alone, whose material has params that
    depend on the key: the password's slot gets them, the other slot is as it
    was. *)
Lemma derive_rotates_deferred_only_witness :
  exists dk g',
    derive_key (example_policy 1) password_rotating example_rng = Ok (dk, g')
    /\ p_factors (dk_policy dk) !! 0%nat
       = Some (set_params password_slot [("key", JString (hex (dk_key dk)))]%string)
    /\ p_factors (dk_policy dk) !! 1%nat = Some qrcode_slot.
Proof.
  take_value E.
  destruct (derive_rotates_deferred_only _ _ _ _ _ E) as (_ & _ & Hslots).
  clear E. split.
  - destruct (Hslots 0%nat password_slot eq_refl)
      as (factor' & Hf & Hid & Hty & Hpad & Hd).
    change (factor_function password_rotating (pf_id password_slot))
      with (Some (rotating_material "password" (bytes_of_string "correct horse")))
      in Hd.
    destruct Hd as (material & g1 & g2 & Hcall & Hd).
    injection Hcall as <- _. cbn [m_params] in Hd.
    destruct Hd as (g3 & g4 & Hd). injection Hd as Hd _.
    rewrite Hf. f_equal. destruct factor' as [fid fty fpad fparams].
    cbn [pf_id pf_type pf_pad pf_params password_slot] in Hid, Hty, Hpad, Hd.
    subst. reflexivity.
  - destruct (Hslots 1%nat qrcode_slot eq_refl)
      as (factor' & Hf & Hid & Hty & Hpad & Hd).
    change (factor_function password_rotating (pf_id qrcode_slot))
      with (@None FactorFn) in Hd.
    rewrite Hf. f_equal. destruct factor' as [fid fty fpad fparams].
    cbn [pf_id pf_type pf_pad pf_params qrcode_slot] in Hid, Hty, Hpad, Hd.
    subst. reflexivity.
Defined.



(** The factor of a given secret, and the params it makes. *)
Lemma hmacsha1_params_reconstruct_witness :
  hmacsha1 {| ho_id := None; ho_secret := Some (VBuffer example_secret) |} example_rng
  = Ok (example_hmacsha1, example_rng)
  /\ exists secret params,
       f_data example_hmacsha1 = VBuffer secret
       /\ length secret = 20%nat
       /\ f_params example_hmacsha1 = Fn params
       /\ forall key g2, exists challenge pad g3,
            params key g2
            = Ok ([("challenge", JString challenge); ("pad", JString pad)]%string, g3)
            /\ length (unhex challenge) = 64%nat
            /\ xor (unhex pad)
                   (firstn 20 (hmac (hash sha1) (hash_block sha1) secret (unhex challenge)))
               = secret.
Proof.
  split; [reflexivity|].
  exact (hmacsha1_params_reconstruct
           {| ho_id := None; ho_secret := Some (VBuffer example_secret) |}
           example_rng example_rng example_hmacsha1 eq_refl).
Defined.

End Examples.

(* ===================================================================== *)
(** * Part III. More of the code *)
(* ===================================================================== *)

(** ** What a successful setup has done *)

Section SetupRun.
Context `{Secrets} `{KdfSetup} `{KdfEngines}.

Lemma FactorArray_inj (fs fs' : list Factor) :
  FactorArray (map Obj fs) = FactorArray (map Obj fs') -> fs = fs'.
Proof. intros [= Heq]. now apply map_Obj_inj. Qed.

(** The steps of [setup.key], when it returns. *)
Lemma setup_key_run (factors : FactorsArg) (options : Options) (g g' : rng)
    (dk : DerivedKey) :
  setup_key factors options g = Ok (dk, g') ->
  exists args g0 gs gh secret key shares st,
    setup_checks factors options g = Ok (args, g0)
    /\ crypto_randomBytes (sa_size args) g0 = Ok (secret, gs)
    /\ kdf secret (base64_decode (sa_salt args)) (sa_size args) (sa_kdf args) = Ok key
    /\ share secret (sa_threshold args) (Z.of_nat (length (sa_factors args))) gs
       = Ok (shares, gh)
    /\ setup_factors key (sa_size args) shares 0 (sa_factors args) setup_loop_start gh
       = Ok (st, g')
    /\ dk = {| dk_policy :=
                 {| p_schema := "https://mfkdf.com/schema/v1.0.0/policy.json";
                    p_id := sa_id args; p_size := sa_size args;
                    p_threshold := sa_threshold args;
                    p_salt := sa_salt args; p_kdf := sa_kdf args;
                    p_factors := sl_factors st |};
               dk_key := key; dk_secret := secret; dk_shares := shares;
               dk_outputs := Some (sl_outputs st);
               dk_entropyBits :=
                 Some (entropy_sum (sl_theoretical st) (sa_threshold args),
                       entropy_real (sl_real st) (sa_threshold args)) |}.
Proof.
  intros Hsetup.
  apply setup_key_Ok in Hsetup as (args & g0 & Hchecks & Hgen).
  unfold setup_generate in Hgen.
  apply bind_Ok in Hgen as (secret & gs & Hsecret & Hgen).
  apply bind_Ok in Hgen as (key & gk & Hkey & Hgen).
  apply lift_Ok in Hkey as (key' & Hkey & [= <- <-]).
  apply bind_Ok in Hgen as (shares & gh & Hshare & Hgen).
  apply bind_Ok in Hgen as (st & gl & Hloop & Hgen).
  unfold ret in Hgen. injection Hgen as <- <-.
  exists args, g0, gk, gh, secret, key, shares, st. auto 10.
Qed.

(** What the setup records for each factor. *)
Lemma setup_key_slots (fs : list Factor) (options : Options) (g g' : rng)
    (dk : DerivedKey) :
  setup_key (FactorArray (map Obj fs)) options g = Ok (dk, g') ->
  length (p_factors (dk_policy dk)) = length fs
  /\ forall i factor, fs !! i = Some factor ->
       exists pf c share stretched,
         p_factors (dk_policy dk) !! i = Some pf
         /\ check_factor (Obj factor) = Ok c
         /\ dk_shares dk !! i = Some share
         /\ hkdf sha512 (cf_data c) [] [] (p_size (dk_policy dk)) = Ok stretched
         /\ pf_id pf = cf_id c
         /\ pf_type pf = cf_type c
         /\ pf_pad pf
            = base64_encode
                (xor share (left_pad stretched (p_size (dk_policy dk)) (length share)))
         /\ exists g1 g2, cf_params c (dk_key dk) g1 = Ok (pf_params pf, g2).
Proof.
  intros Hsetup.
  apply setup_key_run in Hsetup
    as (args & g0 & gs & gh & secret & key & shares & st
        & Hchecks & _ & _ & _ & Hloop & ->).
  apply setup_checks_Ok in Hchecks as (fs' & Heq & _ & Hcheck & _).
  apply FactorArray_inj in Heq as <-.
  apply setup_factors_Ok in Hloop as (added & Hadded & Hlen & _ & _ & Hslots).
  cbn [setup_loop_start sl_factors app] in Hadded.
  cbn [dk_policy dk_shares dk_key p_factors p_size]. rewrite Hadded.
  pose proof (Forall2_length _ _ _ Hcheck) as Hl.
  split; [lia|].
  intros i factor Hi.
  destruct (Forall2_lookup_l _ _ _ _ _ Hcheck Hi) as (c & Hc & Hcf).
  destruct (Hslots i c Hc) as (pf & out & g1 & g2 & Hpf & Hsf).
  cbn [Nat.add] in Hsf.
  apply setup_factor_Ok in Hsf
    as (stretched & share & gc & output & Hhkdf & Hsh & Hid & Hty & Hpad & Hparams & _).
  exists pf, c, share, stretched. eauto 14.
Qed.

(** HKDF gives at most 255 blocks. *)
Lemma hkdf_bound (d : Digest) (ikm salt info out : bytes) (keylen : Z) :
  hkdf d ikm salt info keylen = Ok out -> keylen <= 255 * Z.of_nat (hash_len d).
Proof.
  unfold hkdf. intros E.
  destruct (length ikm =? 0)%nat; [discriminate|].
  destruct (1024 <? length info)%nat; [discriminate|].
  destruct (keylen <? 1); [discriminate|].
  destruct (255 * Z.of_nat (hash_len d) <? keylen) eqn:Hk; [discriminate|]. lia.
Qed.

(** The policy [setup.key] returns has the schema's address, the size and the
    threshold the options give (the number of factors when they give no
    threshold), and one entry per factor, in the order of the factors, with
    the id and the type of its factor. *)
Theorem setup_policy_shape (fs : list Factor) (options : Options) (g g' : rng)
    (dk : DerivedKey) :
  setup_key (FactorArray (map Obj fs)) options g = Ok (dk, g') ->
  p_schema (dk_policy dk) = "https://mfkdf.com/schema/v1.0.0/policy.json"%string
  /\ effective_size options = VNumber (Int (p_size (dk_policy dk)))
  /\ effective_threshold options (length fs) = VNumber (Int (p_threshold (dk_policy dk)))
  /\ map (fun pf => VString (pf_id pf)) (p_factors (dk_policy dk)) = map f_id fs
  /\ map (fun pf => VString (pf_type pf)) (p_factors (dk_policy dk)) = map f_type fs.
Proof.
  intros Hsetup.
  pose proof (setup_key_slots _ _ _ _ _ Hsetup) as [Hlen Hslots].
  apply setup_key_run in Hsetup
    as (args & g0 & gs & gh & secret & key & shares & st & Hchecks & _ & _ & _ & _ & ->).
  apply setup_checks_Ok in Hchecks as (fs' & Heq & _ & _ & _ & Hsize & _ & Hthr & _).
  apply FactorArray_inj in Heq as <-.
  cbn [dk_policy p_schema p_size p_threshold p_factors] in *.
  split; [reflexivity|]. split; [exact Hsize|]. split; [exact Hthr|].
  split; apply list_eq; intros i; rewrite !list_lookup_fmap;
    (destruct (fs !! i) as [factor|] eqn:Hi;
     [ destruct (Hslots i factor Hi) as (pf & c & _ & _ & -> & Hc & _ & _ & Hid & Hty & _);
       apply check_factor_Ok in Hc as (Hft & _ & Hfi & _); cbn; congruence
     | apply lookup_ge_None in Hi;
       rewrite (proj2 (lookup_ge_None (sl_factors st) i)) by lia; reflexivity ]).
Qed.

(** What [setup.key] returns beside the policy: a secret of [size] random
    bytes, the key, which is the KDF of the secret under the salt, the size
    and the KDF of the policy, and a share for every factor. *)
Theorem setup_key_of_secret (fs : list Factor) (options : Options) (g g' : rng)
    (dk : DerivedKey) :
  setup_key (FactorArray (map Obj fs)) options g = Ok (dk, g') ->
  length (dk_secret dk) = Z.to_nat (p_size (dk_policy dk))
  /\ kdf (dk_secret dk) (base64_decode (p_salt (dk_policy dk))) (p_size (dk_policy dk))
         (p_kdf (dk_policy dk)) = Ok (dk_key dk)
  /\ (length fs <= length (dk_shares dk))%nat.
Proof.
  intros Hsetup.
  pose proof (setup_key_slots _ _ _ _ _ Hsetup) as [_ Hslots].
  apply setup_key_run in Hsetup
    as (args & g0 & gs & gh & secret & key & shares & st & _ & Hsecret & Hkey & _ & _ & ->).
  cbn [dk_policy dk_secret dk_key dk_shares p_size p_salt p_kdf] in *.
  split.
  { apply crypto_randomBytes_Ok in Hsecret as [_ Hr].
    apply (f_equal fst) in Hr. cbn [fst] in Hr. rewrite Hr. apply randomBytes_length. }
  split; [exact Hkey|].
  destruct fs as [|f0 fs0] eqn:Efs; [cbn; lia|]. rewrite <- Efs in *.
  destruct (lookup_lt_is_Some_2 fs (length fs - 1)) as [factor Hf].
  { rewrite Efs. cbn. lia. }
  destruct (Hslots _ _ Hf) as (_ & _ & share & _ & _ & _ & Hsh & _).
  apply lookup_lt_Some in Hsh. rewrite Efs in *. cbn [length] in *. lia.
Qed.

(** The pad the policy holds for a factor decodes to as many bytes as the
    factor's share has, and to [size] bytes at least. *)
Theorem setup_pad_length (fs : list Factor) (options : Options) (g g' : rng)
    (dk : DerivedKey) (i : nat) (pf : PolicyFactor) :
  setup_key (FactorArray (map Obj fs)) options g = Ok (dk, g') ->
  p_factors (dk_policy dk) !! i = Some pf ->
  exists share,
    dk_shares dk !! i = Some share
    /\ length (base64_decode (pf_pad pf))
       = Nat.max (length share) (Z.to_nat (p_size (dk_policy dk))).
Proof.
  intros Hsetup Hpf.
  pose proof (setup_key_slots _ _ _ _ _ Hsetup) as [Hlen Hslots].
  destruct (lookup_lt_is_Some_2 fs i) as [factor Hf].
  { apply lookup_lt_Some in Hpf. lia. }
  destruct (Hslots _ _ Hf) as (pf' & c & share & stretched & Hpf' & _ & Hsh & Hh & _ & _ & Hpad & _).
  rewrite Hpf in Hpf'. injection Hpf' as <-.
  exists share. split; [exact Hsh|].
  rewrite Hpad, base64_decode_encode, xor_length.
  apply hkdf_length in Hh as [Hsize Hst].
  unfold left_pad.
  destruct (p_size (dk_policy dk) <? Z.of_nat (length share)) eqn:E.
  - rewrite length_app, alloc_length, Hst. lia.
  - rewrite Hst. lia.
Qed.

(** [setup.key] returns for key sizes up to 16320 bytes only, the most the
    HKDF with SHA-512 gives. *)
Theorem setup_size_bound (fs : list Factor) (options : Options) (g g' : rng)
    (dk : DerivedKey) :
  setup_key (FactorArray (map Obj fs)) options g = Ok (dk, g') ->
  1 <= p_size (dk_policy dk) <= 16320.
Proof.
  intros Hsetup.
  pose proof (setup_key_slots _ _ _ _ _ Hsetup) as [_ Hslots].
  apply setup_key_Ok in Hsetup as Hrun. destruct Hrun as (args & g0 & Hchecks & _).
  apply setup_checks_Ok in Hchecks as (fs' & Heq & Hne & _).
  apply FactorArray_inj in Heq as <-.
  destruct fs as [|f0 fs0]; [congruence|].
  destruct (Hslots 0%nat f0 eq_refl) as (_ & c & _ & stretched & _ & _ & _ & Hh & _).
  pose proof (hkdf_length _ _ _ _ _ _ Hh) as [Hlow _].
  apply hkdf_bound in Hh. cbn [hash_len] in Hh. lia.
Qed.

(** The salt and the id the checks put in the policy. *)
Lemma setup_checks_salt_id (fs : list Factor) (options : Options) (g g' : rng)
    (args : SetupArgs) :
  setup_checks (FactorArray (map Obj fs)) options g = Ok (args, g') ->
  (forall salt, prop (o_salt options) = VBuffer salt -> sa_salt args = base64_encode salt)
  /\ (prop (o_salt options) = VUndefined ->
      exists salt, sa_salt args = base64_encode salt /\ length salt = Z.to_nat (sa_size args))
  /\ (forall id, prop (o_id options) = VString id -> sa_id args = id)
  /\ sa_id args <> EmptyString.
Proof.
  unfold setup_checks.
  set (opts := assign defaults_key options).
  assert (prop (o_salt opts) = prop (o_salt options)) as Hsalt.
  { unfold opts, assign, defaults_key. cbn. now destruct (o_salt options). }
  assert (prop (o_id opts) = prop (o_id options)) as Hid.
  { unfold opts, assign, defaults_key. cbn. now destruct (o_id options). }
  rewrite Hsalt, Hid.
  intros Hrun. run_inv Hrun.
  unfold ret in Hrun. injection Hrun as <- <-. cbn [sa_salt sa_size sa_id].
  split; [|split; [|split]].
  - intros salt Hs. rewrite Hs in Hstep8. cbn in Hstep8. unfold ret in Hstep8.
    injection Hstep8 as <- <-. cbn in Hstep9. unfold ret in Hstep9.
    now injection Hstep9 as <- _.
  - intros Hs. rewrite Hs in Hstep8. cbn [is_undefined] in Hstep8.
    apply bind_Ok in Hstep8 as (r & gr & Hr & Hret).
    unfold ret in Hret. injection Hret as <- <-.
    cbn in Hstep9. unfold ret in Hstep9. injection Hstep9 as <- _.
    exists r. split; [reflexivity|].
    apply crypto_randomBytes_Ok in Hr as [_ Hr].
    apply (f_equal fst) in Hr. cbn [fst] in Hr. rewrite Hr. apply randomBytes_length.
  - intros id Hi. rewrite Hi in Hstep0. cbn in Hstep0. unfold ret in Hstep0.
    injection Hstep0 as <- <-. cbn in Hstep1. unfold ret in Hstep1.
    now injection Hstep1 as <- _.
  - intros ->. discriminate.
Qed.

(** The salt of the policy is the base64 of the salt of the options, which
    decodes to it; with no salt in the options it decodes to [size] bytes, the
    random salt. The id of the policy is the id of the options when they have
    one, and is never empty. *)
Theorem setup_salt_and_id (fs : list Factor) (options : Options) (g g' : rng)
    (dk : DerivedKey) :
  setup_key (FactorArray (map Obj fs)) options g = Ok (dk, g') ->
  (forall salt, prop (o_salt options) = VBuffer salt ->
     base64_decode (p_salt (dk_policy dk)) = salt)
  /\ (prop (o_salt options) = VUndefined ->
      length (base64_decode (p_salt (dk_policy dk))) = Z.to_nat (p_size (dk_policy dk)))
  /\ (forall id, prop (o_id options) = VString id -> p_id (dk_policy dk) = id)
  /\ p_id (dk_policy dk) <> EmptyString.
Proof.
  intros Hsetup.
  apply setup_key_run in Hsetup
    as (args & g0 & gs & gh & secret & key & shares & st & Hchecks & _ & _ & _ & _ & ->).
  apply setup_checks_salt_id in Hchecks as (Hgiven & Hrandom & Hid & Hne).
  cbn [dk_policy p_salt p_size p_id].
  split; [|split; [|split]]; auto.
  - intros salt Hs. now rewrite (Hgiven salt Hs), base64_decode_encode.
  - intros Hs. destruct (Hrandom Hs) as (salt & -> & Hl).
    now rewrite base64_decode_encode.
Qed.




End SetupRun.

(** ** What the derivation reads *)

Section DeriveReads.
Context `{Secrets} `{KdfEngines}.



(** A factor of the policy whose id is ['toString'] or ['isPrototypeOf'] and
    that the map has no entry for is not skipped: [factors[id]] is the
    function [Object.prototype] has under this name, what it returns has no
    [type], and the derivation throws the error of a wrong material. *)
Theorem derive_calls_inherited_function (size : Z) (factors : gmap string (dyn FactorFn))
    (slot : PolicyFactor) (g : rng) :
  factors !! pf_id slot = None ->
  pf_id slot = "toString"%string \/ pf_id slot = "isPrototypeOf"%string ->
  derive_factor size factors slot g = Err FactorTypeMismatch.
Proof.
  intros Hl Hid. unfold derive_factor, factor_function. rewrite Hl.
  destruct Hid as [-> | ->]; reflexivity.
Qed.

End DeriveReads.

(** ** Recovery: materials that hold a share *)

Section Recovery.
Context `{Secrets} `{KdfSetup} `{KdfEngines}.



End Recovery.

(** ** The qrcode factor of the derivation: src/derive/factors/qrcode.js *)

(** The factor [derive.factors.qrcode] returns. *)
Lemma derive_qrcode_Ok `{Zxcvbn} (username salt : value) (produce : FactorFn) :
  derive_qrcode username salt = Ok produce ->
  exists u s,
    username = VString u /\ u <> EmptyString
    /\ salt = VString s /\ s <> EmptyString
    /\ forall params g,
         exists material f,
           produce params g = Ok (Obj material, g)
           /\ m_type material = VString "qrcode"
           /\ m_data material = VBuffer (bytes_of_string (u ++ s))
           /\ m_params material = Fn f
           /\ forall key g2, f key g2 = Ok (params, g2).
Proof.
  unfold derive_qrcode.
  destruct username as [| | | |u| | | |]; try discriminate.
  destruct u as [|a u]; [discriminate|]. cbn [is_empty].
  destruct salt as [| | | |s| | | |]; try discriminate.
  destruct s as [|b s]; [discriminate|]. cbn [is_empty].
  intros [= <-].
  exists (String a u), (String b s).
  split; [reflexivity|]. split; [discriminate|].
  split; [reflexivity|]. split; [discriminate|].
  intros params g. eexists. eexists.
  split; [reflexivity|]. cbn [m_type m_data m_params].
  split; [reflexivity|]. split; [reflexivity|]. split; reflexivity.
Qed.

(** What [derive.factors.qrcode(username, salt)] throws, the check of the
    username first; and the factor it returns otherwise, for a non-empty
    username and a non-empty salt: called with the params of a slot it
    returns a material of type "qrcode" whose data is the username followed
    by the salt, and whose [params] function returns the params the factor
    was called with, whatever the key. *)
Theorem derive_qrcode_result `{Zxcvbn} (username salt : value) :
  match derive_qrcode username salt with
  | Err e =>
      (e = TypeError "username must be a string" /\ forall u, username <> VString u)
      \/ (e = RangeError "username cannot be empty" /\ username = VString "")
      \/ (e = TypeError "salt must be a string"
          /\ (exists u, username = VString u /\ u <> EmptyString)
          /\ forall s, salt <> VString s)
      \/ (e = RangeError "salt cannot be empty"
          /\ (exists u, username = VString u /\ u <> EmptyString)
          /\ salt = VString "")
  | Ok produce =>
      exists u s,
        username = VString u /\ u <> EmptyString
        /\ salt = VString s /\ s <> EmptyString
        /\ forall params g,
             exists material f,
               produce params g = Ok (Obj material, g)
               /\ m_type material = VString "qrcode"
               /\ m_data material = VBuffer (bytes_of_string (u ++ s))
               /\ m_params material = Fn f
               /\ forall key g2, f key g2 = Ok (params, g2)
  end.
Proof.
  destruct (derive_qrcode username salt) as [produce|e] eqn:E;
    [now apply derive_qrcode_Ok|].
  unfold derive_qrcode in E.
  destruct username as [| | | |u| | | |];
    try (injection E as <-; left; split; [reflexivity|intros ?; discriminate]).
  destruct u as [|a u]; cbn [is_empty] in E.
  { injection E as <-. right. left. split; reflexivity. }
  assert (exists u0, VString (String a u) = VString u0 /\ u0 <> EmptyString) as Hu
    by (eexists; split; [reflexivity|discriminate]).
  destruct salt as [| | | |s| | | |];
    try (injection E as <-; right; right; left; split; [reflexivity|]; split; [exact Hu|];
         intros ?; discriminate).
  destruct s as [|b s]; cbn [is_empty] in E; [|discriminate].
  injection E as <-.
  right. right. right. split; [reflexivity|]. split; [exact Hu|reflexivity].
Qed.

Section QrcodeRotation.
Context `{Secrets} `{KdfEngines} `{Zxcvbn}.

(** The factors of the new policy, slot by slot: the params of a slot whose
    function returned a material with a [params] function are what this
    function returned. *)
Lemma derive_key_slots (policy : Policy) (factors : gmap string (dyn FactorFn))
    (g g' : rng) (dk : DerivedKey) :
  derive_key policy factors g = Ok (dk, g') ->
  forall i factor produce, p_factors policy !! i = Some factor ->
    factor_function factors (pf_id factor) = Some produce ->
    exists factor' material g1 g2,
      p_factors (dk_policy dk) !! i = Some factor'
      /\ produce (pf_params factor) g1 = Ok (Obj material, g2)
      /\ rotated (dk_key dk) (Some (m_params material)) factor factor'.
Proof.
  unfold derive_key. intros Hrun. run_inv Hrun.
  destruct a as [shares newFactors]. cbn [fst snd] in *.
  unfold ret in Hrun. injection Hrun as <- <-.
  cbn [dk_policy dk_key]. rewrite policy_clone_id in *.
  cbn [p_factors with_factors].
  apply derive_factors_Ok in Hstep1 as (_ & Hlen & Hslots).
  apply rotate_Ok in Hstep5 as [Hrlen Hrot].
  intros i factor produce Hi Hfn.
  destruct (Hrot i factor Hi) as (factor' & Hf' & Hr).
  destruct (Hslots i factor Hi) as (sh & nf & ga & gb & _ & Hnf & Hf).
  cbn in Hr. rewrite Nat.sub_0_r, Hnf in Hr.
  apply derive_factor_Ok in Hf
    as [(Hnone & _)|(produce' & material & Hfn' & Hp & -> & _)]; [congruence|].
  assert (produce' = produce) as -> by congruence.
  exists factor', material, ga, gb. auto.
Qed.

(** A derivation leaves the slot of a qrcode factor as it is: the factor's
    [params] function gives back the params of the policy. *)
Theorem derive_qrcode_keeps_slot (policy : Policy) (factors : gmap string (dyn FactorFn))
    (g g' : rng) (dk : DerivedKey) (username salt : value) (produce : FactorFn)
    (i : nat) (slot : PolicyFactor) :
  derive_qrcode username salt = Ok produce ->
  derive_key policy factors g = Ok (dk, g') ->
  p_factors policy !! i = Some slot ->
  factors !! pf_id slot = Some (Fn produce) ->
  p_factors (dk_policy dk) !! i = Some slot.
Proof.
  intros Hq Hrun Hi Hl.
  apply derive_qrcode_Ok in Hq as (u & s & _ & _ & _ & _ & Hm).
  destruct (derive_key_slots _ _ _ _ _ Hrun i slot produce Hi (factor_function_own _ _ _ Hl))
    as (slot' & material & g1 & g2 & Hs' & Hcall & Hid & Hty & Hpad & Hparams).
  destruct (Hm (pf_params slot) g1) as (material' & f & Hcall' & _ & _ & Hf & Hret).
  rewrite Hcall in Hcall'. injection Hcall' as <- _.
  rewrite Hf in Hparams. destruct Hparams as (g3 & g4 & Hparams).
  rewrite Hret in Hparams. injection Hparams as Hparams _.
  rewrite Hs'. f_equal.
  destruct slot, slot'. cbn in *. congruence.
Qed.

End QrcodeRotation.

(** ** The hmacsha1 factor of the setup: src/setup/factors/hmacsha1.js *)

(** What [hmacsha1(options)] throws, in the order of its checks: for the id
    first, and for the secret only when the id is a non-empty string; and the
    factor it returns otherwise. Its data is a secret of 20 bytes: the secret
    of the options, and then no random byte is drawn, or with no secret in
    the options the next 20 bytes of the random stream. Its [output] function
    returns the secret. *)
Theorem hmacsha1_result (options : HmacSha1Options) (g : rng) :
  let id := prop (assign_prop (Some (VString "hmacsha1")) (ho_id options)) in
  let given := prop (ho_secret options) in
  match hmacsha1 options g with
  | Err e =>
      (e = TypeError "id must be a string" /\ forall s, id <> VString s)
      \/ (e = RangeError "id cannot be empty" /\ id = VString "")
      \/ (e = TypeError "secret must be a buffer"
          /\ (exists s, id = VString s /\ s <> EmptyString)
          /\ given <> VUndefined /\ forall b, given <> VBuffer b)
      \/ (e = RangeError "secret must be 20 bytes"
          /\ (exists s, id = VString s /\ s <> EmptyString)
          /\ exists b, given = VBuffer b /\ length b <> 20%nat)
  | Ok (factor, g') =>
      exists s secret output,
        id = VString s /\ s <> EmptyString
        /\ f_id factor = VString s
        /\ f_type factor = VString "hmacsha1"
        /\ f_entropy factor = VNumber (Int 160)
        /\ f_data factor = VBuffer secret /\ length secret = 20%nat
        /\ (given = VUndefined ->
            secret = fst (randomBytes 20 g) /\ g' = snd (randomBytes 20 g))
        /\ (given <> VUndefined -> given = VBuffer secret /\ g' = g)
        /\ f_output factor = Fn output
        /\ forall g2, output g2 = Ok (VObject [("secret"%string, VBuffer secret)], g2)
  end.
Proof.
  cbv zeta. unfold hmacsha1.
  destruct (prop (assign_prop (Some (VString "hmacsha1")) (ho_id options)))
    as [| | | |s| | | |] eqn:Eid;
    try (left; split; [reflexivity|intros ?; discriminate]).
  rewrite bind_run. unfold ret at 1.
  destruct s as [|a s]; cbn [is_empty negb].
  { right. left. split; reflexivity. }
  assert (exists s0, VString (String a s) = VString s0 /\ s0 <> EmptyString) as Hs
    by (eexists; split; [reflexivity|discriminate]).
  rewrite bind_run, require_true, bind_run.
  destruct (prop (ho_secret options)) as [| | | | |b| | |] eqn:Es; cbn [is_undefined];
    unfold bind, call, ret, throw;
    try (right; right; left; split; [reflexivity|]; split; [exact Hs|];
         split; [discriminate|intros ?; discriminate]).
  - (* no secret *)
    pose proof (randomBytes_length 20 g) as Hl.
    destruct (randomBytes 20 g) as [r g1]. cbn [fst snd] in *.
    rewrite Hl. cbn [Nat.eqb require ret].
    eexists _, r, _. repeat split; try reflexivity; try discriminate; try exact Hl.
    all: congruence.
  - (* a secret *)
    destruct (Nat.eqb_spec (length b) 20) as [Hb|Hb]; cbn [require ret throw].
    + eexists _, b, _. repeat split; try reflexivity; try discriminate; try exact Hb.
    + right. right. right. split; [reflexivity|]. split; [exact Hs|]. eauto.
Qed.

(** The factors [hmacsha1] returns pass the checks [setup.key] makes on a
    factor. *)
Theorem hmacsha1_factor_checks (options : HmacSha1Options) (g g' : rng) (factor : Factor) :
  hmacsha1 options g = Ok (factor, g') ->
  exists c, check_factor (Obj factor) = Ok c /\ cf_type c = "hmacsha1"%string.
Proof.
  intros Hrun. unfold hmacsha1 in Hrun. run_inv Hrun.
  apply Nat.eqb_eq in Hstep3.
  unfold ret in Hrun. injection Hrun as <- <-.
  unfold check_factor. cbn [f_type f_id f_data f_params f_entropy f_output is_empty].
  destruct a as [|c0 a]; [discriminate|]. cbn [is_empty].
  rewrite Hstep3. cbn [Nat.eqb]. eauto.
Qed.

Section SetupHmacsha1.
Context `{Secrets} `{KdfSetup} `{KdfEngines}.

(** The policy of a setup holds, for an hmacsha1 factor, a challenge and a
    pad: the pad xored with the first 20 bytes of the HMAC-SHA1 of the
    challenge under the factor's secret is the secret, the data of the
    factor. *)
Theorem setup_stores_hmacsha1_challenge (fs : list Factor) (options : Options)
    (g g' gh gh' : rng) (dk : DerivedKey) (ho : HmacSha1Options) (factor : Factor)
    (i : nat) :
  hmacsha1 ho gh = Ok (factor, gh') ->
  fs !! i = Some factor ->
  setup_key (FactorArray (map Obj fs)) options g = Ok (dk, g') ->
  exists pf secret challenge pad,
    p_factors (dk_policy dk) !! i = Some pf
    /\ pf_type pf = "hmacsha1"%string
    /\ f_data factor = VBuffer secret
    /\ pf_params pf = [("challenge", JString challenge); ("pad", JString pad)]%string
    /\ length (unhex challenge) = 64%nat
    /\ xor (unhex pad)
           (firstn 20 (hmac (hash sha1) (hash_block sha1) secret (unhex challenge)))
       = secret.
Proof.
  intros Hh Hi Hsetup.
  apply hmacsha1_Ok in Hh as (id & secret & Hlen & ->).
  apply setup_key_slots in Hsetup as [_ Hslots].
  destruct (Hslots i _ Hi)
    as (pf & c & share & stretched & Hpf & Hc & _ & _ & _ & Hty & _ & g1 & g2 & Hparams).
  apply check_factor_Ok in Hc as (Hft & _ & _ & _ & _ & _ & Hfp & _).
  cbn [f_type f_params f_data] in *. injection Hft as Hft. injection Hfp as Hfp.
  destruct (hmacsha1_params_spec secret (dk_key dk) g1 Hlen)
    as (challenge & pad & Hrun & Hch & Hxor).
  exists pf, secret, challenge, pad.
  split; [exact Hpf|]. split; [congruence|]. split; [reflexivity|].
  split; [rewrite <- Hfp, Hrun in Hparams; now injection Hparams as <- _|].
  split; [now rewrite Hch, randomBytes_length|exact Hxor].
Qed.

End SetupHmacsha1.

(** ** The qrcode factor of the setup: src/setup/factors/qrcode.js *)

Lemma hex_length (bs : bytes) : String.length (hex bs) = (2 * length bs)%nat.
Proof.
  induction bs as [|b bs IH]; [reflexivity|].
  cbn [hex String.length length]. rewrite IH. lia.
Qed.

Lemma hex_not_empty (bs : bytes) : bs <> [] -> is_empty (hex bs) = false.
Proof. destruct bs; [congruence|reflexivity]. Qed.

Section SetupQrcode.
Context `{Zxcvbn} `{Log2Guesses}.

(** The factor [setup.factors.qrcode] returns is made of the username and of
    a salt of 32 random bytes, printed in hex (64 characters) with a notice;
    [derive.factors.qrcode] with this username and the printed salt returns a
    function, and what this function returns, whatever the params, is a
    material with the type and the data of the factor. The factor passes the
    checks [setup.key] makes on a factor. *)
Theorem setup_qrcode_then_derive (username : value) (options : QrcodeOptions)
    (g g' : rng) (printed : list string) (factor : Factor) :
  setup_qrcode username options g = (printed, Ok (factor, g')) ->
  exists u salt produce,
    username = VString u
    /\ printed = [qrcode_salt_notice; salt]
    /\ salt = hex (fst (randomBytes 32 g))
    /\ String.length salt = 64%nat
    /\ g' = snd (randomBytes 32 g)
    /\ derive_qrcode (VString u) (VString salt) = Ok produce
    /\ (forall params g2,
          exists material,
            produce params g2 = Ok (Obj material, g2)
            /\ m_type material = f_type factor
            /\ m_data material = f_data factor)
    /\ exists c, check_factor (Obj factor) = Ok c /\ cf_type c = "qrcode"%string.
Proof.
  unfold setup_qrcode.
  destruct username as [| | | |u| | | |]; try discriminate.
  destruct u as [|a u]; [discriminate|]. cbn [is_empty].
  pose proof (randomBytes_length 32 g) as Hl.
  destruct (randomBytes 32 g) as [r g1]. cbn [fst snd] in *.
  assert (is_empty (hex r) = false) as Hne.
  { apply hex_not_empty. intros ->. discriminate. }
  rewrite Hne.
  destruct (prop (assign_prop _ (qo_id options))) as [| | | |id| | | |]; try discriminate.
  destruct id as [|i0 id]; [discriminate|]. cbn [is_empty].
  destruct (if is_undefined _ then _ else _) as [| | | |q| | | |]; try discriminate.
  intros [= <- <- <-].
  exists (String a u), (hex r). eexists.
  split; [reflexivity|]. split; [reflexivity|]. split; [reflexivity|].
  split; [rewrite hex_length, Hl; reflexivity|]. split; [reflexivity|].
  split.
  { unfold derive_qrcode. cbn [is_empty]. rewrite Hne. reflexivity. }
  split.
  { intros params g2. eexists. split; [reflexivity|]. split; reflexivity. }
  unfold check_factor. cbn. eauto.
Qed.

(** What [setup.factors.qrcode] does, in the order of its checks. For a
    username that is not a string or is empty it throws, and nothing is drawn
    or printed. For a non-empty username the salt is drawn and printed, and
    then it throws for an id that is not a string; for an empty id; and, the
    id being a non-empty string, for a [qrcode] option that is neither
    [undefined] nor a string. It returns in the one case that is left, and
    never throws for the salt. *)
Theorem setup_qrcode_result (username : value) (options : QrcodeOptions) (g : rng) :
  let id := prop (assign_prop (Some (VString "qrcode")) (qo_id options)) in
  let qrcode := prop (qo_qrcode options) in
  let salt := hex (fst (randomBytes 32 g)) in
  let name := exists u, username = VString u /\ u <> EmptyString in
  match setup_qrcode username options g with
  | (printed, Err e) =>
      (printed = [] /\ e = TypeError "username must be a string"
       /\ forall u, username <> VString u)
      \/ (printed = [] /\ e = RangeError "username cannot be empty"
          /\ username = VString "")
      \/ (printed = [qrcode_salt_notice; salt] /\ name
          /\ e = TypeError "id must be a string" /\ forall s, id <> VString s)
      \/ (printed = [qrcode_salt_notice; salt] /\ name
          /\ e = RangeError "id cannot be empty" /\ id = VString "")
      \/ (printed = [qrcode_salt_notice; salt] /\ name
          /\ e = TypeError "qrcode must be a string"
          /\ (exists s, id = VString s /\ s <> EmptyString)
          /\ qrcode <> VUndefined /\ forall q, qrcode <> VString q)
  | (printed, Ok (factor, g')) =>
      printed = [qrcode_salt_notice; salt] /\ name
      /\ (exists s, id = VString s /\ s <> EmptyString)
      /\ (qrcode = VUndefined \/ exists q, qrcode = VString q)
  end.
Proof.
  cbv zeta. unfold setup_qrcode.
  destruct username as [| | | |u| | | |];
    try (left; repeat split; intros ?; discriminate).
  destruct u as [|a u]; cbn [is_empty].
  { right. left. repeat split. }
  assert (exists u0, VString (String a u) = VString u0 /\ u0 <> EmptyString) as Hu
    by (eexists; split; [reflexivity|discriminate]).
  pose proof (randomBytes_length 32 g) as Hl.
  destruct (randomBytes 32 g) as [r g1]. cbn [fst snd] in *.
  assert (is_empty (hex r) = false) as Hne.
  { apply hex_not_empty. intros ->. discriminate. }
  rewrite Hne.
  destruct (prop (assign_prop _ (qo_id options))) as [| | | |id| | | |];
    try (right; right; left; split; [reflexivity|]; split; [exact Hu|];
         split; [reflexivity|intros ?; discriminate]).
  destruct id as [|i0 id]; cbn [is_empty].
  { do 3 right. left. split; [reflexivity|]. split; [exact Hu|]. split; reflexivity. }
  assert (exists s0, VString (String i0 id) = VString s0 /\ s0 <> EmptyString) as Hid
    by (eexists; split; [reflexivity|discriminate]).
  destruct (prop (qo_qrcode options)) as [| | | |q| | | |]; cbn [is_undefined];
    try (do 4 right; split; [reflexivity|]; split; [exact Hu|]; split; [reflexivity|];
         split; [exact Hid|]; split; [discriminate|intros ?; discriminate]).
  - split; [reflexivity|]. split; [exact Hu|]. split; [exact Hid|]. now left.
  - split; [reflexivity|]. split; [exact Hu|]. split; [exact Hid|]. right. eauto.
Qed.

End SetupQrcode.

(** ** What the derivation returns *)

Section DeriveResult.
Context `{Secrets} `{KdfEngines}.

(** What [derive.key] returns beside the policy: there are shares, at least
    [threshold] of them buffers, which [combine] makes the secret of and
    [recover] the shares; the key is the KDF of the secret under the salt,
    the size and the KDF of the policy; there are no outputs and no entropy
    report. *)
Theorem derive_key_of_secret (policy : Policy) (factors : gmap string (dyn FactorFn))
    (g g' : rng) (dk : DerivedKey) :
  derive_key policy factors g = Ok (dk, g') ->
  let n := Z.of_nat (length (p_factors policy)) in
  (exists shares,
     length shares = length (p_factors policy)
     /\ p_threshold policy <= Z.of_nat (count_buffers shares)
     /\ combine shares (p_threshold policy) n = Ok (dk_secret dk)
     /\ recover shares (p_threshold policy) n = Ok (dk_shares dk))
  /\ kdf (dk_secret dk) (base64_decode (p_salt policy)) (p_size policy) (p_kdf policy)
     = Ok (dk_key dk)
  /\ dk_outputs dk = None
  /\ dk_entropyBits dk = None.
Proof.
  intros Hrun. cbv zeta. unfold derive_key in Hrun. run_inv Hrun.
  destruct a as [shares newFactors]. cbn [fst snd] in *.
  unfold ret in Hrun. injection Hrun as <- <-.
  cbn [dk_secret dk_key dk_shares dk_outputs dk_entropyBits].
  apply derive_factors_Ok in Hstep1 as (Hlen & _).
  apply negb_true_iff, Z.ltb_ge in Hstep2.
  split; [exists shares; auto|]. auto.
Qed.

End DeriveResult.

(** ** A share shorter than the key *)

Lemma bxor_nilpotent (a : byte) : bxor a a = x00.
Proof.
  apply byte_to_Z_inj. now rewrite byte_to_Z_bxor, Z.lxor_nilpotent.
Qed.

Lemma xor_nilpotent (a : bytes) : xor a a = alloc (length a).
Proof.
  induction a as [|x a IH]; [reflexivity|].
  cbn [xor length alloc repeat]. rewrite bxor_nilpotent. f_equal. exact IH.
Qed.

(** Xoring twice with a longer buffer gives the first buffer and zeros. *)
Lemma xor_cancel_short (a b : bytes) :
  (length a <= length b)%nat ->
  xor (xor a b) b = a ++ alloc (length b - length a).
Proof.
  revert b. induction a as [|x a IH]; intros b Hl.
  - cbn [xor app length]. rewrite Nat.sub_0_r. apply xor_nilpotent.
  - destruct b as [|y b]; [cbn in Hl; lia|].
    cbn [xor length app]. rewrite bxor_cancel_r, IH by (cbn in Hl; lia).
    reflexivity.
Qed.

(** When the share of a factor is shorter than the key, the derivation does
    not give the share back: from the pad of the setup and a material with
    the type and the data of the factor it computes the share followed by
    zero bytes, up to [size] bytes. *)
Theorem short_share_zero_extended (key : bytes) (size : Z) (shares : list bytes)
    (index : nat) (factor : CheckedFactor) (g g' g2 g3 : rng) (pf : PolicyFactor)
    (out : value) (share : bytes) (factors : gmap string (dyn FactorFn))
    (produce : FactorFn) (material : Material) :
  setup_factor key size shares index factor g = Ok ((pf, out), g') ->
  shares !! index = Some share ->
  (length share < Z.to_nat size)%nat ->
  factors !! pf_id pf = Some (Fn produce) ->
  produce (pf_params pf) g2 = Ok (Obj material, g3) ->
  m_type material <> VString "persisted" ->
  m_type material = VString (pf_type pf) ->
  m_data material = VBuffer (cf_data factor) ->
  derive_factor size factors pf g2
  = Ok ((VBuffer (share ++ alloc (Z.to_nat size - length share)), m_params material), g3).
Proof.
  intros Hsetup Hshare Hshort Hlookup Hcall Hnp Hty Hdata.
  apply setup_factor_Ok in Hsetup
    as (stretched & share' & gc & output & Hhkdf & Hshare' & _ & _ & Hpad & _).
  rewrite Hshare in Hshare'. injection Hshare' as <-.
  pose proof (hkdf_length _ _ _ _ _ _ Hhkdf) as [Hsize Hstretched].
  assert (left_pad stretched size (length share) = stretched) as Hlp.
  { unfold left_pad. destruct (size <? Z.of_nat (length share)) eqn:E; [lia|reflexivity]. }
  rewrite Hlp in Hpad.
  rewrite (derive_factor_stretched size factors pf produce material g2 g3
             (cf_data factor) stretched);
    auto using factor_function_own; [|now rewrite Hdata].
  rewrite Hpad, base64_decode_encode.
  assert (left_pad stretched size (length (xor share stretched)) = stretched) as ->.
  { unfold left_pad. rewrite xor_length, Hstretched.
    destruct (Z.ltb_spec size (Z.of_nat (Nat.max (length share) (Z.to_nat size))));
      [lia|reflexivity]. }
  rewrite xor_cancel_short by lia. now rewrite Hstretched.
Qed.

(** ** The length of the key *)

Lemma pbkdf2_block_length (prf : bytes -> bytes) (hlen : nat) (salt : bytes)
    (rounds : N) (i : Z) :
  (forall m, length (prf m) = hlen) ->
  length (pbkdf2_block prf salt rounds i) = hlen.
Proof.
  intros Hprf. unfold pbkdf2_block. cbv zeta.
  set (step := fun '(u, t) => (prf u, xor t (prf u))).
  assert (forall n ut, length (fst ut) = hlen -> length (snd ut) = hlen ->
            length (fst (N.iter n step ut)) = hlen
            /\ length (snd (N.iter n step ut)) = hlen) as Hinv.
  { intros n ut Hu Ht. induction n as [|n IH] using N.peano_ind; [auto|].
    rewrite N.iter_succ. destruct (N.iter n step ut) as [u t]. cbn [fst snd] in *.
    destruct IH as [IHu IHt]. unfold step. cbn [fst snd].
    rewrite xor_length, Hprf, IHt. split; lia. }
  apply Hinv; cbn [fst snd]; apply Hprf.
Qed.

Lemma pbkdf2_length (prf : bytes -> bytes) (hlen : nat) (salt : bytes) (rounds : N)
    (dklen : nat) :
  (0 < hlen)%nat -> (forall m, length (prf m) = hlen) ->
  length (pbkdf2 prf hlen salt rounds dklen) = dklen.
Proof.
  intros Hpos Hprf. unfold pbkdf2. cbv zeta.
  rewrite length_take. apply Nat.min_l.
  set (n := ((dklen + hlen - 1) / hlen)%nat).
  assert (forall l : list nat,
            length (concat (map (fun i => pbkdf2_block prf salt rounds (Z.of_nat i)) l))
            = (length l * hlen)%nat) as Hc.
  { induction l as [|x l IH]; [reflexivity|].
    cbn [map concat length].
    rewrite length_app, IH, (pbkdf2_block_length prf hlen) by exact Hprf.
    lia. }
  rewrite Hc, length_seq.
  pose proof (Nat.div_mod_eq (dklen + hlen - 1) hlen) as E.
  pose proof (Nat.mod_upper_bound (dklen + hlen - 1) hlen) as Hm.
  fold n in E. nia.
Qed.

Lemma kdf_pbkdf2_length `{KdfEngines} (input salt key : bytes) (size rounds : Z)
    (digest : Digest) :
  kdf input salt size (Pbkdf2 rounds digest) = Ok key -> length key = Z.to_nat size.
Proof.
  cbn [kdf]. intros [= <-]. apply pbkdf2_length; [apply hash_len_pos|].
  intros m. apply hmac_length.
Qed.

Section KeyLength.
Context `{Secrets} `{KdfSetup} `{KdfEngines}.

(** With PBKDF2 for the KDF of the policy, the key [setup.key] returns has
    [size] bytes, and so has the key [derive.key] returns for the policy. *)
Theorem pbkdf2_key_length (fs : list Factor) (options : Options)
    (factors : gmap string (dyn FactorFn)) (g g1 g2 g3 : rng) (dk dk' : DerivedKey)
    (rounds : Z) (digest : Digest) :
  setup_key (FactorArray (map Obj fs)) options g = Ok (dk, g1) ->
  p_kdf (dk_policy dk) = Pbkdf2 rounds digest ->
  length (dk_key dk) = Z.to_nat (p_size (dk_policy dk))
  /\ (derive_key (dk_policy dk) factors g2 = Ok (dk', g3) ->
      length (dk_key dk') = Z.to_nat (p_size (dk_policy dk))).
Proof.
  intros Hsetup Hkdf.
  apply setup_key_run in Hsetup
    as (args & g0 & gs & gh & secret & key & shares & st & _ & _ & Hkey & _ & _ & ->).
  cbn [dk_policy dk_key p_kdf p_size] in *. rewrite Hkdf in Hkey.
  split; [now apply kdf_pbkdf2_length in Hkey|].
  intros Hderive. unfold derive_key in Hderive. run_inv Hderive.
  unfold ret in Hderive. injection Hderive as <- _. cbn [dk_key].
  cbn [p_kdf p_size p_salt] in *. rewrite Hkdf in *.
  match goal with
  | Hk : kdf _ _ _ (Pbkdf2 _ _) = Ok ?k |- length ?k = _ =>
      now apply kdf_pbkdf2_length in Hk
  end.
Qed.

End KeyLength.

(** ** Examples for Part III *)

Section MoreExamples.

#[local] Existing Instance simple_secrets.
#[local] Existing Instance pbkdf2_engine.
#[local] Existing Instance pbkdf2_setup.
#[local] Existing Instance no_zxcvbn.
#[local] Existing Instance no_log2.

Lemma example_setup_run :
  setup_key (FactorArray (map Obj example_factors))
              (example_options (Some (VNumber (Int 1))))
            example_rng = example_setup_result.
Proof. vm_compute. reflexivity. Qed.

Lemma example_derive_run :
  derive_key (example_policy 1) qrcode_only example_rng = example_derive_result.
Proof. vm_compute. reflexivity. Qed.

(** The goal says that the example setup, or the example derivation, returns
    a value with a property: give the value, and keep the run as [E]. *)
Ltac take_run run result E :=
  pose proof run as E; unfold result in E;
  lazymatch type of E with
  | _ = Ok (?a, ?g) => exists a, g; split; [exact E|]
  end.

Lemma setup_policy_shape_witness :
  exists dk g',
    setup_key (FactorArray (map Obj example_factors))
              (example_options (Some (VNumber (Int 1))))
              example_rng = Ok (dk, g')
    /\ p_size (dk_policy dk) = 16
    /\ p_threshold (dk_policy dk) = 1
    /\ map (fun pf => VString (pf_id pf)) (p_factors (dk_policy dk))
       = [VString "password"; VString "hmacsha1"]
    /\ map (fun pf => VString (pf_type pf)) (p_factors (dk_policy dk))
       = map f_type example_factors.
Proof.
  take_run example_setup_run example_setup_result E.
  split; [reflexivity|]. split; [reflexivity|].
  pose proof (setup_policy_shape _ _ _ _ _ E) as (_ & _ & _ & Hids & Htypes).
  split; [exact Hids|exact Htypes].
Defined.

Lemma setup_key_of_secret_witness :
  exists dk g',
    setup_key (FactorArray (map Obj example_factors))
              (example_options (Some (VNumber (Int 1))))
              example_rng = Ok (dk, g')
    /\ length (dk_secret dk) = 16%nat
    /\ kdf (dk_secret dk) (base64_decode (p_salt (dk_policy dk))) (p_size (dk_policy dk))
           (p_kdf (dk_policy dk)) = Ok (dk_key dk)
    /\ (length example_factors <= length (dk_shares dk))%nat.
Proof.
  take_run example_setup_run example_setup_result E.
  exact (setup_key_of_secret _ _ _ _ _ E).
Defined.

Lemma setup_pad_length_witness :
  exists dk g',
    setup_key (FactorArray (map Obj example_factors))
              (example_options (Some (VNumber (Int 1))))
              example_rng = Ok (dk, g')
    /\ exists pf share,
         p_factors (dk_policy dk) !! 0%nat = Some pf
         /\ dk_shares dk !! 0%nat = Some share
         /\ length (base64_decode (pf_pad pf)) = Nat.max (length share) 16.
Proof.
  take_run example_setup_run example_setup_result E.
  eexists. 
  match goal with
  | |- exists share, ?l = Some ?pf /\ _ =>
      assert (l = Some pf) as Hpf by reflexivity
  end.
  destruct (setup_pad_length _ _ _ _ _ _ _ E Hpf) as (share & Hs & Hl).
  exists share. split; [exact Hpf|]. split; [exact Hs|exact Hl].
Defined.

Lemma setup_size_bound_witness :
  exists dk g',
    setup_key (FactorArray (map Obj example_factors))
              (example_options (Some (VNumber (Int 1))))
              example_rng = Ok (dk, g')
    /\ 1 <= p_size (dk_policy dk) <= 16320.
Proof.
  take_run example_setup_run example_setup_result E.
  exact (setup_size_bound _ _ _ _ _ E).
Defined.

Lemma setup_salt_and_id_witness :
  exists dk g',
    setup_key (FactorArray (map Obj example_factors))
              (example_options (Some (VNumber (Int 1))))
              example_rng = Ok (dk, g')
    /\ base64_decode (p_salt (dk_policy dk)) = bytes_of_string "0123456789abcdef"
    /\ p_id (dk_policy dk) = "example"%string.
Proof.
  take_run example_setup_run example_setup_result E.
  pose proof (setup_salt_and_id _ _ _ _ _ E) as (Hsalt & _ & Hid & _).
  split; [exact (Hsalt _ eq_refl)|exact (Hid _ eq_refl)].
Defined.



(** The policy whose one slot is called "toString", with a map that has no
    entry under this name. *)
Lemma derive_calls_inherited_function_witness :
  junk_only !! pf_id toString_slot = None
  /\ derive_factor 16 junk_only toString_slot example_rng = Err FactorTypeMismatch.
Proof.
  split; [reflexivity|].
  exact (derive_calls_inherited_function 16 junk_only toString_slot example_rng
           eq_refl (or_introl eq_refl)).
Defined.


Lemma derive_qrcode_keeps_slot_witness :
  derive_qrcode (VString "user") (VString "salt") = Ok example_qrcode
  /\ exists dk g',
       derive_key (example_policy 1) qrcode_only example_rng = Ok (dk, g')
       /\ p_factors (example_policy 1) !! 1%nat = Some qrcode_slot
       /\ qrcode_only !! pf_id qrcode_slot = Some (Fn example_qrcode)
       /\ p_factors (dk_policy dk) !! 1%nat = Some qrcode_slot.
Proof.
  split; [reflexivity|].
  take_run example_derive_run example_derive_result E.
  split; [reflexivity|]. split; [reflexivity|].
  exact (derive_qrcode_keeps_slot _ _ _ _ _ (VString "user") (VString "salt")
           example_qrcode 1 qrcode_slot eq_refl E eq_refl eq_refl).
Defined.

Lemma hmacsha1_factor_checks_witness :
  hmacsha1 {| ho_id := None; ho_secret := Some (VBuffer example_secret) |} example_rng
  = Ok (example_hmacsha1, example_rng)
  /\ exists c, check_factor (Obj example_hmacsha1) = Ok c /\ cf_type c = "hmacsha1"%string.
Proof.
  split; [reflexivity|].
  exact (hmacsha1_factor_checks
           {| ho_id := None; ho_secret := Some (VBuffer example_secret) |}
           example_rng example_rng example_hmacsha1 eq_refl).
Defined.

Lemma setup_stores_hmacsha1_challenge_witness :
  hmacsha1 {| ho_id := None; ho_secret := Some (VBuffer example_secret) |} example_rng
  = Ok (example_hmacsha1, example_rng)
  /\ example_factors !! 1%nat = Some example_hmacsha1
  /\ exists dk g',
       setup_key (FactorArray (map Obj example_factors))
              (example_options (Some (VNumber (Int 1))))
                 example_rng = Ok (dk, g')
       /\ exists pf secret challenge pad,
            p_factors (dk_policy dk) !! 1%nat = Some pf
            /\ pf_type pf = "hmacsha1"%string
            /\ f_data example_hmacsha1 = VBuffer secret
            /\ pf_params pf
               = [("challenge", JString challenge); ("pad", JString pad)]%string
            /\ length (unhex challenge) = 64%nat
            /\ xor (unhex pad)
                   (firstn 20 (hmac (hash sha1) (hash_block sha1) secret
                                    (unhex challenge)))
               = secret.
Proof.
  split; [reflexivity|]. split; [reflexivity|].
  take_run example_setup_run example_setup_result E.
  exact (setup_stores_hmacsha1_challenge example_factors _ _ _ example_rng example_rng _
           {| ho_id := None; ho_secret := Some (VBuffer example_secret) |}
           example_hmacsha1 1 eq_refl eq_refl E).
Defined.

Lemma setup_qrcode_then_derive_witness :
  exists printed factor g',
    setup_qrcode (VString "@disnocen")
                 {| qo_id := Some (VString "qrcode"); qo_qrcode := None |} example_rng
    = (printed, Ok (factor, g'))
    /\ exists u salt produce,
         VString "@disnocen" = VString u
         /\ printed = [qrcode_salt_notice; salt]
         /\ salt = hex (fst (randomBytes 32 example_rng))
         /\ String.length salt = 64%nat
         /\ g' = snd (randomBytes 32 example_rng)
         /\ derive_qrcode (VString u) (VString salt) = Ok produce
         /\ (forall params g2,
               exists material,
                 produce params g2 = Ok (Obj material, g2)
                 /\ m_type material = f_type factor
                 /\ m_data material = f_data factor)
         /\ exists c, check_factor (Obj factor) = Ok c /\ cf_type c = "qrcode"%string.
Proof.
  lazymatch eval vm_compute in
    (setup_qrcode (VString "@disnocen")
                  {| qo_id := Some (VString "qrcode"); qo_qrcode := None |} example_rng)
  with
  | (?p, Ok (?f, ?g)) => exists p, f, g
  end.
  match goal with
  | |- ?A /\ _ => assert A as E by (vm_compute; reflexivity)
  end.
  split; [exact E|].
  exact (setup_qrcode_then_derive _ _ _ _ _ _ E).
Defined.

Lemma derive_key_of_secret_witness :
  exists dk g',
    derive_key (example_policy 1) qrcode_only example_rng = Ok (dk, g')
    /\ kdf (dk_secret dk) (base64_decode (p_salt (example_policy 1)))
           (p_size (example_policy 1)) (p_kdf (example_policy 1)) = Ok (dk_key dk)
    /\ dk_outputs dk = None
    /\ dk_entropyBits dk = None.
Proof.
  take_run example_derive_run example_derive_result E.
  exact (proj2 (derive_key_of_secret _ _ _ _ _ E)).
Defined.

Lemma short_share_zero_extended_witness :
  exists r g',
    setup_factor (bytes_of_string "a key") 16 [short_share] 0 example_checked example_rng
      = Ok (r, g')
    /\ [short_share] !! 0%nat = Some short_share
    /\ (length short_share < Z.to_nat 16)%nat
    /\ derive_factor 16 password_only (fst r) example_rng
       = Ok ((VBuffer (short_share ++ alloc 6), NotFn VUndefined), example_rng).
Proof.
  lazymatch eval vm_compute in
    (setup_factor (bytes_of_string "a key") 16 [short_share] 0 example_checked example_rng)
  with
  | Ok (?r, ?g) => exists r, g
  end.
  match goal with
  | |- ?A /\ _ => assert A as E by (vm_compute; reflexivity)
  end.
  split; [exact E|]. split; [reflexivity|]. split; [vm_compute; lia|].
  refine (short_share_zero_extended _ _ _ _ _ _ _ example_rng example_rng _ _ short_share
            password_only (plain_material "password" (bytes_of_string "correct horse"))
            {| m_type := VString "password";
               m_data := VBuffer (bytes_of_string "correct horse");
               m_params := NotFn VUndefined; m_output := NotFn VUndefined |}
            E eq_refl ltac:(vm_compute; lia) eq_refl eq_refl _ eq_refl eq_refl).
  cbn. discriminate.
Defined.

Lemma pbkdf2_key_length_witness :
  exists dk g',
    setup_key (FactorArray (map Obj example_factors))
              (example_options (Some (VNumber (Int 1))))
              example_rng = Ok (dk, g')
    /\ p_kdf (dk_policy dk) = Pbkdf2 2 sha256
    /\ length (dk_key dk) = 16%nat.
Proof.
  take_run example_setup_run example_setup_result E.
  split; [reflexivity|].
  lazymatch type of E with
  | _ = Ok (?d, _) =>
      exact (proj1 (pbkdf2_key_length _ _ ∅ _ _ example_rng example_rng d d _ _
                      E eq_refl))
  end.
Defined.

End MoreExamples.
